(** * msgspec.inspect: the type-descriptor to Type-IR translator

    A shallow embedding of [src/msgspec/inspect.py]: the IR node classes,
    the descriptor normaliser [_origin_args_metadata], the payload merger
    [_merge_json], the recursive [_Translator] with its per-run caches, and
    the two entry points [type_info] and [multi_type_info].

    Python objects that the translator only passes around are kept opaque;
    objects it inspects (dicts, tuples, type markers, class attributes) are
    modelled as data.  Object-like IR nodes are mutable and compared by
    identity in the source, so they live in an explicit heap and the IR
    refers to them by location. *)

From stdpp Require Import gmap strings list sorting.
From Stdlib Require Import ZArith.

Local Open Scope Z_scope.

Set Warnings "-register-all".

(** ** Python values *)

(** The values the translator stores or inspects.  [UNSET] is the
    process-wide sentinel of [msgspec.UNSET]; [VEllipsis] is [...];
    [VObj] is any other object, known by identity only (a callable used as
    a default factory, a float, a compiled pattern, ...). *)
Inductive pyval : Type :=
| VNone
| UNSET
| VEllipsis
| VBool (b : bool)
| VInt (z : Z)
| VStr (s : string)
| VList (items : list pyval)
| VTuple (items : list pyval)
| VDict (items : list (string * pyval))
| VObj (id : nat).

(** A Python [dict] with string keys: insertion ordered, keys unique. *)
Abbreviation pydict := (list (string * pyval)).

Fixpoint dict_get (key : string) (d : pydict) : option pyval :=
  match d with
  | [] => None
  | (k, v) :: d' => if String.eqb k key then Some v else dict_get key d'
  end.

(** [d[key] = v]: an existing key keeps its position, a new key is
    appended. *)
Fixpoint dict_set (key : string) (v : pyval) (d : pydict) : pydict :=
  match d with
  | [] => [(key, v)]
  | (k, w) :: d' =>
      if String.eqb k key then (k, v) :: d' else (k, w) :: dict_set key v d'
  end.

Definition dict_contains (key : string) (d : pydict) : bool :=
  match dict_get key d with Some _ => true | None => false end.

(** [d.update(other)] *)
Definition dict_update (d other : pydict) : pydict :=
  fold_left (fun acc kv => dict_set kv.1 kv.2 acc) other d.

(** Truthiness of a dict: [if d:] *)
Definition dict_truthy (d : pydict) : bool :=
  match d with [] => false | _ => true end.

(** [d or None] *)
Definition dict_or_None (d : pydict) : option pydict :=
  if dict_truthy d then Some d else None.

Definition is_dict (v : pyval) : bool :=
  match v with VDict _ => true | _ => false end.

(** [isinstance(v, (list, tuple))] together with [list(v)] *)
Definition as_sequence (v : pyval) : option (list pyval) :=
  match v with
  | VList l | VTuple l => Some l
  | _ => None
  end.

(** ** [_merge_json]

    The loop runs over [b.items()]; the recursive call is on the value
    found in [b], so the recursion is structural in [b]. *)
Fixpoint _merge_json (a : pydict) (b : pyval) {struct b} : pydict :=
  match b with
  | VDict b_items =>
      (fix loop (items : pydict) (a : pydict) {struct items} : pydict :=
         match items with
         | [] => a
         | (key, b_val) :: rest =>
             let a' :=
               match dict_get key a with
               | Some a_val =>
                   match a_val, b_val with
                   | VDict a_sub, VDict _ =>
                       dict_set key (VDict (_merge_json a_sub b_val)) a
                   | _, _ =>
                       match as_sequence a_val, as_sequence b_val with
                       | Some la, Some lb => dict_set key (VList (la ++ lb)) a
                       | _, _ => dict_set key b_val a
                       end
                   end
               | None => dict_set key b_val a
               end in
             loop rest a'
         end) b_items a
  | _ => a
  end.

Example merge_json_demo :
  _merge_json
    [("title", VStr "a"); ("examples", VList [VInt 1]);
     ("props", VDict [("x", VInt 1)])]
    (VDict [("title", VStr "b"); ("examples", VTuple [VInt 2]);
            ("props", VDict [("y", VInt 2)]); ("new", VNone)])
  = [("title", VStr "b"); ("examples", VList [VInt 1; VInt 2]);
     ("props", VDict [("x", VInt 1); ("y", VInt 2)]); ("new", VNone)].
Proof. reflexivity. Qed.

(** ** Constraint metadata: [msgspec.Meta] *)

Module Meta.
(** The attributes of a [Meta] annotation that the translator reads.  An
    attribute that is [None] in Python is [None] here. *)
Record t : Type := mk {
  gt : option pyval;
  ge : option pyval;
  lt : option pyval;
  le : option pyval;
  multiple_of : option pyval;
  pattern : option pyval;
  min_length : option pyval;
  max_length : option pyval;
  tz : option pyval;
  title : option pyval;
  description : option pyval;
  examples : option pyval;
  extra_json_schema : option pydict;
  extra : option pydict
}.

Definition empty : t :=
  mk None None None None None None None None None None None None None None.
End Meta.

(** The keyword arguments [**constrs] of [_translate_inner]; a missing key
    and the default [None] are the same thing for the callee. *)
Module Constrs.
Record t : Type := mk {
  ge : option pyval;
  gt : option pyval;
  le : option pyval;
  lt : option pyval;
  multiple_of : option pyval;
  pattern : option pyval;
  min_length : option pyval;
  max_length : option pyval;
  tz : option pyval
}.

Definition empty : t := mk None None None None None None None None None.

(** [if (val := getattr(meta, attr)) is not None: constrs[attr] = val] *)
Definition set_if (old new : option pyval) : option pyval :=
  match new with Some v => Some v | None => old end.

Definition absorb (c : t) (m : Meta.t) : t :=
  mk (set_if (ge c) (Meta.ge m))
     (set_if (gt c) (Meta.gt m))
     (set_if (le c) (Meta.le m))
     (set_if (lt c) (Meta.lt m))
     (set_if (multiple_of c) (Meta.multiple_of m))
     (set_if (pattern c) (Meta.pattern m))
     (set_if (min_length c) (Meta.min_length m))
     (set_if (max_length c) (Meta.max_length m))
     (set_if (tz c) (Meta.tz m)).
End Constrs.

(** ** Type descriptors *)

(** Class identity. *)
Abbreviation cls := nat (only parsing).

(** Atomic Python objects that can stand where a type is expected: the
    canonical markers the dispatch compares against with [is], user classes
    (by identity), any other object (by identity), and plain values such as
    the members of a [Literal], [None], [...] and [()]. *)
Inductive pyobj : Type :=
| py_Any
| py_NoneType
| py_bool
| py_int
| py_float
| py_str
| py_bytes
| py_bytearray
| py_datetime
| py_time
| py_date
| py_UUID
| py_Decimal
| py_Raw
| py_Ext
| py_list
| py_set
| py_frozenset
| py_tuple
| py_dict
| py_Union
| py_Literal
| py_class (c : cls)
| py_other (id : nat)
| py_val (v : pyval).

(** An element of [__metadata__] of an [Annotated] alias. *)
Inductive annotation : Type :=
| AMeta (m : Meta.t)        (* [type(m) is msgspec.Meta] *)
| AOther (v : pyval).

(** A raw type descriptor as handed to [type_info].
    - [DObj o]: an object without [__origin__] and [__supertype__];
    - [DAlias origin args]: a generic alias, [args] is its [__args__]
      ([None] when the attribute is missing);
    - [DUnionType args]: the [X | Y] spelling, an instance of
      [types.UnionType];
    - [DAnnotated t metadata]: [Annotated[t, *metadata]];
    - [DNewType supertype]: a [NewType], with its [__supertype__]. *)
Inductive descr : Type :=
| DObj (o : pyobj)
| DAlias (origin : pyobj) (args : option (list descr))
| DUnionType (args : list descr)
| DAnnotated (t : descr) (metadata : list annotation)
| DNewType (supertype : descr).

(** ** The Type IR *)

Abbreviation loc := nat (only parsing).

(** The IR node classes.  Constructor arguments follow the field order of
    the class declarations.  The four object-like classes are mutable
    ([out.fields = ...]) and shared by identity, so an IR tree holds a
    reference [ObjRef l] to the node stored at location [l] of the heap. *)
Inductive Type_ : Type :=
| Metadata (type : Type_) (extra_json_schema extra : option pydict)
| AnyType
| NoneType
| BoolType
| IntType (gt ge lt le multiple_of : option pyval)
| FloatType (gt ge lt le multiple_of : option pyval)
| StrType (min_length max_length pattern : option pyval)
| BytesType (min_length max_length : option pyval)
| ByteArrayType (min_length max_length : option pyval)
| DateTimeType (tz : option pyval)
| TimeType (tz : option pyval)
| DateType
| UUIDType
| DecimalType
| ExtType
| RawType
| EnumType (c : descr)
| LiteralType (values : list descr)
| CustomType (c : descr)
| UnionType (types : list Type_)
| ListType (item_type : Type_) (min_length max_length : option pyval)
| SetType (item_type : Type_) (min_length max_length : option pyval)
| FrozenSetType (item_type : Type_) (min_length max_length : option pyval)
| VarTupleType (item_type : Type_) (min_length max_length : option pyval)
| TupleType (item_types : list Type_)
| DictType (key_type value_type : Type_) (min_length max_length : option pyval)
| ObjRef (l : loc).

Module Field.
Record t : Type := mk {
  name : string;
  encode_name : string;
  type : Type_;
  required : bool;
  default : pyval;
  default_factory : pyval
}.
End Field.

(** The object-like node classes, as stored in the heap. *)
Inductive objnode : Type :=
| TypedDictType (c : cls) (fields : list Field.t)
| NamedTupleType (c : cls) (fields : list Field.t)
| DataclassType (c : cls) (fields : list Field.t)
| StructType (c : cls) (fields : list Field.t)
    (tag_field tag : pyval) (array_like forbid_unknown_fields : bool).

Definition obj_cls (o : objnode) : cls :=
  match o with
  | TypedDictType c _ | NamedTupleType c _ | DataclassType c _
  | StructType c _ _ _ _ _ => c
  end.

Definition obj_fields (o : objnode) : list Field.t :=
  match o with
  | TypedDictType _ fs | NamedTupleType _ fs | DataclassType _ fs
  | StructType _ fs _ _ _ _ => fs
  end.

(** [out.fields = fs] *)
Definition set_fields (fs : list Field.t) (o : objnode) : objnode :=
  match o with
  | TypedDictType c _ => TypedDictType c fs
  | NamedTupleType c _ => NamedTupleType c fs
  | DataclassType c _ => DataclassType c fs
  | StructType c _ tf tg al fu => StructType c fs tf tg al fu
  end.

(** [UnionType.includes_none]:
    [any(isinstance(t, NoneType) for t in self.types)] *)
Definition is_NoneType (t : Type_) : bool :=
  match t with NoneType => true | _ => false end.

Definition includes_none (types : list Type_) : bool :=
  existsb is_NoneType types.

(** ** Classes

    What the translator reads off a class object.  A class that is not
    described here is an ordinary class: none of [_is_enum], [_is_struct],
    [_is_typeddict], [_is_dataclass], [_is_namedtuple] holds for it. *)

(** An entry of [__struct_defaults__]. *)
Inductive default_obj : Type :=
| _nodefault
| _Factory (factory : pyval)
| DefaultValue (v : pyval).

Record struct_class : Type := {
  __struct_fields__ : list string;
  __struct_encode_fields__ : list string;
  __struct_defaults__ : list default_obj;
  __struct_tag_field__ : pyval;
  __struct_tag__ : pyval;
  struct_array_like : bool;
  struct_forbid_unknown_fields : bool;
  struct_hints : gmap string descr
}.

Record typeddict_class : Type := {
  __required_keys__ : option (list string);   (* [None]: no such attribute *)
  __total__ : bool;
  typeddict_hints : gmap string descr
}.

(** An element of [dataclasses.fields(t)]; [None] stands for [MISSING]. *)
Record dataclass_field : Type := {
  dc_name : string;
  dc_default : option pyval;
  dc_default_factory : option pyval
}.

Record dataclass_class : Type := {
  dataclass_fields : list dataclass_field;
  dataclass_hints : gmap string descr
}.

(** A named tuple class as [collections.namedtuple] and
    [typing.NamedTuple] make it: [_fields] and [_field_defaults] are both
    there.  A tuple subclass with [_fields] and no [_field_defaults] is not
    described by this record. *)
Record namedtuple_class : Type := {
  _fields : list string;
  _field_defaults : pydict;
  namedtuple_hints : gmap string descr
}.

Inductive class_info : Type :=
| CEnum
| CStruct (s : struct_class)
| CTypedDict (td : typeddict_class)
| CDataclass (dc : dataclass_class)
| CNamedTuple (nt : namedtuple_class).

(** ** Exceptions and the translator's state *)

Inductive exn : Type :=
| KeyError
| IndexError
| TypeError
| ValueError (msg : string)
| DecoderError (msg : string)   (* raised by the decoder constructor *)
| OutOfFuel.                    (* not a Python exception: the recursion
                                   budget of the model is used up *)

Inductive result (A : Type) : Type :=
| Ok (a : A)
| Raise (e : exn).
Arguments Ok {A} a.
Arguments Raise {A} e.

(** The instance attributes of [_Translator] that change during a run,
    and the heap of object-like nodes allocated by it. *)
Record state : Type := mkState {
  type_hints : gmap cls (gmap string descr);
  cache : gmap cls loc;
  heap : list objnode
}.

(** [self.type_hints = {}; self.cache = {}] *)
Definition init_state : state := mkState ∅ ∅ [].

Definition M (A : Type) : Type := state → result (A * state).

Definition ret {A} (a : A) : M A := fun st => Ok (a, st).
Definition raise {A} (e : exn) : M A := fun _ => Raise e.
Definition bind {A B} (m : M A) (k : A → M B) : M B :=
  fun st =>
    match m st with
    | Ok (a, st') => k a st'
    | Raise e => Raise e
    end.

Notation "'let*' x ':=' m 'in' k" := (bind m (fun x => k))
  (at level 10, x name, m at level 100, k at level 200).

(** [tuple(f(a) for a in l)], left to right. *)
Fixpoint mapM {A B} (f : A → M B) (l : list A) : M (list B) :=
  match l with
  | [] => ret []
  | a :: l' => let* b := f a in let* bs := mapM f l' in ret (b :: bs)
  end.

(** ** [sorted]

    Python's [sorted] is a stable comparison sort; insertion from the
    right, placing an element before the first one that is not smaller,
    is stable too, and a stable sort has one possible output. *)
Fixpoint insert_sorted {A} (leb : A → A → bool) (x : A) (l : list A) : list A :=
  match l with
  | [] => [x]
  | y :: l' => if leb x y then x :: l else y :: insert_sorted leb x l'
  end.

Fixpoint isort {A} (leb : A → A → bool) (l : list A) : list A :=
  match l with
  | [] => []
  | x :: l' => insert_sorted leb x (isort leb l')
  end.

(** Integers, with [bool] the subclass of [int] that it is. *)
Definition int_key (d : descr) : option Z :=
  match d with
  | DObj (py_val (VInt z)) => Some z
  | DObj (py_val (VBool b)) => Some (Z.b2z b)
  | _ => None
  end.

Definition str_key (d : descr) : option string :=
  match d with
  | DObj (py_val (VStr s)) => Some s
  | _ => None
  end.

Definition all_keys {K} (key : descr → option K) (l : list descr) : bool :=
  forallb (fun d => match key d with Some _ => true | None => false end) l.

Definition leb_by {K} (key : descr → option K) (leb : K → K → bool)
    (x y : descr) : bool :=
  match key x, key y with
  | Some a, Some b => leb a b
  | _, _ => false
  end.

(** [sorted(args)] for the members of a [Literal].  Integers order among
    themselves and strings among themselves; a list of fewer than two
    elements is never compared; a list that mixes integers and strings,
    or holds [None], makes [<] raise [TypeError].  The values of the
    model have no other order: for members of other kinds (floats,
    bytes, objects with their own [<]) the answer [TypeError] is right
    only when Python cannot compare them, and nothing below relies on
    it. *)
Definition sorted (args : list descr) : result (list descr) :=
  if all_keys int_key args then Ok (isort (leb_by int_key Z.leb) args)
  else if all_keys str_key args then Ok (isort (leb_by str_key String.leb) args)
  else match args with
       | [] | [_] => Ok args
       | _ => Raise TypeError
       end.

Example sorted_ints :
  sorted [DObj (py_val (VInt 3)); DObj (py_val (VInt 1)); DObj (py_val (VInt 2))]
  = Ok [DObj (py_val (VInt 1)); DObj (py_val (VInt 2)); DObj (py_val (VInt 3))].
Proof. reflexivity. Qed.

Example sorted_mixed :
  sorted [DObj (py_val (VInt 3)); DObj (py_val (VStr "a"))] = Raise TypeError.
Proof. reflexivity. Qed.

(** ** The translator *)

(** The per-field data of an object-like class that does not depend on the
    translation of the field's type: the arguments of [Field(...)] other
    than [type], and the declared type looked up in the hints ([None] when
    the lookup [hints[name]] raises [KeyError]). *)
Record field_spec : Type := mkSpec {
  fs_name : string;
  fs_encode_name : string;
  fs_hint : option descr;
  fs_required : bool;
  fs_default : pyval;
  fs_default_factory : pyval
}.

(** The body of the loop over
    [zip(__struct_fields__, __struct_encode_fields__,
         (_nodefault,) * npos + __struct_defaults__)]. *)
Definition struct_field_spec (hints : gmap string descr)
    (item : string * (string * default_obj)) : field_spec :=
  let '(name, (encode_name, obj)) := item in
  match obj with
  | _nodefault => mkSpec name encode_name (hints !! name) true UNSET UNSET
  | _Factory factory =>
      mkSpec name encode_name (hints !! name) false UNSET factory
  | DefaultValue v => mkSpec name encode_name (hints !! name) false v UNSET
  end.

Definition struct_field_specs (sc : struct_class) (hints : gmap string descr)
    : list field_spec :=
  let npos := (length (__struct_fields__ sc)
               - length (__struct_defaults__ sc))%nat in
  struct_field_spec hints <$>
    zip (__struct_fields__ sc)
        (zip (__struct_encode_fields__ sc)
             (replicate npos _nodefault ++ __struct_defaults__ sc)).

(** [name in required] for a TypedDict. *)
Definition typeddict_required (td : typeddict_class)
    (hints : gmap string descr) (name : string) : bool :=
  match __required_keys__ td with
  | Some keys => bool_decide (name ∈ keys)
  | None =>
      if __total__ td then bool_decide (is_Some (hints !! name)) else false
  end.

(** [sorted(hints.items())]: the keys of a dict are distinct, so the pairs
    are ordered by name alone. *)
Definition sorted_items (hints : gmap string descr) : list (string * descr) :=
  isort (fun x y => String.leb x.1 y.1) (map_to_list hints).

Definition typeddict_field_specs (td : typeddict_class)
    (hints : gmap string descr) : list field_spec :=
  (fun item : string * descr =>
     mkSpec item.1 item.1 (Some item.2)
            (typeddict_required td hints item.1) UNSET UNSET)
  <$> sorted_items hints.

Definition dataclass_field_specs (dc : dataclass_class)
    (hints : gmap string descr) : list field_spec :=
  (fun f =>
     mkSpec (dc_name f) (dc_name f) (hints !! dc_name f)
       (match dc_default f, dc_default_factory f with
        | None, None => true
        | _, _ => false
        end)
       (default UNSET (dc_default f))
       (default UNSET (dc_default_factory f)))
  <$> dataclass_fields dc.

Definition namedtuple_field_specs (nt : namedtuple_class)
    (hints : gmap string descr) : list field_spec :=
  (fun name =>
     mkSpec name name (Some (default (DObj py_Any) (hints !! name)))
       (negb (dict_contains name (_field_defaults nt)))
       (default UNSET (dict_get name (_field_defaults nt)))
       UNSET)
  <$> _fields nt.

(** The declared field types of a class, as the field-type resolution of
    [_utils.get_type_hints] returns them. *)
Definition get_type_hints (ci : class_info) : gmap string descr :=
  match ci with
  | CEnum => ∅
  | CStruct sc => struct_hints sc
  | CTypedDict td => typeddict_hints td
  | CDataclass dc => dataclass_hints dc
  | CNamedTuple nt => namedtuple_hints nt
  end.

(** The node a class is first cached as: its class reference, an empty
    field tuple and, for a struct, its configuration. *)
Definition placeholder (c : cls) (ci : class_info) : option objnode :=
  match ci with
  | CEnum => None
  | CStruct sc =>
      Some (StructType c [] (__struct_tag_field__ sc) (__struct_tag__ sc)
              (struct_array_like sc) (struct_forbid_unknown_fields sc))
  | CTypedDict _ => Some (TypedDictType c [])
  | CDataclass _ => Some (DataclassType c [])
  | CNamedTuple _ => Some (NamedTupleType c [])
  end.

Definition field_specs (ci : class_info) (hints : gmap string descr)
    : list field_spec :=
  match ci with
  | CEnum => []
  | CStruct sc => struct_field_specs sc hints
  | CTypedDict td => typeddict_field_specs td hints
  | CDataclass dc => dataclass_field_specs dc hints
  | CNamedTuple nt => namedtuple_field_specs nt hints
  end.

(** [self._get_type_hints(t)]: the memoised lookup. *)
Definition _get_type_hints (c : cls) (ci : class_info)
    : M (gmap string descr) :=
  fun st =>
    match type_hints st !! c with
    | Some out => Ok (out, st)
    | None =>
        let out := get_type_hints ci in
        Ok (out, mkState (<[c := out]> (type_hints st)) (cache st) (heap st))
    end.

(** [self.cache[t] = out = <node>]: allocate the node, register it. *)
Definition cache_new (c : cls) (o : objnode) : M loc :=
  fun st =>
    let l := length (heap st) in
    Ok (l, mkState (type_hints st) (<[c := l]> (cache st)) (heap st ++ [o])).

(** [out.fields = tuple(fields)] *)
Definition assign_fields (l : loc) (fields : list Field.t) : M unit :=
  fun st =>
    Ok (tt, mkState (type_hints st) (cache st)
              (alter (set_fields fields) l (heap st))).

(** [x == ()] and [x is ...] *)
Definition is_empty_tuple (d : descr) : bool :=
  match d with DObj (py_val (VTuple [])) => true | _ => false end.

Definition is_Ellipsis (d : descr) : bool :=
  match d with DObj (py_val VEllipsis) => true | _ => false end.

(** [if args == ((),): args = ()] *)
Definition tuple_args (args : option (list descr)) : option (list descr) :=
  match args with
  | Some [x] => if is_empty_tuple x then Some [] else args
  | _ => args
  end.

(** [len(args) == 2 and args[-1] is ...] *)
Definition is_variadic (args : list descr) : bool :=
  match args with
  | [_; last] => is_Ellipsis last
  | _ => false
  end.

Section Translator.

(** The table [_utils._CONCRETE_TYPES], from built-in forms to canonical
    markers: a lookup that fails is [None]. *)
Variable _CONCRETE_TYPES : descr → option descr.

(** [_core.to_builtins(..., str_keys=True)] on an extra-schema dict. *)
Variable _to_builtins : pydict → pydict.

(** The classes of the program under inspection. *)
Variable classes : gmap cls class_info.

(** The decoder constructors of [_core], applied to [Tuple[types]]:
    [None] when a decoder is built, [Some msg] when construction raises. *)
Variable MsgpackDecoder : list descr → option string.
Variable JSONDecoder : list descr → option string.

Definition metas_of (metadata : list annotation) : list Meta.t :=
  omap (fun a => match a with AMeta m => Some m | AOther _ => None end)
       metadata.

(** The [while True] loop of [_origin_args_metadata]. *)
Fixpoint strip_wrappers (t : descr) (metadata : list Meta.t)
    : descr * list Meta.t :=
  match t with
  | DNewType supertype =>
      match supertype with
      | DObj (py_val VNone) => (t, metadata)
      | _ => strip_wrappers supertype metadata
      end
  | DAnnotated t' ms => strip_wrappers t' (metadata ++ metas_of ms)
  | _ => (t, metadata)
  end.

Definition _origin_args_metadata (t : descr)
    : descr * option (list descr) * list Meta.t :=
  let '(t, metadata) := strip_wrappers t [] in
  match t with
  | DUnionType args => (DObj py_Union, Some args, metadata)
  | _ =>
      match _CONCRETE_TYPES t with
      | Some t' => (t', None, metadata)
      | None =>
          match t with
          | DAlias origin args =>
              (default (DObj origin) (_CONCRETE_TYPES (DObj origin)),
               args, metadata)
          | _ => (t, None, metadata)
          end
      end
  end.

(** One [Field(...)] of an object-like class; [rec] is [self.translate]. *)
Definition build_field (rec : descr → M Type_) (s : field_spec)
    : M Field.t :=
  match fs_hint s with
  | None => raise KeyError
  | Some d =>
      let* ty := rec d in
      ret (Field.mk (fs_name s) (fs_encode_name s) ty (fs_required s)
             (fs_default s) (fs_default_factory s))
  end.

(** The shape shared by the four object-like arms of [_translate_inner]:
    return the cached node, or register a placeholder, resolve the
    hints, translate the fields, and assign them to the placeholder. *)
Definition translate_object (rec : descr → M Type_) (c : cls)
    (ci : class_info) (out : objnode) : M Type_ :=
  fun st =>
    match cache st !! c with
    | Some l => Ok (ObjRef l, st)
    | None =>
        (let* l := cache_new c out in
         let* hints := _get_type_hints c ci in
         let* fields := mapM (build_field rec) (field_specs ci hints) in
         let* _ := assign_fields l fields in
         ret (ObjRef l)) st
    end.

(** [self.translate(args[0]) if args else AnyType()] *)
Definition first_or_Any (rec : descr → M Type_) (args : option (list descr))
    : M Type_ :=
  match args with
  | Some (a :: _) => rec a
  | _ => ret AnyType
  end.

Definition _translate_inner (rec : descr → M Type_) (t : descr)
    (args : option (list descr)) (c : Constrs.t) : M Type_ :=
  let min_length := Constrs.min_length c in
  let max_length := Constrs.max_length c in
  match t with
  | DObj py_Any => ret AnyType
  | DObj (py_val VNone) | DObj py_NoneType => ret NoneType
  | DObj py_bool => ret BoolType
  | DObj py_int =>
      ret (IntType (Constrs.gt c) (Constrs.ge c) (Constrs.lt c)
             (Constrs.le c) (Constrs.multiple_of c))
  | DObj py_float =>
      ret (FloatType (Constrs.gt c) (Constrs.ge c) (Constrs.lt c)
             (Constrs.le c) (Constrs.multiple_of c))
  | DObj py_str => ret (StrType min_length max_length (Constrs.pattern c))
  | DObj py_bytes => ret (BytesType min_length max_length)
  | DObj py_bytearray => ret (ByteArrayType min_length max_length)
  | DObj py_datetime => ret (DateTimeType (Constrs.tz c))
  | DObj py_time => ret (TimeType (Constrs.tz c))
  | DObj py_date => ret DateType
  | DObj py_UUID => ret UUIDType
  | DObj py_Decimal => ret DecimalType
  | DObj py_Raw => ret RawType
  | DObj py_Ext => ret ExtType
  | DObj py_list =>
      let* item := first_or_Any rec args in
      ret (ListType item min_length max_length)
  | DObj py_set =>
      let* item := first_or_Any rec args in
      ret (SetType item min_length max_length)
  | DObj py_frozenset =>
      let* item := first_or_Any rec args in
      ret (FrozenSetType item min_length max_length)
  | DObj py_tuple =>
      match tuple_args args with
      | None => ret (VarTupleType AnyType min_length max_length)
      | Some args =>
          if is_variadic args then
            match args with
            | a :: _ =>
                let* item := rec a in
                ret (VarTupleType item min_length max_length)
            | [] => raise IndexError
            end
          else
            let* items := mapM rec args in
            ret (TupleType items)
      end
  | DObj py_dict =>
      match args with
      | Some (k :: rest) =>
          let* key := rec k in
          match rest with
          | v :: _ =>
              let* value := rec v in
              ret (DictType key value min_length max_length)
          | [] => raise IndexError
          end
      | _ => ret (DictType AnyType AnyType min_length max_length)
      end
  | DObj py_Union =>
      match args with
      | Some args =>
          let* types := mapM rec args in
          ret (UnionType types)
      | None => raise TypeError
      end
  | DObj py_Literal =>
      match args with
      | Some args =>
          match sorted args with
          | Ok values => ret (LiteralType values)
          | Raise e => raise e
          end
      | None => raise TypeError
      end
  | DObj (py_class cl) =>
      match classes !! cl with
      | Some CEnum => ret (EnumType t)
      | Some ci =>
          match placeholder cl ci with
          | Some out => translate_object rec cl ci out
          | None => ret (CustomType t)
          end
      | None => ret (CustomType t)
      end
  | _ => ret (CustomType t)
  end.

(** The fold of [translate] over the [Meta] annotations: the
    documentation payload. *)
Definition set_if_present (key : string) (val : option pyval) (d : pydict)
    : pydict :=
  match val with Some v => dict_set key v d | None => d end.

Definition absorb_schema (d : pydict) (meta : Meta.t) : pydict :=
  let d := set_if_present "title" (Meta.title meta) d in
  let d := set_if_present "description" (Meta.description meta) d in
  let d := set_if_present "examples" (Meta.examples meta) d in
  match Meta.extra_json_schema meta with
  | Some s => _merge_json d (VDict (_to_builtins s))
  | None => d
  end.

Definition absorb_extra (d : pydict) (meta : Meta.t) : pydict :=
  match Meta.extra meta with
  | Some e => dict_update d e
  | None => d
  end.

(** [return Metadata(out, ...)] or [return out] *)
Definition wrap_metadata (out : Type_) (extra_json_schema extra : pydict)
    : Type_ :=
  if dict_truthy extra_json_schema || dict_truthy extra
  then Metadata out (dict_or_None extra_json_schema) (dict_or_None extra)
  else out.

Definition translate_body (rec : descr → M Type_) (typ : descr) : M Type_ :=
  let '(t, args, metadata) := _origin_args_metadata typ in
  let constrs := fold_left Constrs.absorb metadata Constrs.empty in
  let extra_json_schema := fold_left absorb_schema metadata [] in
  let extra := fold_left absorb_extra metadata [] in
  let* out := _translate_inner rec t args constrs in
  ret (wrap_metadata out extra_json_schema extra).

(** [_Translator.translate], with a budget on the nesting of calls. *)
Fixpoint translate (fuel : nat) (typ : descr) : M Type_ :=
  match fuel with
  | O => raise OutOfFuel
  | S fuel' => translate_body (translate fuel') typ
  end.

(** The choice of decoder class at the head of [run]. *)
Definition select_decoder (protocol : pyval)
    : result (list descr → option string) :=
  match protocol with
  | VNone => Ok MsgpackDecoder
  | VStr s =>
      if String.eqb s "msgpack" then Ok MsgpackDecoder
      else if String.eqb s "json" then Ok JSONDecoder
      else Raise (ValueError "protocol must be one of None, 'msgpack', 'json'")
  | _ => Raise (ValueError "protocol must be one of None, 'msgpack', 'json'")
  end.

(** [_Translator(types, protocol).run()]: the tuple of nodes, and the
    heap they point into. *)
Definition run (fuel : nat) (types : list descr) (protocol : pyval)
    : result (list Type_ * state) :=
  match select_decoder protocol with
  | Raise e => Raise e
  | Ok Decoder =>
      match Decoder types with
      | Some msg => Raise (DecoderError msg)
      | None => mapM (translate fuel) types init_state
      end
  end.

Definition multi_type_info (fuel : nat) (types : list descr)
    (protocol : pyval) : result (list Type_ * state) :=
  run fuel types protocol.

(** [multi_type_info([type], protocol=protocol)[0]] *)
Definition type_info (fuel : nat) (type : descr) (protocol : pyval)
    : result (Type_ * state) :=
  match multi_type_info fuel [type] protocol with
  | Ok (nodes, st) =>
      match nodes with
      | node :: _ => Ok (node, st)
      | [] => Raise IndexError
      end
  | Raise e => Raise e
  end.

End Translator.

(** ** Notions used to state the properties *)

(** A computation that does not touch the state. *)
Definition lift {A} (r : result A) : M A :=
  fun st => match r with Ok a => Ok (a, st) | Raise e => Raise e end.

Definition result_map {A B} (f : A → B) (r : result A) : result B :=
  match r with Ok a => Ok (f a) | Raise e => Raise e end.

(** Renaming of heap locations in an IR tree: two runs allocate the node
    of a class at different locations, and their results are the same IR
    when one is the other up to such a renaming. *)
Fixpoint rename (ρ : loc → loc) (t : Type_) : Type_ :=
  match t with
  | Metadata ty a b => Metadata (rename ρ ty) a b
  | UnionType ts => UnionType (map (rename ρ) ts)
  | ListType i a b => ListType (rename ρ i) a b
  | SetType i a b => SetType (rename ρ i) a b
  | FrozenSetType i a b => FrozenSetType (rename ρ i) a b
  | VarTupleType i a b => VarTupleType (rename ρ i) a b
  | TupleType ts => TupleType (map (rename ρ) ts)
  | DictType k v a b => DictType (rename ρ k) (rename ρ v) a b
  | ObjRef l => ObjRef (ρ l)
  | _ => t
  end.

Definition rename_field (ρ : loc → loc) (f : Field.t) : Field.t :=
  Field.mk (Field.name f) (Field.encode_name f) (rename ρ (Field.type f))
    (Field.required f) (Field.default f) (Field.default_factory f).

Definition rename_obj (ρ : loc → loc) (o : objnode) : objnode :=
  set_fields (map (rename_field ρ) (obj_fields o)) o.

(** The constraints an origin marker consumes, by the dispatch rules of
    the specification: numeric bounds for [int] and [float], length and
    pattern for [str], length for [bytes], [bytearray] and the containers,
    the timezone flag for [datetime] and [time], nothing otherwise. *)
Definition consumed (t : descr) (c : Constrs.t) : Constrs.t :=
  match t with
  | DObj py_int | DObj py_float =>
      Constrs.mk (Constrs.ge c) (Constrs.gt c) (Constrs.le c) (Constrs.lt c)
        (Constrs.multiple_of c) None None None None
  | DObj py_str =>
      Constrs.mk None None None None None (Constrs.pattern c)
        (Constrs.min_length c) (Constrs.max_length c) None
  | DObj py_bytes | DObj py_bytearray | DObj py_list | DObj py_set
  | DObj py_frozenset | DObj py_tuple | DObj py_dict =>
      Constrs.mk None None None None None None
        (Constrs.min_length c) (Constrs.max_length c) None
  | DObj py_datetime | DObj py_time =>
      Constrs.mk None None None None None None None None (Constrs.tz c)
  | _ => Constrs.empty
  end.

(** The scalar arms of the dispatch, and the node each yields when no
    constraint is given. *)
Definition unconstrained_scalar (t : descr) : option Type_ :=
  match t with
  | DObj py_Any => Some AnyType
  | DObj (py_val VNone) | DObj py_NoneType => Some NoneType
  | DObj py_bool => Some BoolType
  | DObj py_int => Some (IntType None None None None None)
  | DObj py_float => Some (FloatType None None None None None)
  | DObj py_str => Some (StrType None None None)
  | DObj py_bytes => Some (BytesType None None)
  | DObj py_bytearray => Some (ByteArrayType None None)
  | DObj py_datetime => Some (DateTimeType None)
  | DObj py_time => Some (TimeType None)
  | DObj py_date => Some DateType
  | DObj py_UUID => Some UUIDType
  | DObj py_Decimal => Some DecimalType
  | DObj py_Raw => Some RawType
  | DObj py_Ext => Some ExtType
  | _ => None
  end.



(** The value stored at a key on which two extra-schema payloads collide. *)
Definition merged_value (a_val b_val : pyval) : pyval :=
  match a_val, b_val with
  | VDict a_sub, VDict _ => VDict (_merge_json a_sub b_val)
  | _, _ =>
      match as_sequence a_val, as_sequence b_val with
      | Some la, Some lb => VList (la ++ lb)
      | _, _ => b_val
      end
  end.

(** One round of the loop of [_merge_json]. *)
Definition merge_step (a : pydict) (item : string * pyval) : pydict :=
  match dict_get item.1 a with
  | Some a_val => dict_set item.1 (merged_value a_val item.2) a
  | None => dict_set item.1 item.2 a
  end.

(** What an annotation assigns under [key] before its extra-schema dict is
    merged: [extra_json_schema[attr] = val] for the attributes [title],
    [description] and [examples] that are set. *)
Definition assigned_attr (key : string) (m : Meta.t) : option pyval :=
  if String.eqb "examples" key then Meta.examples m
  else if String.eqb "description" key then Meta.description m
  else if String.eqb "title" key then Meta.title m
  else None.

(** The value under [key] of the accumulated extra-schema payload after
    one more annotation, from the value [acc] it had before: an assigned
    attribute replaces it, and the entry of the annotation's extra-schema
    dict, if any, is merged into the result. *)
Definition schema_step (_to_builtins : pydict → pydict) (key : string)
    (acc : option pyval) (m : Meta.t) : option pyval :=
  let base :=
    match assigned_attr key m with Some v => Some v | None => acc end in
  match Meta.extra_json_schema m with
  | None => base
  | Some s =>
      match dict_get key (_to_builtins s) with
      | Some b_val =>
          Some (match base with
                | Some a_val => merged_value a_val b_val
                | None => b_val
                end)
      | None => base
      end
  end.

(** The reading of the specification: every annotation contributes one
    documentation payload, made of its [title], [description] and
    [examples] attributes and of its extra-schema dict, and the payloads
    are deep-merged in order. *)
Definition spec_documentation_payload (_to_builtins : pydict → pydict)
    (m : Meta.t) : pydict :=
  _merge_json
    (set_if_present "examples" (Meta.examples m)
       (set_if_present "description" (Meta.description m)
          (set_if_present "title" (Meta.title m) [])))
    (VDict (match Meta.extra_json_schema m with
            | Some s => _to_builtins s
            | None => []
            end)).

Definition spec_deep_merged (payloads : list pydict) : pydict :=
  fold_left (fun acc p => _merge_json acc (VDict p)) payloads [].

(** ** A small program under inspection, for the examples *)

Module Demo.

(** A table with the entries every version of the library has: the
    [typing] spellings of the containers. *)
Definition typing_List : descr := DObj (py_other 100).
Definition typing_Dict : descr := DObj (py_other 101).

Definition concrete_types (t : descr) : option descr :=
  match t with
  | DObj py_list | DObj (py_other 100) => Some (DObj py_list)
  | DObj py_dict | DObj (py_other 101) => Some (DObj py_dict)
  | DObj py_tuple => Some (DObj py_tuple)
  | DObj py_set => Some (DObj py_set)
  | DObj py_frozenset => Some (DObj py_frozenset)
  | _ => None
  end.

Definition to_builtins (d : pydict) : pydict := d.

(** [class Node(Struct): value: int; next: Optional[Node] = None;
    tags: list[str] = []] *)
Definition Node : cls := 0%nat.
Definition Node_class : struct_class := {|
  __struct_fields__ := ["value"; "next"; "tags"];
  __struct_encode_fields__ := ["value"; "next"; "tags"];
  __struct_defaults__ := [DefaultValue VNone; _Factory (VObj 7)];
  __struct_tag_field__ := VNone;
  __struct_tag__ := VNone;
  struct_array_like := false;
  struct_forbid_unknown_fields := false;
  struct_hints :=
    {[ "value" := DObj py_int;
       "next" := DAlias py_Union
                   (Some [DObj (py_class Node); DObj py_NoneType]);
       "tags" := DAlias py_list (Some [DObj py_str]) ]}
|}.

(** [class Loop(Struct): me: Loop] *)
Definition Loop : cls := 1%nat.
Definition Loop_class : struct_class := {|
  __struct_fields__ := ["me"];
  __struct_encode_fields__ := ["me"];
  __struct_defaults__ := [];
  __struct_tag_field__ := VNone;
  __struct_tag__ := VNone;
  struct_array_like := false;
  struct_forbid_unknown_fields := false;
  struct_hints := {[ "me" := DObj (py_class Loop) ]}
|}.

(** [class Titled(TypedDict): title: str] and
    [class Movie(Titled, total=False): year: int]: the inherited key is
    required, the own key is not. *)
Definition Movie : cls := 2%nat.
Definition Movie_class : typeddict_class := {|
  __required_keys__ := Some ["title"];
  __total__ := false;
  typeddict_hints := {[ "year" := DObj py_int; "title" := DObj py_str ]}
|}.

Definition classes : gmap cls class_info :=
  {[ Node := CStruct Node_class;
     Loop := CStruct Loop_class;
     Movie := CTypedDict Movie_class ]}.

(** Two example decoder constructors for the runs below (the real ones
    are in [_core], and decide differently): a msgpack decoder that
    accepts every type, and a JSON decoder that refuses a [dict] whose
    key type is [bytes]. *)
Definition MsgpackDecoder (types : list descr) : option string := None.

Definition bytes_keyed (t : descr) : bool :=
  match t with
  | DAlias py_dict (Some (DObj py_bytes :: _)) => true
  | _ => false
  end.

Definition JSONDecoder (types : list descr) : option string :=
  if existsb bytes_keyed types
  then Some "JSON doesn't support dicts with key type bytes"
  else None.

Abbreviation translate := (translate concrete_types to_builtins classes).
Abbreviation multi_type_info :=
  (multi_type_info concrete_types to_builtins classes
     MsgpackDecoder JSONDecoder).
Abbreviation type_info :=
  (type_info concrete_types to_builtins classes MsgpackDecoder JSONDecoder).

Definition title_meta (s : string) : Meta.t :=
  Meta.mk None None None None None None None None None
    (Some (VStr s)) None None None None.

Definition ge_meta (z : Z) : Meta.t :=
  Meta.mk None (Some (VInt z)) None None None None None None None
    None None None None None.

Definition schema_meta (s : pydict) : Meta.t :=
  Meta.mk None None None None None None None None None
    None None None (Some s) None.

(** [Annotated[int, Meta(extra_json_schema={...}),
                    Meta(extra_json_schema={...})]] *)
Definition two_schemas_metadata : list Meta.t :=
  [schema_meta [("examples", VList [VInt 1]); ("unit", VStr "m");
                ("props", VDict [("x", VInt 1)])];
   schema_meta [("examples", VList [VInt 2]); ("unit", VStr "km");
                ("props", VDict [("y", VInt 2)])]].

Definition two_schemas : descr :=
  DAnnotated (DObj py_int) (AMeta <$> two_schemas_metadata).

(** [dict[bytes, int]] *)
Definition bytes_dict : descr :=
  DAlias py_dict (Some [DObj py_bytes; DObj py_int]).

(** [Union[int, Annotated[None, Meta(title="nothing")]]] *)
Definition annotated_optional : descr :=
  DAlias py_Union
    (Some [DObj py_int;
           DAnnotated (DObj py_NoneType) [AMeta (title_meta "nothing")]]).

Definition examples_meta (vs : list Z) : Meta.t :=
  Meta.mk None None None None None None None None None
    None None (Some (VList (VInt <$> vs))) None None.

(** [Annotated[int, Meta(examples=[1]), Meta(examples=[2])]] *)
Definition two_examples_metadata : list Meta.t :=
  [examples_meta [1]; examples_meta [2]].

Definition two_examples : descr :=
  DAnnotated (DObj py_int) (AMeta <$> two_examples_metadata).

(** [Annotated[int, Meta(title="n", extra_json_schema={"unit": "m",
    "examples": [1]}), Meta(ge=0), Meta(examples=[2],
    extra_json_schema={"examples": [3]})]] *)
Definition mixed_metadata : list Meta.t :=
  [Meta.mk None None None None None None None None None
     (Some (VStr "n")) None None
     (Some [("unit", VStr "m"); ("examples", VList [VInt 1])]) None;
   ge_meta 0;
   Meta.mk None None None None None None None None None
     None None (Some (VList [VInt 2]))
     (Some [("examples", VList [VInt 3])]) None].

Definition mixed : descr := DAnnotated (DObj py_int) (AMeta <$> mixed_metadata).

(** [Annotated[str, Meta(ge=0)]] *)
Definition bounded_str : descr := DAnnotated (DObj py_str) [AMeta (ge_meta 0)].

(** [Annotated[int, Meta(ge=0)]] *)
Definition bounded_int : descr := DAnnotated (DObj py_int) [AMeta (ge_meta 0)].

(** The state in which a run ends. *)
Definition final_state {A} (r : result (A * state)) : state :=
  match r with Ok (_, st) => st | Raise _ => init_state end.

Definition Node_run : state :=
  Eval vm_compute in
    final_state (multi_type_info 5 [DObj (py_class Node)] VNone).

Definition Movie_run : state :=
  Eval vm_compute in
    final_state (multi_type_info 5 [DObj (py_class Movie)] VNone).

Definition Loop_run : state :=
  Eval vm_compute in
    final_state (multi_type_info 5 [DObj (py_class Loop)] VNone).

(** [multi_type_info([list[Loop], Node])] *)
Definition batch : list descr :=
  [DAlias py_list (Some [DObj (py_class Loop)]); DObj (py_class Node)].

Definition batch_run : state :=
  Eval vm_compute in final_state (multi_type_info 5 batch VNone).

End Demo.

(** ** The dispatch, seen as children and assembly

    Every arm of [_translate_inner] other than the four object-like ones
    translates some of the arguments, in order, and then builds its node
    from the translated arguments without looking at the state.  The two
    functions below name the arguments an arm translates and the node it
    builds; [_translate_inner_view] proves that this is what the
    dispatch does. *)

Definition children (t : descr) (args : option (list descr)) : list descr :=
  match t with
  | DObj py_list | DObj py_set | DObj py_frozenset =>
      match args with Some (a :: _) => [a] | _ => [] end
  | DObj py_tuple =>
      match tuple_args args with
      | None => []
      | Some args => if is_variadic args then take 1 args else args
      end
  | DObj py_dict =>
      match args with
      | Some (k :: v :: _) => [k; v]
      | Some [k] => [k]
      | _ => []
      end
  | DObj py_Union => default [] args
  | _ => []
  end.

Definition assemble (classes : gmap cls class_info) (t : descr)
    (args : option (list descr)) (c : Constrs.t) (items : list Type_)
    : result Type_ :=
  let min_length := Constrs.min_length c in
  let max_length := Constrs.max_length c in
  match t with
  | DObj py_Any => Ok AnyType
  | DObj (py_val VNone) | DObj py_NoneType => Ok NoneType
  | DObj py_bool => Ok BoolType
  | DObj py_int =>
      Ok (IntType (Constrs.gt c) (Constrs.ge c) (Constrs.lt c)
            (Constrs.le c) (Constrs.multiple_of c))
  | DObj py_float =>
      Ok (FloatType (Constrs.gt c) (Constrs.ge c) (Constrs.lt c)
            (Constrs.le c) (Constrs.multiple_of c))
  | DObj py_str => Ok (StrType min_length max_length (Constrs.pattern c))
  | DObj py_bytes => Ok (BytesType min_length max_length)
  | DObj py_bytearray => Ok (ByteArrayType min_length max_length)
  | DObj py_datetime => Ok (DateTimeType (Constrs.tz c))
  | DObj py_time => Ok (TimeType (Constrs.tz c))
  | DObj py_date => Ok DateType
  | DObj py_UUID => Ok UUIDType
  | DObj py_Decimal => Ok DecimalType
  | DObj py_Raw => Ok RawType
  | DObj py_Ext => Ok ExtType
  | DObj py_list => Ok (ListType (hd AnyType items) min_length max_length)
  | DObj py_set => Ok (SetType (hd AnyType items) min_length max_length)
  | DObj py_frozenset =>
      Ok (FrozenSetType (hd AnyType items) min_length max_length)
  | DObj py_tuple =>
      match tuple_args args with
      | None => Ok (VarTupleType AnyType min_length max_length)
      | Some args =>
          if is_variadic args
          then Ok (VarTupleType (hd AnyType items) min_length max_length)
          else Ok (TupleType items)
      end
  | DObj py_dict =>
      match args with
      | Some (k :: v :: _) =>
          Ok (DictType (hd AnyType items) (hd AnyType (tl items))
                min_length max_length)
      | Some [k] => Raise IndexError
      | _ => Ok (DictType AnyType AnyType min_length max_length)
      end
  | DObj py_Union =>
      match args with
      | Some _ => Ok (UnionType items)
      | None => Raise TypeError
      end
  | DObj py_Literal =>
      match args with
      | Some args => result_map LiteralType (sorted args)
      | None => Raise TypeError
      end
  | DObj (py_class cl) =>
      match classes !! cl with
      | Some CEnum => Ok (EnumType t)
      | _ => Ok (CustomType t)
      end
  | _ => Ok (CustomType t)
  end.

(** The class, its description and its placeholder when [t] is
    object-like. *)
Definition object_parts (classes : gmap cls class_info) (t : descr)
    : option (cls * class_info * objnode) :=
  match t with
  | DObj (py_class cl) =>
      match classes !! cl with
      | Some ci =>
          match placeholder cl ci with
          | Some out => Some (cl, ci, out)
          | None => None
          end
      | None => None
      end
  | _ => None
  end.

Fixpoint descr_size (d : descr) : nat :=
  match d with
  | DObj _ => 1
  | DAlias _ args =>
      S (match args with
         | Some l => foldr (fun a n => descr_size a + n)%nat 0%nat l
         | None => 0
         end)
  | DUnionType args => S (foldr (fun a n => descr_size a + n)%nat 0%nat args)
  | DAnnotated t _ => S (descr_size t)
  | DNewType t => S (descr_size t)
  end.

(** ** Invariants of a run *)

(** The state only grows: memo and cache gain entries, the heap gains
    nodes at its end. *)
Definition ext (st st' : state) : Prop :=
  type_hints st ⊆ type_hints st'
  ∧ cache st ⊆ cache st'
  ∧ heap st `prefix_of` heap st'.

(** The memo holds what [get_type_hints] returns. *)
Definition hints_ok (classes : gmap cls class_info) (st : state) : Prop :=
  ∀ c h ci, type_hints st !! c = Some h → classes !! c = Some ci →
            h = get_type_hints ci.

(** The cache and the heap describe each other: the node cached for a
    class is a node of that class, and every node of the heap is the one
    cached for its class. *)
Definition wf (classes : gmap cls class_info) (st : state) : Prop :=
  hints_ok classes st
  ∧ (∀ c l, cache st !! c = Some l →
            ∃ o, heap st !! l = Some o ∧ obj_cls o = c)
  ∧ (∀ l o, heap st !! l = Some o → cache st !! obj_cls o = Some l).

(** A computation only lets the state grow. *)
Definition Ext {A} (m : M A) : Prop :=
  ∀ st a st', m st = Ok (a, st') → ext st st'.

(** A computation that has returned returns the same value, and changes
    nothing, when run again in any state that knows at least the classes
    cached when it returned. *)
Definition Replay {A} (m : M A) : Prop :=
  ∀ st a st', m st = Ok (a, st') →
    ∀ st'', cache st' ⊆ cache st'' → m st'' = Ok (a, st'').

(** The node [o] of class [c] holds the fields of [c]: translating the
    declared field types in state [st] returns the fields of [o] and
    leaves [st] as it is. *)
Definition complete (_CONCRETE_TYPES : descr → option descr)
    (_to_builtins : pydict → pydict) (classes : gmap cls class_info)
    (st : state) (c : cls) (o : objnode) : Prop :=
  ∃ ci out fuel fields,
    classes !! c = Some ci
    ∧ placeholder c ci = Some out
    ∧ o = set_fields fields out
    ∧ mapM (build_field (translate _CONCRETE_TYPES _to_builtins classes fuel))
        (field_specs ci (get_type_hints ci)) st = Ok (fields, st).

(** The invariant of a run: the state is well formed, and every cached
    class is either in progress (in [P]: its node is still being filled
    by a call further up) or complete. *)
Definition Inv (_CONCRETE_TYPES : descr → option descr)
    (_to_builtins : pydict → pydict) (classes : gmap cls class_info)
    (P : gset cls) (st : state) : Prop :=
  wf classes st
  ∧ ∀ c l, cache st !! c = Some l →
      c ∈ P ∨ ∃ o, heap st !! l = Some o
                 ∧ complete _CONCRETE_TYPES _to_builtins classes st c o.

Definition Keeps (_CONCRETE_TYPES : descr → option descr)
    (_to_builtins : pydict → pydict) (classes : gmap cls class_info)
    {A} (m : M A) : Prop :=
  ∀ P st a st', m st = Ok (a, st') →
    Inv _CONCRETE_TYPES _to_builtins classes P st →
    Inv _CONCRETE_TYPES _to_builtins classes P st'.

(** The classes of the program that a run has not cached yet: what is
    left to do, at most. *)
Definition uncached (classes : gmap cls class_info) (st : state) : nat :=
  size (dom classes ∖ dom (cache st)).

(** [ρ] sends the node a class has in [st1] to the node it has in [st2]. *)
Definition agree (ρ : loc → loc) (st1 st2 : state) : Prop :=
  ∀ c l1 l2, cache st1 !! c = Some l1 → cache st2 !! c = Some l2 → ρ l1 = l2.

Definition is_Ok {A} (r : result A) : Prop :=
  match r with Ok _ => True | Raise _ => False end.

(** The renaming from the nodes of one finished run to the nodes of
    another: a node goes to the node the other run cached for its class. *)
Definition class_renaming (st1 st2 : state) (l : loc) : loc :=
  match heap st1 !! l with
  | Some o => default 0%nat (cache st2 !! obj_cls o)
  | None => 0%nat
  end.

(** ** More notions and a second example program *)

Definition is_Metadata (t : Type_) : bool :=
  match t with Metadata _ _ _ => true | _ => false end.

(** Every heap reference in the tree is below [k]. *)
Fixpoint refs_below (k : nat) (t : Type_) : Prop :=
  match t with
  | Metadata ty _ _ => refs_below k ty
  | UnionType ts | TupleType ts =>
      (fix all (ts : list Type_) : Prop :=
         match ts with
         | [] => True
         | t :: ts => refs_below k t ∧ all ts
         end) ts
  | ListType i _ _ | SetType i _ _ | FrozenSetType i _ _
  | VarTupleType i _ _ => refs_below k i
  | DictType key value _ _ => refs_below k key ∧ refs_below k value
  | ObjRef l => (l < k)%nat
  | _ => True
  end.

Module Demo2.

(** [@dataclass class Point: x: int; y: int = 0;
    tags: list = field(default_factory=list)] *)
Definition Point : cls := 0%nat.
Definition Point_class : dataclass_class := {|
  dataclass_fields :=
    [ {| dc_name := "x"; dc_default := None; dc_default_factory := None |};
      {| dc_name := "y"; dc_default := Some (VInt 0);
         dc_default_factory := None |};
      {| dc_name := "tags"; dc_default := None;
         dc_default_factory := Some (VObj 3) |} ];
  dataclass_hints :=
    {[ "x" := DObj py_int; "y" := DObj py_int; "tags" := DObj py_list ]}
|}.

(** [Pair = namedtuple("Pair", ["a", "b"], defaults=[1])], with only
    [a] annotated. *)
Definition Pair : cls := 1%nat.
Definition Pair_class : namedtuple_class := {|
  _fields := ["a"; "b"];
  _field_defaults := [("b", VInt 1)];
  namedtuple_hints := {[ "a" := DObj py_str ]}
|}.

(** A struct class whose field [x] has no resolved type. *)
Definition Broken : cls := 2%nat.
Definition Broken_class : struct_class := {|
  __struct_fields__ := ["x"];
  __struct_encode_fields__ := ["x"];
  __struct_defaults__ := [];
  __struct_tag_field__ := VNone;
  __struct_tag__ := VNone;
  struct_array_like := false;
  struct_forbid_unknown_fields := false;
  struct_hints := ∅
|}.

Definition classes : gmap cls class_info :=
  {[ Point := CDataclass Point_class;
     Pair := CNamedTuple Pair_class;
     Broken := CStruct Broken_class ]}.

Abbreviation translate :=
  (translate Demo.concrete_types Demo.to_builtins classes).
Abbreviation multi_type_info :=
  (multi_type_info Demo.concrete_types Demo.to_builtins classes
     Demo.MsgpackDecoder Demo.JSONDecoder).

Definition Point_run : state :=
  Eval vm_compute in
    Demo.final_state (multi_type_info 5 [DObj (py_class Point)] VNone).

Definition Pair_run : state :=
  Eval vm_compute in
    Demo.final_state (multi_type_info 5 [DObj (py_class Pair)] VNone).

(** [multi_type_info([Point, list[Point], Point])] *)
Definition repeated : list descr :=
  [DObj (py_class Point); DAlias py_list (Some [DObj (py_class Point)]);
   DObj (py_class Point)].

Definition repeated_run : state :=
  Eval vm_compute in Demo.final_state (multi_type_info 5 repeated VNone).

End Demo2.

(** [t is None or t is type(None)] *)
Definition is_none_descr (t : descr) : bool :=
  match t with
  | DObj (py_val VNone) | DObj py_NoneType => true
  | _ => false
  end.

(** [typ] normalises to [None] or to [NoneType] and its annotations
    carry no payload. *)
Definition plain_none (_CONCRETE_TYPES : descr → option descr)
    (_to_builtins : pydict → pydict) (typ : descr) : Prop :=
  is_none_descr (_origin_args_metadata _CONCRETE_TYPES typ).1.1 = true
  ∧ fold_left (absorb_schema _to_builtins)
      (_origin_args_metadata _CONCRETE_TYPES typ).2 [] = []
  ∧ fold_left absorb_extra (_origin_args_metadata _CONCRETE_TYPES typ).2 []
    = [].


(** * Properties *)

(** ** The monad *)

(** [m2] does what [m1] does wherever [m1] does not run out of budget. *)
Definition le_M {A} (m1 m2 : M A) : Prop :=
  ∀ st, m1 st ≠ Raise OutOfFuel → m2 st = m1 st.

Lemma le_M_refl {A} (m : M A) : le_M m m.
Proof. by intros st _. Qed.

Lemma le_M_bind {A B} (m1 m2 : M A) (k1 k2 : A → M B) :
  le_M m1 m2 → (∀ a, le_M (k1 a) (k2 a)) →
  le_M (bind m1 k1) (bind m2 k2).
Proof.
  intros Hm Hk st. unfold bind. intros Hne.
  rewrite Hm; [|intros E; by rewrite E in Hne].
  destruct (m1 st) as [[a st']|e]; [|done]. by apply Hk.
Qed.

Lemma le_M_mapM {A B} (f1 f2 : A → M B) (l : list A) :
  (∀ a, le_M (f1 a) (f2 a)) → le_M (mapM f1 l) (mapM f2 l).
Proof.
  intros Hf. induction l as [|a l IH]; simpl; [apply le_M_refl|].
  apply le_M_bind; [done|]. intros b.
  apply le_M_bind; [done|]. intros bs. apply le_M_refl.
Qed.

Lemma bind_Ok {A B} (m : M A) (k : A → M B) st b st' :
  bind m k st = Ok (b, st') ↔
  ∃ a st1, m st = Ok (a, st1) ∧ k a st1 = Ok (b, st').
Proof.
  unfold bind. split.
  - destruct (m st) as [[a st1]|e]; [eauto|done].
  - by intros (a & st1 & -> & ?).
Qed.

Lemma mapM_Ok_length {A B} (f : A → M B) l st bs st' :
  mapM f l st = Ok (bs, st') → length bs = length l.
Proof.
  revert st bs. induction l as [|a l IH]; intros st bs; simpl.
  - unfold ret. by intros [= <- _].
  - intros (b & st1 & _ & (bs' & st2 & H2 & H3)%bind_Ok)%bind_Ok.
    unfold ret in H3. injection H3 as <- <-. simpl. f_equal. eauto.
Qed.

Lemma mapM_app {A B} (f : A → M B) l1 l2 st :
  mapM f (l1 ++ l2) st =
  (let* bs1 := mapM f l1 in let* bs2 := mapM f l2 in ret (bs1 ++ bs2)) st.
Proof.
  revert st. induction l1 as [|a l1 IH]; intros st; simpl.
  - unfold bind, ret. simpl. by destruct (mapM f l2 st) as [[??]|?].
  - unfold bind, ret in *. destruct (f a st) as [[b st1]|e]; [|done].
    rewrite IH. destruct (mapM f l1 st1) as [[bs1 st2]|e]; [|done].
    by destruct (mapM f l2 st2) as [[??]|?].
Qed.

Section Properties.

Context (_CONCRETE_TYPES : descr → option descr)
        (_to_builtins : pydict → pydict)
        (classes : gmap cls class_info)
        (MsgpackDecoder JSONDecoder : list descr → option string).

Local Abbreviation translate := (translate _CONCRETE_TYPES _to_builtins classes).
Local Abbreviation translate_body :=
  (translate_body _CONCRETE_TYPES _to_builtins classes).
Local Abbreviation _translate_inner := (_translate_inner classes).
Local Abbreviation _origin_args_metadata :=
  (_origin_args_metadata _CONCRETE_TYPES).
Local Abbreviation run :=
  (run _CONCRETE_TYPES _to_builtins classes MsgpackDecoder JSONDecoder).
Local Abbreviation multi_type_info :=
  (multi_type_info _CONCRETE_TYPES _to_builtins classes
     MsgpackDecoder JSONDecoder).
Local Abbreviation type_info :=
  (type_info _CONCRETE_TYPES _to_builtins classes
     MsgpackDecoder JSONDecoder).
Local Abbreviation select_decoder := (select_decoder MsgpackDecoder JSONDecoder).

(** *** A larger budget changes nothing once the budget suffices *)

Lemma le_M_build_field rec1 rec2 s :
  (∀ d, le_M (rec1 d) (rec2 d)) →
  le_M (build_field rec1 s) (build_field rec2 s).
Proof.
  intros Hrec. unfold build_field. destruct (fs_hint s); [|apply le_M_refl].
  apply le_M_bind; [done|]. intros; apply le_M_refl.
Qed.

Lemma le_M_translate_object rec1 rec2 c ci out :
  (∀ d, le_M (rec1 d) (rec2 d)) →
  le_M (translate_object rec1 c ci out) (translate_object rec2 c ci out).
Proof.
  intros Hrec st. unfold translate_object.
  destruct (cache st !! c); [done|].
  apply le_M_bind; [apply le_M_refl|]. intros l.
  apply le_M_bind; [apply le_M_refl|]. intros hints.
  apply le_M_bind; [|intros; apply le_M_refl].
  apply le_M_mapM. intros s. by apply le_M_build_field.
Qed.

Lemma le_M__translate_inner rec1 rec2 t args c :
  (∀ d, le_M (rec1 d) (rec2 d)) →
  le_M (_translate_inner rec1 t args c) (_translate_inner rec2 t args c).
Proof.
  intros Hrec.
  assert (le_M (first_or_Any rec1 args) (first_or_Any rec2 args)) as Hfirst.
  { destruct args as [[|a ?]|]; simpl; first [apply le_M_refl|apply Hrec]. }
  destruct t as [o| | | |]; try apply le_M_refl.
  destruct o as [| | | | | | | | | | | | | | | | | | | | | |cl| |v];
    try apply le_M_refl; simpl.
  - apply le_M_bind; [done|intros; apply le_M_refl].
  - apply le_M_bind; [done|intros; apply le_M_refl].
  - apply le_M_bind; [done|intros; apply le_M_refl].
  - destruct (tuple_args args) as [l|]; [|apply le_M_refl].
    destruct (is_variadic l).
    + destruct l as [|a ?]; [apply le_M_refl|].
      apply le_M_bind; [done|intros; apply le_M_refl].
    + apply le_M_bind; [by apply le_M_mapM|intros; apply le_M_refl].
  - destruct args as [[|k rest]|]; try apply le_M_refl.
    apply le_M_bind; [done|intros key].
    destruct rest; [apply le_M_refl|].
    apply le_M_bind; [done|intros; apply le_M_refl].
  - destruct args as [l|]; [|apply le_M_refl].
    apply le_M_bind; [by apply le_M_mapM|intros; apply le_M_refl].
  - destruct (classes !! cl) as [ci|]; [|apply le_M_refl].
    destruct ci; simpl; first [apply le_M_refl
                              |by apply le_M_translate_object].
Qed.

Lemma le_M_translate_body rec1 rec2 typ :
  (∀ d, le_M (rec1 d) (rec2 d)) →
  le_M (translate_body rec1 typ) (translate_body rec2 typ).
Proof.
  intros Hrec. unfold translate_body.
  destruct (_origin_args_metadata typ) as [[t args] metadata].
  apply le_M_bind; [by apply le_M__translate_inner|].
  intros; apply le_M_refl.
Qed.

Lemma translate_S fuel typ :
  le_M (translate fuel typ) (translate (S fuel) typ).
Proof.
  revert typ. induction fuel as [|fuel IH]; intros typ.
  - intros st. by simpl.
  - change (le_M (translate_body (translate fuel) typ)
                 (translate_body (translate (S fuel)) typ)).
    by apply le_M_translate_body.
Qed.

Lemma translate_fuel_mono fuel fuel' typ :
  (fuel ≤ fuel')%nat → le_M (translate fuel typ) (translate fuel' typ).
Proof.
  induction 1 as [|fuel' _ IH]; [apply le_M_refl|].
  intros st Hne. rewrite <- (IH st Hne).
  apply translate_S. by rewrite (IH st Hne).
Qed.

Lemma translate_fuel_mono_Ok fuel fuel' typ st n st' :
  (fuel ≤ fuel')%nat →
  translate fuel typ st = Ok (n, st') → translate fuel' typ st = Ok (n, st').
Proof.
  intros Hle H. rewrite <- H. apply translate_fuel_mono; [done|].
  by rewrite H.
Qed.

(** *** The compatibility gate *)

Lemma run_gate_fails fuel types protocol Decoder msg :
  select_decoder protocol = Ok Decoder → Decoder types = Some msg →
  run fuel types protocol = Raise (DecoderError msg).
Proof. unfold run. by intros -> ->. Qed.

Lemma run_gate_passes fuel types protocol Decoder :
  select_decoder protocol = Ok Decoder → Decoder types = None →
  run fuel types protocol = mapM (translate fuel) types init_state.
Proof. unfold run. by intros -> ->. Qed.

(** C2: the gate is one decoder construction for the whole batch, made
    before anything is translated.  When it fails, the call raises the
    decoder's error whatever the translation budget (none of the roots
    is translated, not even with budget zero) and returns no node; when
    it passes, the result is the translation of the roots. *)
Theorem gate_is_all_or_nothing fuel types protocol Decoder :
  select_decoder protocol = Ok Decoder →
  (∀ msg, Decoder types = Some msg →
     multi_type_info fuel types protocol = Raise (DecoderError msg)
     ∧ multi_type_info 0 types protocol = Raise (DecoderError msg)
     ∧ ∀ nodes st, multi_type_info fuel types protocol ≠ Ok (nodes, st))
  ∧ (Decoder types = None →
     multi_type_info fuel types protocol
     = mapM (translate fuel) types init_state).
Proof.
  intros Hsel. split.
  - intros msg Hd. unfold multi_type_info.
    rewrite (run_gate_fails fuel types protocol Decoder msg Hsel Hd).
    rewrite (run_gate_fails 0 types protocol Decoder msg Hsel Hd).
    by repeat split.
  - intros Hd. by apply (run_gate_passes fuel types protocol Decoder).
Qed.

(** C10: the selector [None] and the selector ["msgpack"] pick the same
    decoder constructor, so both entry points behave the same under
    them on every input. *)
Theorem generic_selector_is_msgpack fuel types type :
  select_decoder VNone = select_decoder (VStr "msgpack")
  ∧ multi_type_info fuel types VNone
    = multi_type_info fuel types (VStr "msgpack")
  ∧ type_info fuel type VNone = type_info fuel type (VStr "msgpack").
Proof. by repeat split. Qed.

(** *** Constraints and the dispatch *)

Lemma _translate_inner_consumed rec t args c st :
  _translate_inner rec t args c st
  = _translate_inner rec t args (consumed t c) st.
Proof.
  destruct t as [o| | | |]; try done.
  destruct o; try done.
Qed.

Lemma _translate_inner_scalar rec t args c n st :
  unconstrained_scalar t = Some n →
  ∃ n', _translate_inner rec t args c st = Ok (n', st)
        ∧ _translate_inner rec t args Constrs.empty st = Ok (n, st).
Proof.
  destruct t as [o| | | |]; try done.
  destruct o as [| | | | | | | | | | | | | | | | | | | | | | | |v];
    try done; try (intros [= <-]; eexists; by split).
  destruct v; try done. intros [= <-]; eexists; by split.
Qed.

Lemma translate_body_eq rec typ t args metadata st :
  _origin_args_metadata typ = (t, args, metadata) →
  translate_body rec typ st =
  (let* out := _translate_inner rec t args
                 (fold_left Constrs.absorb metadata Constrs.empty) in
   ret (wrap_metadata out (fold_left (absorb_schema _to_builtins) metadata [])
          (fold_left absorb_extra metadata []))) st.
Proof. unfold translate_body. by intros ->. Qed.

Lemma fold_absorb_last (get_c : Constrs.t → option pyval)
    (get_m : Meta.t → option pyval) metadata c0 :
  (∀ c m, get_c (Constrs.absorb c m) = Constrs.set_if (get_c c) (get_m m)) →
  get_c (fold_left Constrs.absorb metadata c0)
  = match last (omap get_m metadata) with
    | Some v => Some v
    | None => get_c c0
    end.
Proof.
  intros Hget. induction metadata as [|m metadata IH] using rev_ind; [done|].
  rewrite fold_left_app, omap_app. simpl. rewrite Hget, IH.
  destruct (get_m m) as [v|]; simpl.
  - by rewrite last_snoc.
  - by rewrite app_nil_r.
Qed.

Lemma merged_constraint_last (get_c : Constrs.t → option pyval)
    (get_m : Meta.t → option pyval) metadata :
  (∀ c m, get_c (Constrs.absorb c m) = Constrs.set_if (get_c c) (get_m m)) →
  get_c Constrs.empty = None →
  get_c (fold_left Constrs.absorb metadata Constrs.empty)
  = last (omap get_m metadata).
Proof.
  intros Hget Hempty. rewrite (fold_absorb_last get_c get_m _ _ Hget).
  rewrite Hempty. by destruct (last (omap get_m metadata)).
Qed.

Lemma _translate_inner_scalar_any t args c n st :
  unconstrained_scalar t = Some n →
  ∃ n', ∀ rec, _translate_inner rec t args c st = Ok (n', st).
Proof.
  destruct t as [o| | | |]; try done.
  destruct o as [| | | | | | | | | | | | | | | | | | | | | | | |v];
    try done; try (intros _; eexists; intros rec; reflexivity).
  destruct v; try done. intros _; eexists; intros rec; reflexivity.
Qed.

Lemma translate_scalar_arm fuel typ t args metadata st n :
  _origin_args_metadata typ = (t, args, metadata) →
  (∀ rec, _translate_inner rec t args
            (fold_left Constrs.absorb metadata Constrs.empty) st
          = Ok (n, st)) →
  translate (S fuel) typ st
  = Ok (wrap_metadata n (fold_left (absorb_schema _to_builtins) metadata [])
          (fold_left absorb_extra metadata []), st).
Proof.
  intros Hnorm Hinner.
  change (translate (S fuel) typ st)
    with (translate_body (translate fuel) typ st).
  rewrite (translate_body_eq _ _ _ _ _ _ Hnorm). unfold bind.
  by rewrite Hinner.
Qed.

(** C6: a constraint that the matched arm does not consume is dropped
    and changes nothing, an error included: two annotated types with the
    same base, the same payloads and the same consumed constraints
    translate alike.  An annotated [int] gets each numeric bound from
    the last annotation that sets it; an annotated [str] gets lengths
    and pattern in the same way and no numeric bound, whatever bounds
    its annotations give; every scalar arm returns a node whatever the
    constraints; without constraint annotations the node is the one
    whose constraint fields are all unset.  An entry point whose decoder
    accepts the type returns what [translate] returns. *)
Theorem irrelevant_constraints_discarded fuel typ t args metadata st :
  _origin_args_metadata typ = (t, args, metadata) →
  let c := fold_left Constrs.absorb metadata Constrs.empty in
  let wrap := λ n,
    wrap_metadata n (fold_left (absorb_schema _to_builtins) metadata [])
      (fold_left absorb_extra metadata []) in
  (∀ typ' metadata',
     _origin_args_metadata typ' = (t, args, metadata') →
     consumed t (fold_left Constrs.absorb metadata' Constrs.empty)
     = consumed t c →
     fold_left (absorb_schema _to_builtins) metadata' []
     = fold_left (absorb_schema _to_builtins) metadata [] →
     fold_left absorb_extra metadata' [] = fold_left absorb_extra metadata [] →
     translate (S fuel) typ' st = translate (S fuel) typ st)
  ∧ (t = DObj py_int →
     translate (S fuel) typ st
     = Ok (wrap (IntType (last (omap Meta.gt metadata))
                   (last (omap Meta.ge metadata))
                   (last (omap Meta.lt metadata))
                   (last (omap Meta.le metadata))
                   (last (omap Meta.multiple_of metadata))), st))
  ∧ (t = DObj py_str →
     translate (S fuel) typ st
     = Ok (wrap (StrType (last (omap Meta.min_length metadata))
                   (last (omap Meta.max_length metadata))
                   (last (omap Meta.pattern metadata))), st))
  ∧ (∀ n, unconstrained_scalar t = Some n →
       (∃ n', translate (S fuel) typ st = Ok (wrap n', st))
       ∧ (c = Constrs.empty → translate (S fuel) typ st = Ok (wrap n, st))
       ∧ (metadata = [] → translate (S fuel) typ st = Ok (n, st)))
  ∧ (∀ n st' protocol Decoder,
       translate (S fuel) typ init_state = Ok (n, st') →
       select_decoder protocol = Ok Decoder → Decoder [typ] = None →
       type_info (S fuel) typ protocol = Ok (n, st')).
Proof.
  intros Hnorm c wrap. split_and!.
  - intros typ' metadata' Hnorm' Hc Hs He.
    change (translate_body (translate fuel) typ' st
            = translate_body (translate fuel) typ st).
    rewrite (translate_body_eq _ _ _ _ _ _ Hnorm),
      (translate_body_eq _ _ _ _ _ _ Hnorm').
    rewrite Hs, He. unfold bind.
    rewrite (_translate_inner_consumed _ t args
               (fold_left Constrs.absorb metadata' Constrs.empty)), Hc.
    by rewrite <- (_translate_inner_consumed _ t args c).
  - intros ->.
    rewrite (translate_scalar_arm fuel typ _ _ _ st
               (IntType (Constrs.gt c) (Constrs.ge c) (Constrs.lt c)
                  (Constrs.le c) (Constrs.multiple_of c)) Hnorm);
      [|done].
    unfold wrap, c.
    by rewrite (merged_constraint_last Constrs.gt Meta.gt),
      (merged_constraint_last Constrs.ge Meta.ge),
      (merged_constraint_last Constrs.lt Meta.lt),
      (merged_constraint_last Constrs.le Meta.le),
      (merged_constraint_last Constrs.multiple_of Meta.multiple_of).
  - intros ->.
    rewrite (translate_scalar_arm fuel typ _ _ _ st
               (StrType (Constrs.min_length c) (Constrs.max_length c)
                  (Constrs.pattern c)) Hnorm); [|done].
    unfold wrap, c.
    by rewrite (merged_constraint_last Constrs.min_length Meta.min_length),
      (merged_constraint_last Constrs.max_length Meta.max_length),
      (merged_constraint_last Constrs.pattern Meta.pattern).
  - intros n Hn. split_and!.
    + destruct (_translate_inner_scalar_any t args c n st Hn) as (n' & H1).
      exists n'. by apply (translate_scalar_arm fuel typ _ _ _ st n' Hnorm).
    + intros Hc. apply (translate_scalar_arm fuel typ _ _ _ st n Hnorm).
      intros rec. fold c. rewrite Hc.
      by destruct (_translate_inner_scalar rec t args Constrs.empty n st Hn)
        as (? & _ & ?).
    + intros ->.
      apply (translate_scalar_arm fuel typ _ _ [] st n Hnorm).
      intros rec.
      by destruct (_translate_inner_scalar rec t args Constrs.empty n st Hn)
        as (? & _ & ?).
  - intros n st' protocol Decoder Htr Hsel Hgate.
    unfold type_info, multi_type_info, run. rewrite Hsel, Hgate.
    cbn [mapM]. unfold bind at 1. by rewrite Htr.
Qed.


(** *** [sorted] and the members of a [Literal] *)

Lemma insert_sorted_Permutation {A} (leb : A → A → bool) x l :
  insert_sorted leb x l ≡ₚ x :: l.
Proof.
  induction l as [|y l IH]; simpl; [done|].
  destruct (leb x y); [done|]. rewrite IH. apply Permutation_swap.
Qed.

Lemma isort_Permutation {A} (leb : A → A → bool) l : isort leb l ≡ₚ l.
Proof.
  induction l as [|x l IH]; simpl; [done|].
  by rewrite insert_sorted_Permutation, IH.
Qed.

Lemma insert_sorted_Sorted {A} (leb : A → A → bool) (R : relation A)
    `{!Total R} x l :
  (∀ a b, leb a b = true ↔ R a b) →
  Sorted R l → Sorted R (insert_sorted leb x l).
Proof.
  intros Hleb. induction 1 as [|y l Hl IH Hhd]; simpl.
  - by repeat constructor.
  - destruct (leb x y) eqn:E.
    + apply Hleb in E. by repeat constructor.
    + assert (R y x) as Hyx.
      { destruct (total R x y) as [Hxy|]; [|done].
        apply Hleb in Hxy. congruence. }
      constructor; [done|].
      destruct Hhd as [|z l' Hyz]; simpl; [by constructor|].
      destruct (leb x z); by constructor.
Qed.

Lemma isort_Sorted {A} (leb : A → A → bool) (R : relation A) `{!Total R} l :
  (∀ a b, leb a b = true ↔ R a b) → Sorted R (isort leb l).
Proof.
  intros Hleb. induction l as [|x l IH]; simpl; [constructor|].
  by apply insert_sorted_Sorted.
Qed.





Lemma String_leb_le a b : String.leb a b = true ↔ String.le a b.
Proof. unfold String.le. by rewrite Is_true_true. Qed.



(** *** Dicts and [_merge_json] *)

Lemma dict_get_set_eq key v d : dict_get key (dict_set key v d) = Some v.
Proof.
  induction d as [|[k w] d IH]; simpl.
  - by rewrite String.eqb_refl.
  - destruct (String.eqb k key) eqn:E; simpl; by rewrite E.
Qed.

Lemma dict_get_set_ne key key' v d :
  key ≠ key' → dict_get key' (dict_set key v d) = dict_get key' d.
Proof.
  intros Hne. induction d as [|[k w] d IH]; simpl.
  - destruct (String.eqb_spec key key'); [done|done].
  - destruct (String.eqb_spec k key) as [->|]; simpl.
    + by destruct (String.eqb_spec key key').
    + by destruct (String.eqb_spec k key').
Qed.

Lemma dict_get_None key (d : pydict) : key ∉ d.*1 → dict_get key d = None.
Proof.
  induction d as [|[k w] d IH]; simpl; [done|].
  rewrite not_elem_of_cons. intros [Hne Hnin].
  destruct (String.eqb_spec k key); [congruence|auto].
Qed.

Lemma dict_set_nonempty key v d : dict_set key v d ≠ [].
Proof. destruct d as [|[k w] d]; simpl; [done|]. by destruct (String.eqb k key). Qed.

Lemma _merge_json_fold a items :
  _merge_json a (VDict items) = fold_left merge_step items a.
Proof.
  simpl. revert a. induction items as [|[key b_val] items IH]; intros a;
    [done|].
  simpl. rewrite IH. f_equal. unfold merge_step. simpl.
  destruct (dict_get key a) as [a_val|]; [|done].
  unfold merged_value. destruct a_val, b_val; simpl; done.
Qed.

Lemma fold_merge_step_lookup items a key :
  NoDup items.*1 →
  dict_get key (fold_left merge_step items a) =
  match dict_get key items with
  | Some b_val =>
      Some (match dict_get key a with
            | Some a_val => merged_value a_val b_val
            | None => b_val
            end)
  | None => dict_get key a
  end.
Proof.
  revert a. induction items as [|[k b_val] items IH]; intros a; [done|].
  rewrite fmap_cons, NoDup_cons. simpl. intros [Hnin Hnd].
  rewrite (IH _ Hnd). destruct (String.eqb_spec k key) as [->|Hne].
  - rewrite (dict_get_None _ _ Hnin). unfold merge_step. simpl.
    destruct (dict_get key a); by rewrite dict_get_set_eq.
  - assert (dict_get key (merge_step a (k, b_val)) = dict_get key a) as ->;
      [|done].
    unfold merge_step. simpl.
    destruct (dict_get k a); by rewrite dict_get_set_ne.
Qed.

Lemma dict_update_lookup d other key :
  NoDup other.*1 →
  dict_get key (dict_update d other) =
  match dict_get key other with
  | Some v => Some v
  | None => dict_get key d
  end.
Proof.
  unfold dict_update. revert d.
  induction other as [|[k v] other IH]; intros d; [done|].
  rewrite fmap_cons, NoDup_cons. simpl. intros [Hnin Hnd].
  rewrite (IH _ Hnd). destruct (String.eqb_spec k key) as [->|Hne].
  - by rewrite (dict_get_None _ _ Hnin), dict_get_set_eq.
  - by rewrite dict_get_set_ne.
Qed.

Lemma wrap_metadata_cases out schema extra :
  (schema = [] ∧ extra = [] ∧ wrap_metadata out schema extra = out)
  ∨ ((schema ≠ [] ∨ extra ≠ [])
     ∧ wrap_metadata out schema extra
       = Metadata out (dict_or_None schema) (dict_or_None extra)).
Proof.
  unfold wrap_metadata.
  destruct schema as [|x schema]; destruct extra as [|y extra]; simpl;
    [left; done|right; split; [right|]; done..|right; split; [left|]; done|
     right; split; [left|]; done].
Qed.

Lemma dict_or_None_not_empty (d : pydict) : dict_or_None d ≠ Some [].
Proof. by destruct d. Qed.

Lemma set_if_present_lookup key' val d key :
  dict_get key (set_if_present key' val d)
  = if String.eqb key' key
    then match val with Some v => Some v | None => dict_get key d end
    else dict_get key d.
Proof.
  destruct val as [v|]; simpl; [|by destruct (String.eqb key' key)].
  destruct (String.eqb_spec key' key) as [->|Hne].
  - apply dict_get_set_eq.
  - by apply dict_get_set_ne.
Qed.

Lemma absorb_schema_lookup d m key :
  (∀ s, Meta.extra_json_schema m = Some s → NoDup (_to_builtins s).*1) →
  dict_get key (absorb_schema _to_builtins d m)
  = schema_step _to_builtins key (dict_get key d) m.
Proof.
  intros Hnd. unfold absorb_schema, schema_step.
  assert (dict_get key
            (set_if_present "examples" (Meta.examples m)
               (set_if_present "description" (Meta.description m)
                  (set_if_present "title" (Meta.title m) d)))
          = match assigned_attr key m with
            | Some v => Some v
            | None => dict_get key d
            end) as Hbase.
  { rewrite !set_if_present_lookup. unfold assigned_attr.
    destruct (String.eqb_spec "examples" key) as [<-|_];
      [by destruct (Meta.examples m)|].
    destruct (String.eqb_spec "description" key) as [<-|_];
      [by destruct (Meta.description m)|].
    destruct (String.eqb_spec "title" key) as [<-|_];
      [by destruct (Meta.title m)|done]. }
  destruct (Meta.extra_json_schema m) as [s|]; [|done].
  rewrite _merge_json_fold, (fold_merge_step_lookup _ _ _ (Hnd s eq_refl)).
  by rewrite Hbase.
Qed.

Lemma schema_fold_lookup metadata d key :
  Forall (λ m, ∀ s, Meta.extra_json_schema m = Some s →
                    NoDup (_to_builtins s).*1) metadata →
  dict_get key (fold_left (absorb_schema _to_builtins) metadata d)
  = fold_left (schema_step _to_builtins key) metadata (dict_get key d).
Proof.
  intros Hnd. revert d.
  induction Hnd as [|m metadata Hm _ IH]; intros d; [done|].
  simpl. by rewrite IH, absorb_schema_lookup.
Qed.

Lemma absorb_extra_lookup d m key :
  (∀ e, Meta.extra m = Some e → NoDup e.*1) →
  dict_get key (absorb_extra d m)
  = match Meta.extra m ≫= dict_get key with
    | Some v => Some v
    | None => dict_get key d
    end.
Proof.
  intros Hnd. unfold absorb_extra.
  destruct (Meta.extra m) as [e|]; [|done]. simpl.
  by apply dict_update_lookup, Hnd.
Qed.

Lemma extra_fold_lookup metadata key :
  Forall (λ m, ∀ e, Meta.extra m = Some e → NoDup e.*1) metadata →
  dict_get key (fold_left absorb_extra metadata [])
  = last (omap (λ m, Meta.extra m ≫= dict_get key) metadata).
Proof.
  induction metadata as [|m metadata IH] using rev_ind; [done|].
  intros [Hnd Hm]%Forall_app. apply (proj1 (Forall_singleton _ _)) in Hm.
  rewrite fold_left_app, omap_app. simpl.
  rewrite (absorb_extra_lookup _ _ _ Hm), (IH Hnd).
  destruct (Meta.extra m ≫= dict_get key) as [v|]; simpl.
  - by rewrite last_snoc.
  - by rewrite app_nil_r.
Qed.

(** C5: the accumulated extra-schema payload is built annotation by
    annotation, in order: under each key, an attribute [title],
    [description] or [examples] that the annotation sets replaces the
    value accumulated so far, and then the entry of the annotation's
    extra-schema dict is merged into it by [_merge_json], which on a
    key of both sides merges two dicts recursively, concatenates two
    sequences and otherwise keeps the later value; an annotation that
    sets none of them leaves the payload as it is.  The free-form
    payload holds under each key the value of the last annotation whose
    [extra] has the key.  The translated node is wrapped in a
    [Metadata] node exactly when one of the two accumulated payloads is
    non-empty, and an empty payload is stored as [None]. *)
Theorem metadata_payloads_merged fuel typ t args metadata st out st' :
  _origin_args_metadata typ = (t, args, metadata) →
  _translate_inner (translate fuel) t args
    (fold_left Constrs.absorb metadata Constrs.empty) st = Ok (out, st') →
  Forall (λ m, ∀ s, Meta.extra_json_schema m = Some s →
                    NoDup (_to_builtins s).*1) metadata →
  Forall (λ m, ∀ e, Meta.extra m = Some e → NoDup e.*1) metadata →
  let schema := fold_left (absorb_schema _to_builtins) metadata [] in
  let extra := fold_left absorb_extra metadata [] in
  (* the accumulated payloads, key by key, from the annotations *)
  (∀ key, dict_get key schema
          = fold_left (schema_step _to_builtins key) metadata None)
  ∧ (∀ key, dict_get key extra
            = last (omap (λ m, Meta.extra m ≫= dict_get key) metadata))
  (* one annotation: assignment, then merge; nothing set, nothing changed *)
  ∧ (∀ d m key,
       (∀ s, Meta.extra_json_schema m = Some s → NoDup (_to_builtins s).*1) →
       dict_get key (absorb_schema _to_builtins d m)
       = match Meta.extra_json_schema m with
         | Some s =>
             dict_get key
               (_merge_json
                  (set_if_present "examples" (Meta.examples m)
                     (set_if_present "description" (Meta.description m)
                        (set_if_present "title" (Meta.title m) d)))
                  (VDict (_to_builtins s)))
         | None =>
             match assigned_attr key m with
             | Some v => Some v
             | None => dict_get key d
             end
         end)
  ∧ (∀ d m, Meta.title m = None → Meta.description m = None →
            Meta.examples m = None → Meta.extra_json_schema m = None →
            absorb_schema _to_builtins d m = d)
  ∧ (∀ d m, Meta.extra m = None → absorb_extra d m = d)
  (* the deep merge, key by key *)
  ∧ (∀ a b key, NoDup b.*1 →
       dict_get key (_merge_json a (VDict b)) =
       match dict_get key a, dict_get key b with
       | Some (VDict a_sub), Some (VDict b_sub) =>
           Some (VDict (_merge_json a_sub (VDict b_sub)))
       | Some a_val, Some b_val =>
           match as_sequence a_val, as_sequence b_val with
           | Some la, Some lb => Some (VList (la ++ lb))
           | _, _ => Some b_val
           end
       | Some a_val, None => Some a_val
       | None, b_val => b_val
       end)
  (* the shallow update, key by key *)
  ∧ (∀ d e key, NoDup e.*1 →
       dict_get key (dict_update d e) =
       match dict_get key e with
       | Some v => Some v
       | None => dict_get key d
       end)
  (* the wrapper *)
  ∧ ∃ node, translate (S fuel) typ st = Ok (node, st')
      ∧ (schema = [] ∧ extra = [] → node = out)
      ∧ (schema ≠ [] ∨ extra ≠ [] →
         node = Metadata out (dict_or_None schema) (dict_or_None extra))
      ∧ (node = out ∨ ∃ s e, node = Metadata out s e
                             ∧ s ≠ Some [] ∧ e ≠ Some []
                             ∧ (s = None ↔ schema = [])
                             ∧ (e = None ↔ extra = [])).
Proof.
  intros Hnorm Hinner Hnds Hnde schema extra.
  split; [intros key; apply (schema_fold_lookup _ [] key Hnds)|].
  split; [intros key; by apply extra_fold_lookup|].
  split.
  { intros d m key Hnd. rewrite (absorb_schema_lookup _ _ _ Hnd).
    unfold schema_step.
    destruct (Meta.extra_json_schema m) as [s|] eqn:Hs; [|done].
    rewrite _merge_json_fold, (fold_merge_step_lookup _ _ _ (Hnd s eq_refl)).
    rewrite !set_if_present_lookup. unfold assigned_attr.
    destruct (String.eqb_spec "examples" key) as [<-|_];
      [by destruct (Meta.examples m)|].
    destruct (String.eqb_spec "description" key) as [<-|_];
      [by destruct (Meta.description m)|].
    by destruct (String.eqb_spec "title" key) as [<-|_];
      [destruct (Meta.title m)|]. }
  split.
  { intros d m Ht Hd He Hs. unfold absorb_schema. by rewrite Ht, Hd, He, Hs. }
  split; [intros d m He; unfold absorb_extra; by rewrite He|].
  split.
  { intros a b key Hnd. rewrite _merge_json_fold.
    rewrite (fold_merge_step_lookup _ _ _ Hnd).
    destruct (dict_get key b) as [b_val|], (dict_get key a) as [a_val|];
      try done; [|by destruct a_val].
    unfold merged_value.
    destruct a_val, b_val; simpl; done. }
  split; [intros d e key Hnd; by apply dict_update_lookup|].
  exists (wrap_metadata out schema extra).
  split.
  { change (translate (S fuel) typ st)
      with (translate_body (translate fuel) typ st).
    rewrite (translate_body_eq _ _ _ _ _ _ Hnorm). unfold bind.
    by rewrite Hinner. }
  destruct (wrap_metadata_cases out schema extra)
    as [(Hs & He & ->)|[Hne ->]].
  - split; [done|]. split; [|by left]. intros [?|?]; congruence.
  - split; [intros [? ?]; destruct Hne; congruence|]. split; [done|].
    right. exists (dict_or_None schema), (dict_or_None extra).
    split; [done|]. split; [apply dict_or_None_not_empty|].
    split; [apply dict_or_None_not_empty|].
    split; [by destruct schema|by destruct extra].
Qed.

(** *** Unions *)

Lemma _translate_inner_Union rec args c st :
  _translate_inner rec (DObj py_Union) (Some args) c st
  = (let* types := mapM rec args in ret (UnionType types)) st.
Proof. done. Qed.


(** *** The view of the dispatch *)

Lemma _translate_inner_view rec t args c st :
  _translate_inner rec t args c st =
  match object_parts classes t with
  | Some (cl, ci, out) => translate_object rec cl ci out st
  | None =>
      (let* items := mapM rec (children t args) in
       lift (assemble classes t args c items)) st
  end.
Proof.
  destruct t as [o| | | |]; [|reflexivity..].
  destruct o as [| | | | | | | | | | | | | | | | | | | | | |cl| |v];
    try reflexivity.
  - (* list *)
    destruct args as [[|a ?]|]; try reflexivity; simpl.
    unfold bind. by destruct (rec a st) as [[??]|?].
  - (* set *)
    destruct args as [[|a ?]|]; try reflexivity; simpl.
    unfold bind. by destruct (rec a st) as [[??]|?].
  - (* frozenset *)
    destruct args as [[|a ?]|]; try reflexivity; simpl.
    unfold bind. by destruct (rec a st) as [[??]|?].
  - (* tuple *)
    simpl. destruct (tuple_args args) as [l|]; [|reflexivity].
    destruct (is_variadic l) eqn:Hv; unfold bind.
    + destruct l as [|a [|b [|??]]]; try done. simpl. unfold bind.
      by destruct (rec a st) as [[??]|?].
    + by destruct (mapM rec l st) as [[??]|?].
  - (* dict *)
    destruct args as [[|k [|v ?]]|]; try reflexivity; simpl; unfold bind.
    + by destruct (rec k st) as [[??]|?].
    + destruct (rec k st) as [[? st1]|?]; [|done].
      by destruct (rec v st1) as [[??]|?].
  - (* Union *)
    destruct args as [args|]; [|reflexivity]. simpl. unfold bind.
    by destruct (mapM rec args st) as [[??]|?].
  - (* Literal *)
    destruct args as [args|]; [|reflexivity]. simpl.
    by destruct (sorted args).
  - (* a class *)
    simpl. destruct (classes !! cl) as [[]|]; reflexivity.
  - destruct v; reflexivity.
Qed.


(** *** The state only grows *)

Lemma ext_refl st : ext st st.
Proof. by repeat split. Qed.

Lemma ext_trans st1 st2 st3 : ext st1 st2 → ext st2 st3 → ext st1 st3.
Proof.
  intros (?&?&?) (?&?&?). repeat split; by etrans.
Qed.

Lemma ext_antisym st st' : ext st st' → ext st' st → st = st'.
Proof.
  intros (H1&H2&H3) (H1'&H2'&H3'). destruct st, st'; simpl in *.
  f_equal.
  - by apply (anti_symm (⊆)).
  - by apply (anti_symm (⊆)).
  - apply prefix_length_eq; [done|]. by apply prefix_length.
Qed.

Lemma Ext_ret {A} (a : A) : Ext (ret a).
Proof. intros st a' st' [= _ <-]. apply ext_refl. Qed.

Lemma Ext_lift {A} (r : result A) : Ext (lift r).
Proof. intros st a st'. destruct r; [|done]. intros [= _ <-]. apply ext_refl. Qed.

Lemma Ext_raise {A} e : Ext (raise e : M A).
Proof. by intros st a st'. Qed.

Lemma Ext_bind {A B} (m : M A) (k : A → M B) :
  Ext m → (∀ a, Ext (k a)) → Ext (bind m k).
Proof.
  intros Hm Hk st b st' (a & st1 & H1 & H2)%bind_Ok.
  eapply ext_trans; [by eapply Hm|by eapply Hk].
Qed.

Lemma Ext_mapM {A B} (f : A → M B) l : (∀ a, Ext (f a)) → Ext (mapM f l).
Proof.
  intros Hf. induction l as [|a l IH]; simpl; [apply Ext_ret|].
  apply Ext_bind; [done|]. intros b.
  apply Ext_bind; [done|]. intros bs. apply Ext_ret.
Qed.

Lemma Ext_build_field rec s : (∀ d, Ext (rec d)) → Ext (build_field rec s).
Proof.
  intros Hrec. unfold build_field. destruct (fs_hint s); [|apply Ext_raise].
  apply Ext_bind; [done|]. intros; apply Ext_ret.
Qed.

Lemma Ext__get_type_hints c ci : Ext (_get_type_hints c ci).
Proof.
  intros st h st'. unfold _get_type_hints.
  destruct (type_hints st !! c) eqn:E; intros [= _ <-]; [apply ext_refl|].
  repeat split; simpl; [|done..]. by apply insert_subseteq.
Qed.

(** The steps of a cache miss, in order. *)
Lemma translate_object_miss rec c ci out st n st' :
  cache st !! c = None →
  translate_object rec c ci out st = Ok (n, st') →
  ∃ hints st2 fields st3,
    let l := length (heap st) in
    let st1 := mkState (type_hints st) (<[c := l]> (cache st))
                 (heap st ++ [out]) in
    _get_type_hints c ci st1 = Ok (hints, st2)
    ∧ mapM (build_field rec) (field_specs ci hints) st2 = Ok (fields, st3)
    ∧ n = ObjRef l
    ∧ st' = mkState (type_hints st3) (cache st3)
              (alter (set_fields fields) l (heap st3)).
Proof.
  intros Hmiss. unfold translate_object. rewrite Hmiss.
  intros (l & st1 & [= <- <-] & H)%bind_Ok.
  apply bind_Ok in H as (hints & st2 & H2 & H).
  apply bind_Ok in H as (fields & st3 & H3 & H).
  apply bind_Ok in H as ([] & st4 & [= <-] & [= <- <-]).
  by exists hints, st2, fields, st3.
Qed.

Lemma translate_object_hit rec c ci out st l :
  cache st !! c = Some l →
  translate_object rec c ci out st = Ok (ObjRef l, st).
Proof. intros H. unfold translate_object. by rewrite H. Qed.

Lemma Ext_translate_object rec c ci out :
  (∀ d, Ext (rec d)) → Ext (translate_object rec c ci out).
Proof.
  intros Hrec st n st' H.
  destruct (cache st !! c) as [l|] eqn:Hc.
  { rewrite (translate_object_hit _ _ _ _ _ _ Hc) in H.
    injection H as _ <-. apply ext_refl. }
  apply (translate_object_miss _ _ _ _ _ _ _ Hc) in H
    as (hints & st2 & fields & st3 & H2 & H3 & _ & ->).
  apply Ext__get_type_hints in H2 as (Ha & Hb & Hd).
  apply (Ext_mapM _ _ (λ s, Ext_build_field rec s Hrec)) in H3
    as (Ha' & Hb' & Hd').
  simpl in *. repeat split; simpl.
  - by etrans.
  - trans (<[c:=length (heap st)]> (cache st));
      [by apply insert_subseteq|by etrans].
  - assert (heap st ++ [out] `prefix_of` heap st3) as [k Hk] by by etrans.
    rewrite Hk, <- (assoc (++)).
    rewrite <- (Nat.add_0_r (length (heap st))), alter_app_r.
    by apply prefix_app_r.
Qed.

Lemma Ext_translate_body rec typ :
  (∀ d, Ext (rec d)) → Ext (translate_body rec typ).
Proof.
  intros Hrec st n st'. unfold translate_body.
  destruct (_origin_args_metadata typ) as [[t args] metadata].
  apply Ext_bind; [|intros; apply Ext_ret].
  intros st0 a st0'. rewrite _translate_inner_view.
  destruct (object_parts classes t) as [[[cl ci] out]|].
  - by apply Ext_translate_object.
  - apply Ext_bind; [by apply Ext_mapM|intros; apply Ext_lift].
Qed.

Lemma Ext_translate fuel typ : Ext (translate fuel typ).
Proof.
  revert typ. induction fuel as [|fuel IH]; intros typ; [apply Ext_raise|].
  by apply Ext_translate_body.
Qed.

(** *** Running again in the final state *)

Lemma Replay_ret {A} (a : A) : Replay (ret a).
Proof. by intros st a' st' [= <- <-] st'' _. Qed.

Lemma Replay_lift {A} (r : result A) : Replay (lift r).
Proof. intros st a st'. destruct r; [|done]. by intros [= <- <-] st'' _. Qed.

Lemma Replay_raise {A} e : Replay (raise e : M A).
Proof. by intros st a st'. Qed.

Lemma Replay_bind {A B} (m : M A) (k : A → M B) :
  Replay m → (∀ a, Ext (k a)) → (∀ a, Replay (k a)) → Replay (bind m k).
Proof.
  intros Hm Hke Hk st b st' (a & st1 & H1 & H2)%bind_Ok st'' Hsub.
  unfold bind. rewrite (Hm _ _ _ H1 st'').
  - by apply (Hk _ _ _ _ H2).
  - etrans; [|done]. by apply (Hke _ _ _ _ H2).
Qed.

Lemma Replay_mapM {A B} (f : A → M B) l :
  (∀ a, Ext (f a)) → (∀ a, Replay (f a)) → Replay (mapM f l).
Proof.
  intros Hfe Hf. induction l as [|a l IH]; simpl; [apply Replay_ret|].
  apply Replay_bind; [done| |].
  - intros b. apply Ext_bind; [by apply Ext_mapM|intros; apply Ext_ret].
  - intros b. apply Replay_bind; [done|intros; apply Ext_ret|
                                  intros; apply Replay_ret].
Qed.

Lemma Replay_build_field rec s :
  (∀ d, Replay (rec d)) → Replay (build_field rec s).
Proof.
  intros Hrec. unfold build_field.
  destruct (fs_hint s); [|apply Replay_raise].
  apply Replay_bind; [done|intros; apply Ext_ret|intros; apply Replay_ret].
Qed.

(** Where a class is cached once its translation has returned. *)
Lemma translate_object_cached rec c ci out st n st' :
  (∀ d, Ext (rec d)) →
  translate_object rec c ci out st = Ok (n, st') →
  ∃ l, n = ObjRef l ∧ cache st' !! c = Some l.
Proof.
  intros Hrec H. destruct (cache st !! c) as [l|] eqn:Hc.
  { rewrite (translate_object_hit _ _ _ _ _ _ Hc) in H.
    injection H as <- <-. eauto. }
  apply (translate_object_miss _ _ _ _ _ _ _ Hc) in H
    as (hints & st2 & fields & st3 & H2 & H3 & -> & ->).
  eexists; split; [done|]. simpl.
  apply Ext__get_type_hints in H2 as (_ & Hb & _).
  apply (Ext_mapM _ _ (λ s, Ext_build_field rec s Hrec)) in H3
    as (_ & Hb' & _).
  eapply lookup_weaken; [|done]. eapply lookup_weaken; [|done].
  simpl. apply lookup_insert_eq.
Qed.

Lemma Replay_translate_object rec c ci out :
  (∀ d, Ext (rec d)) → Replay (translate_object rec c ci out).
Proof.
  intros Hrec st n st' H st'' Hsub.
  apply translate_object_cached in H as (l & -> & Hl); [|done].
  apply translate_object_hit. by eapply lookup_weaken.
Qed.

Lemma Replay_translate_body rec typ :
  (∀ d, Ext (rec d)) → (∀ d, Replay (rec d)) →
  Replay (translate_body rec typ).
Proof.
  intros Hext Hrec. unfold translate_body.
  destruct (_origin_args_metadata typ) as [[t args] metadata].
  apply Replay_bind; [|intros; apply Ext_ret|intros; apply Replay_ret].
  intros st0 a st0' H st'' Hsub. rewrite _translate_inner_view in *.
  destruct (object_parts classes t) as [[[cl ci] out]|].
  - by eapply Replay_translate_object.
  - revert st0 a st0' H st'' Hsub.
    apply Replay_bind; [by apply Replay_mapM|intros; apply Ext_lift|
                        intros; apply Replay_lift].
Qed.

Lemma Replay_translate fuel typ : Replay (translate fuel typ).
Proof.
  revert typ. induction fuel as [|fuel IH]; intros typ;
    [apply Replay_raise|].
  apply Replay_translate_body; [apply Ext_translate|done].
Qed.


(** *** The invariant of a run *)

Local Abbreviation complete :=
  (complete _CONCRETE_TYPES _to_builtins classes).
Local Abbreviation Inv := (Inv _CONCRETE_TYPES _to_builtins classes).
Local Abbreviation Keeps := (Keeps _CONCRETE_TYPES _to_builtins classes).

Lemma placeholder_cls c ci out :
  placeholder c ci = Some out → obj_cls out = c ∧ obj_fields out = [].
Proof. destruct ci; simpl; intros [= <-]; done. Qed.

Lemma obj_cls_set_fields fs o : obj_cls (set_fields fs o) = obj_cls o.
Proof. by destruct o. Qed.

Lemma Replay_fields fuel specs :
  Replay (mapM (build_field (translate fuel)) specs).
Proof.
  apply Replay_mapM.
  - intros s. apply Ext_build_field, Ext_translate.
  - intros s. apply Replay_build_field, Replay_translate.
Qed.

Lemma complete_mono st st' c o :
  complete st c o → cache st ⊆ cache st' → complete st' c o.
Proof.
  intros (ci & out & fuel & fields & ? & ? & ? & H) Hsub.
  exists ci, out, fuel, fields. repeat split; try done.
  by apply (Replay_fields _ _ _ _ _ H).
Qed.

Lemma Inv_weaken P Q st : P ⊆ Q → Inv P st → Inv Q st.
Proof.
  intros HPQ [Hwf H]. split; [done|]. intros c l Hc.
  destruct (H c l Hc) as [?|?]; [left; set_solver|by right].
Qed.

Lemma Inv_init : Inv ∅ init_state.
Proof.
  split; [|done]. repeat split; simpl.
  - by intros c h ci.
  - by intros c l.
  - by intros l o.
Qed.

Lemma Keeps_ret {A} (a : A) : Keeps (ret a).
Proof. by intros P st a' st' [= _ <-]. Qed.

Lemma Keeps_lift {A} (r : result A) : Keeps (lift r).
Proof. intros P st a st'. destruct r; [|done]. by intros [= _ <-]. Qed.

Lemma Keeps_raise {A} e : Keeps (raise e : M A).
Proof. by intros P st a st'. Qed.

Lemma Keeps_bind {A B} (m : M A) (k : A → M B) :
  Keeps m → (∀ a, Keeps (k a)) → Keeps (bind m k).
Proof.
  intros Hm Hk P st b st' (a & st1 & H1 & H2)%bind_Ok HI.
  eapply Hk; [done|]. by eapply Hm.
Qed.

Lemma Keeps_mapM {A B} (f : A → M B) l :
  (∀ a, Keeps (f a)) → Keeps (mapM f l).
Proof.
  intros Hf. induction l as [|a l IH]; simpl; [apply Keeps_ret|].
  apply Keeps_bind; [done|]. intros b.
  apply Keeps_bind; [done|]. intros bs. apply Keeps_ret.
Qed.

Lemma Keeps_build_field rec s :
  (∀ d, Keeps (rec d)) → Keeps (build_field rec s).
Proof.
  intros Hrec. unfold build_field.
  destruct (fs_hint s); [|apply Keeps_raise].
  apply Keeps_bind; [done|]. intros; apply Keeps_ret.
Qed.

(** Registering the placeholder of an uncached class. *)
Lemma Inv_cache_new P st c ci out :
  classes !! c = Some ci → placeholder c ci = Some out →
  cache st !! c = None → Inv P st →
  Inv (P ∪ {[c]})
    (mkState (type_hints st) (<[c := length (heap st)]> (cache st))
       (heap st ++ [out])).
Proof.
  intros Hci Hout Hmiss [(Hh & Hch & Hhc) Hentries].
  destruct (placeholder_cls _ _ _ Hout) as [Hcls _].
  split; [repeat split; simpl|simpl].
  - done.
  - intros c' l'. destruct (decide (c = c')) as [<-|Hne].
    + rewrite lookup_insert_eq. intros [= <-]. exists out.
      by rewrite lookup_app_r, Nat.sub_diag.
    + rewrite lookup_insert_ne by done. intros Hc'.
      destruct (Hch _ _ Hc') as (o & Ho & ?). exists o.
      split; [|done]. by apply lookup_app_l_Some.
  - intros l' o Ho. apply lookup_app_Some in Ho as [Ho|[Hlen Ho]].
    + specialize (Hhc _ _ Ho). rewrite lookup_insert_ne; [done|].
      intros Heq. rewrite <- Heq in Hhc. congruence.
    + apply list_lookup_singleton_Some in Ho as [Hl ->].
      rewrite Hcls, lookup_insert_eq. f_equal. lia.
  - intros c' l'. destruct (decide (c = c')) as [<-|Hne].
    + intros _. left. set_solver.
    + rewrite lookup_insert_ne by done. intros Hc'.
      destruct (Hentries _ _ Hc') as [?|(o & Ho & Hcomp)];
        [left; set_solver|right].
      exists o. split; [by apply lookup_app_l_Some|].
      eapply complete_mono; [done|]. simpl. by apply insert_subseteq.
Qed.

(** The memoised hints are the hints of the class. *)
Lemma _get_type_hints_Inv P st c ci hints st' :
  classes !! c = Some ci →
  _get_type_hints c ci st = Ok (hints, st') → Inv P st →
  hints = get_type_hints ci ∧ Inv P st'
  ∧ cache st' = cache st ∧ heap st' = heap st.
Proof.
  intros Hci H [(Hh & Hch & Hhc) Hentries]. unfold _get_type_hints in H.
  destruct (type_hints st !! c) as [h|] eqn:E; injection H as <- <-.
  - split; [by eapply Hh|]. by repeat split.
  - split; [done|]. split; [|done]. split; [repeat split; simpl|simpl].
    + intros c' h ci'. simpl. destruct (decide (c = c')) as [<-|Hne].
      * rewrite lookup_insert_eq. intros [= <-] ?. congruence.
      * rewrite lookup_insert_ne by done. apply Hh.
    + done.
    + done.
    + intros c' l' Hc'.
      destruct (Hentries _ _ Hc') as [?|(o & Ho & Hcomp)]; [by left|right].
      exists o. split; [done|]. by eapply complete_mono.
Qed.

(** Assigning the translated fields to the placeholder. *)
Lemma Inv_assign_fields P st c ci out fuel fields :
  classes !! c = Some ci → placeholder c ci = Some out →
  ∀ l, cache st !! c = Some l → heap st !! l = Some out →
  (∀ st'', cache st ⊆ cache st'' →
     mapM (build_field (translate fuel))
       (field_specs ci (get_type_hints ci)) st'' = Ok (fields, st'')) →
  Inv (P ∪ {[c]}) st →
  Inv P (mkState (type_hints st) (cache st)
           (alter (set_fields fields) l (heap st))).
Proof.
  intros Hci Hout l Hl Hheap Hreplay [(Hh & Hch & Hhc) Hentries].
  destruct (placeholder_cls _ _ _ Hout) as [Hcls _].
  split; [repeat split; simpl|simpl].
  - done.
  - intros c' l' Hc'. destruct (Hch _ _ Hc') as (o & Ho & Hoc).
    destruct (decide (l = l')) as [<-|Hne].
    + exists (set_fields fields o).
      by rewrite list_lookup_alter_eq, Ho, obj_cls_set_fields.
    + exists o. by rewrite list_lookup_alter_ne.
  - intros l' o. destruct (decide (l = l')) as [<-|Hne].
    + rewrite list_lookup_alter_eq, Hheap. intros [= <-].
      by rewrite obj_cls_set_fields, Hcls.
    + rewrite list_lookup_alter_ne by done. apply Hhc.
  - intros c' l' Hc'. destruct (decide (c = c')) as [<-|Hne].
    + right. assert (l' = l) as -> by congruence.
      exists (set_fields fields out).
      split; [by rewrite list_lookup_alter_eq, Hheap|].
      exists ci, out, fuel, fields. repeat split; try done.
      by apply Hreplay.
    + destruct (Hentries _ _ Hc') as [Hin|(o & Ho & Hcomp)]; [left|right].
      { apply elem_of_union in Hin as [?|?%elem_of_singleton]; done. }
      exists o. split.
      * rewrite list_lookup_alter_ne; [done|]. intros <-.
        destruct (Hch _ _ Hc') as (o' & Ho' & Hoc'). congruence.
      * by eapply complete_mono.
Qed.

Lemma Keeps_translate_object fuel c ci out :
  classes !! c = Some ci → placeholder c ci = Some out →
  (∀ d, Keeps (translate fuel d)) →
  Keeps (translate_object (translate fuel) c ci out).
Proof.
  intros Hci Hout Hrec P st n st' H HI.
  destruct (cache st !! c) as [l|] eqn:Hc.
  { rewrite (translate_object_hit _ _ _ _ _ _ Hc) in H.
    by injection H as _ <-. }
  apply (translate_object_miss _ _ _ _ _ _ _ Hc) in H
    as (hints & st2 & fields & st3 & H2 & H3 & _ & ->).
  pose proof (Inv_cache_new P st c ci out Hci Hout Hc HI) as HI1.
  destruct (_get_type_hints_Inv _ _ _ _ _ _ Hci H2 HI1)
    as (-> & HI2 & Hc2 & Hh2).
  assert (Inv (P ∪ {[c]}) st3) as HI3.
  { eapply (Keeps_mapM _ _ (λ s, Keeps_build_field _ s Hrec)); done. }
  assert (ext st2 st3) as (_ & Hcache23 & Hheap23).
  { eapply Ext_mapM; [|done]. intros s. apply Ext_build_field, Ext_translate. }
  eapply Inv_assign_fields; try done.
  - eapply lookup_weaken; [|done]. rewrite Hc2. simpl.
    apply lookup_insert_eq.
  - eapply prefix_lookup_Some; [|done]. rewrite Hh2. simpl.
    by rewrite lookup_app_r, Nat.sub_diag.
  - intros st'' Hsub. by apply (Replay_fields _ _ _ _ _ H3).
Qed.

Lemma object_parts_Some t cl ci out :
  object_parts classes t = Some (cl, ci, out) →
  t = DObj (py_class cl) ∧ classes !! cl = Some ci
  ∧ placeholder cl ci = Some out.
Proof.
  destruct t as [o| | | |]; try done. destruct o; try done. simpl.
  destruct (classes !! c) as [ci'|] eqn:Hc; [|done].
  destruct (placeholder c ci') eqn:E; [|done]. by intros [= <- <- <-].
Qed.

Lemma Keeps_translate fuel typ : Keeps (translate fuel typ).
Proof.
  revert typ. induction fuel as [|fuel IH]; intros typ;
    [apply Keeps_raise|].
  change (Keeps (translate_body (translate fuel) typ)).
  unfold translate_body.
  destruct (_origin_args_metadata typ) as [[t args] metadata].
  apply Keeps_bind; [|intros; apply Keeps_ret].
  intros P st0 a st0'. rewrite _translate_inner_view.
  destruct (object_parts classes t) as [[[cl ci] out]|] eqn:Hobj.
  - apply object_parts_Some in Hobj as (_ & ? & ?).
    by apply Keeps_translate_object.
  - revert P st0 a st0'.
    apply Keeps_bind; [by apply Keeps_mapM|intros; apply Keeps_lift].
Qed.


(** *** What a finished run leaves behind *)

Lemma run_Ok fuel types protocol nodes st :
  run fuel types protocol = Ok (nodes, st) →
  mapM (translate fuel) types init_state = Ok (nodes, st).
Proof.
  unfold run. destruct (select_decoder protocol) as [Decoder|]; [|done].
  by destruct (Decoder types).
Qed.

Lemma run_Inv fuel types protocol nodes st :
  run fuel types protocol = Ok (nodes, st) → Inv ∅ st.
Proof.
  intros H%run_Ok.
  eapply (Keeps_mapM _ _ (Keeps_translate fuel)); [done|apply Inv_init].
Qed.

Lemma fields_of_specs rec specs st fields st' :
  mapM (build_field rec) specs st = Ok (fields, st') →
  Forall2 (λ s f,
             Field.name f = fs_name s
             ∧ Field.encode_name f = fs_encode_name s
             ∧ Field.required f = fs_required s
             ∧ Field.default f = fs_default s
             ∧ Field.default_factory f = fs_default_factory s
             ∧ is_Some (fs_hint s))
          specs fields.
Proof.
  revert st fields. induction specs as [|s specs IH]; intros st fields; simpl.
  - intros [= <- _]. constructor.
  - intros (f & st1 & H1 & (fs & st2 & H2 & [= <- <-])%bind_Ok)%bind_Ok.
    constructor; [|by eapply IH].
    unfold build_field in H1. destruct (fs_hint s) as [d|]; [|done].
    apply bind_Ok in H1 as (ty & st0 & _ & [= <- _]). simpl. eauto 10.
Qed.

(** In the state a run returns, the node cached for a class holds the
    placeholder's data and one field per field specification. *)
Lemma cached_class_fields fuel types protocol nodes st c l :
  run fuel types protocol = Ok (nodes, st) → cache st !! c = Some l →
  ∃ ci out fields,
    classes !! c = Some ci ∧ placeholder c ci = Some out
    ∧ heap st !! l = Some (set_fields fields out)
    ∧ Forall2 (λ s f,
             Field.name f = fs_name s
             ∧ Field.encode_name f = fs_encode_name s
             ∧ Field.required f = fs_required s
             ∧ Field.default f = fs_default s
             ∧ Field.default_factory f = fs_default_factory s
             ∧ is_Some (fs_hint s))
        (field_specs ci (get_type_hints ci)) fields.
Proof.
  intros [_ H]%run_Inv Hc.
  destruct (H c l Hc) as [?|(o & Ho & ci & out & f & fields & ? & ? & -> & Hf)];
    [set_solver|].
  exists ci, out, fields. repeat split; try done.
  by eapply fields_of_specs.
Qed.

(** C8: in the node of a struct class, the fields follow
    [__struct_fields__], paired with the encoded names and with the
    defaults aligned to the right.  A field is required exactly when its
    default object is the no-default marker; a factory sets
    [default_factory] and leaves [default] unset; a plain default sets
    [default] and leaves [default_factory] unset; with no default both
    are unset. *)
Theorem struct_field_defaults fuel types protocol nodes st c sc l :
  multi_type_info fuel types protocol = Ok (nodes, st) →
  classes !! c = Some (CStruct sc) →
  cache st !! c = Some l →
  ∃ fields,
    heap st !! l
    = Some (StructType c fields (__struct_tag_field__ sc)
              (__struct_tag__ sc) (struct_array_like sc)
              (struct_forbid_unknown_fields sc))
    ∧ Forall2
        (λ (item : string * (string * default_obj)) f,
           Field.name f = item.1
           ∧ Field.encode_name f = item.2.1
           ∧ (Field.required f = true ↔ item.2.2 = _nodefault)
           ∧ match item.2.2 with
             | _Factory factory =>
                 Field.default_factory f = factory
                 ∧ Field.default f = UNSET
                 ∧ Field.required f = false
             | DefaultValue v =>
                 Field.default f = v
                 ∧ Field.default_factory f = UNSET
                 ∧ Field.required f = false
             | _nodefault =>
                 Field.default f = UNSET
                 ∧ Field.default_factory f = UNSET
                 ∧ Field.required f = true
             end)
        (zip (__struct_fields__ sc)
           (zip (__struct_encode_fields__ sc)
              (replicate (length (__struct_fields__ sc)
                          - length (__struct_defaults__ sc))%nat _nodefault
               ++ __struct_defaults__ sc)))
        fields.
Proof.
  intros Hrun Hci Hc.
  destruct (cached_class_fields _ _ _ _ _ _ _ Hrun Hc)
    as (ci & out & fields & Hci' & Hout & Hheap & Hfields).
  rewrite Hci in Hci'. injection Hci' as <-.
  injection Hout as <-. exists fields. split; [done|].
  simpl in Hfields. unfold struct_field_specs in Hfields.
  apply Forall2_fmap_l in Hfields.
  eapply Forall2_impl; [done|].
  intros [name [encode_name obj]] f. simpl.
  destruct obj; simpl; intros (-> & -> & -> & -> & -> & _);
    repeat split; done.
Qed.

Lemma sorted_items_Sorted (hints : gmap string descr) :
  Sorted String.le (sorted_items hints).*1.
Proof.
  unfold sorted_items.
  assert (Sorted (λ x y : string * descr, String.le x.1 y.1)
            (isort (λ x y, String.leb x.1 y.1) (map_to_list hints))) as Hs.
  { apply isort_Sorted.
    - intros x y. destruct (total String.le x.1 y.1); [by left|by right].
    - intros a b. apply String_leb_le. }
  induction Hs as [|x l Hl IH Hhd]; csimpl; [constructor|].
  constructor; [done|]. destruct Hhd; csimpl; by constructor.
Qed.

(** C9: in the node of a TypedDict class the fields are in ascending
    order of their names, one per declared key; the encoded name of a
    field is its name, no field has a default, and a field is required
    when its name is in [__required_keys__] or, when the class has no
    such attribute, when the class is total. *)
Theorem typeddict_fields_sorted fuel types protocol nodes st c td l :
  multi_type_info fuel types protocol = Ok (nodes, st) →
  classes !! c = Some (CTypedDict td) →
  cache st !! c = Some l →
  ∃ fields,
    heap st !! l = Some (TypedDictType c fields)
    ∧ Sorted String.le (Field.name <$> fields)
    ∧ Field.name <$> fields ≡ₚ (map_to_list (typeddict_hints td)).*1
    ∧ Forall
        (λ f,
           Field.encode_name f = Field.name f
           ∧ Field.default f = UNSET
           ∧ Field.default_factory f = UNSET
           ∧ is_Some (typeddict_hints td !! Field.name f)
           ∧ (∀ keys, __required_keys__ td = Some keys →
                (Field.required f = true ↔ Field.name f ∈ keys))
           ∧ (__required_keys__ td = None →
                Field.required f = __total__ td))
        fields.
Proof.
  intros Hrun Hci Hc.
  destruct (cached_class_fields _ _ _ _ _ _ _ Hrun Hc)
    as (ci & out & fields & Hci' & Hout & Hheap & Hfields).
  rewrite Hci in Hci'. injection Hci' as <-.
  injection Hout as <-. exists fields. split; [done|].
  simpl in Hfields. unfold typeddict_field_specs in Hfields.
  apply Forall2_fmap_l in Hfields.
  assert (Field.name <$> fields = (sorted_items (typeddict_hints td)).*1)
    as Hnames.
  { clear -Hfields. induction Hfields as [|x f xs fs Hxf _ IH]; csimpl;
      [done|].
    destruct Hxf as (-> & _). simpl. by rewrite IH. }
  split; [rewrite Hnames; apply sorted_items_Sorted|].
  split.
  { rewrite Hnames. unfold sorted_items. by rewrite isort_Permutation. }
  assert (Forall (λ x : string * descr,
                    typeddict_hints td !! x.1 = Some x.2)
            (sorted_items (typeddict_hints td))) as Hin.
  { apply Forall_forall. intros [k d] Hkd. simpl.
    apply elem_of_map_to_list. unfold sorted_items in Hkd.
    by rewrite isort_Permutation in Hkd. }
  clear Hnames Hheap. induction Hfields as [|x f xs fs Hxf _ IH]; [constructor|].
  apply Forall_cons in Hin as [Hx Hin].
  constructor; [|by apply IH].
  simpl in Hxf. destruct Hxf as (Hn & He & Hr & Hd & Hdf & _).
  rewrite He, Hn, Hd, Hdf, Hr, Hx. split_and!; try done.
  - unfold typeddict_required. intros keys ->.
    by rewrite bool_decide_eq_true.
  - unfold typeddict_required. intros ->. destruct (__total__ td); [|done].
    rewrite Hx. by apply bool_decide_eq_true.
Qed.


(** *** Termination *)

Lemma descr_size_elem a (l : list descr) :
  a ∈ l → (descr_size a ≤ foldr (λ a n, descr_size a + n) 0 l)%nat.
Proof.
  induction 1 as [|? ? ? _ IH]; simpl; lia.
Qed.

Lemma strip_wrappers_size t md t' md' :
  strip_wrappers t md = (t', md') → (descr_size t' ≤ descr_size t)%nat.
Proof.
  revert md. induction t as [o|o args|args|t IH ms|t IH]; intros md; simpl;
    try (intros [= <- _]; simpl; lia).
  - intros H%IH. lia.
  - destruct t as [[]| | | |];
      try (intros H%IH; simpl in *; lia).
    destruct v; try (intros H%IH; simpl in *; lia).
    intros [= <- _]. simpl. lia.
Qed.

Lemma normal_args_size typ t args metadata a :
  _origin_args_metadata typ = (t, Some args, metadata) → a ∈ args →
  (descr_size a < descr_size typ)%nat.
Proof.
  unfold _origin_args_metadata.
  destruct (strip_wrappers typ []) as [t0 md] eqn:Hs.
  apply strip_wrappers_size in Hs. intros H Ha.
  apply descr_size_elem in Ha.
  destruct t0 as [o|o args0|args0|t0 ms|t0]; simpl in *.
  - by destruct (_CONCRETE_TYPES (DObj o)).
  - destruct (_CONCRETE_TYPES (DAlias o args0)); [done|].
    injection H as _ -> _. lia.
  - injection H as _ <- _. lia.
  - by destruct (_CONCRETE_TYPES (DAnnotated t0 ms)).
  - by destruct (_CONCRETE_TYPES (DNewType t0)).
Qed.

Lemma children_args t args d :
  d ∈ children t args → ∃ l, args = Some l ∧ d ∈ l.
Proof.
  destruct t as [o| | | |]; simpl; try by intros ?%elem_of_nil.
  destruct o; simpl; try by intros ?%elem_of_nil.
  - destruct args as [[|a l]|]; try by intros ?%elem_of_nil.
    intros ->%list_elem_of_singleton. eexists; split; [done|]. by left.
  - destruct args as [[|a l]|]; try by intros ?%elem_of_nil.
    intros ->%list_elem_of_singleton. eexists; split; [done|]. by left.
  - destruct args as [[|a l]|]; try by intros ?%elem_of_nil.
    intros ->%list_elem_of_singleton. eexists; split; [done|]. by left.
  - destruct args as [l|]; [|simpl; by intros ?%elem_of_nil].
    assert (∀ l', (tuple_args (Some l) = Some l' →
              d ∈ (if is_variadic l' then take 1 l' else l') → d ∈ l))
      as Haux.
    { intros l' Hl' Hd.
      assert (d ∈ l') as Hd'.
      { destruct (is_variadic l'); [|done].
        by eapply subseteq_take. }
      unfold tuple_args in Hl'. destruct l as [|x [|??]]; try by simplify_eq.
      destruct (is_empty_tuple x); simplify_eq; [by apply elem_of_nil in Hd'|done]. }
    destruct (tuple_args (Some l)) as [l'|] eqn:E;
      [|by intros ?%elem_of_nil].
    intros Hd. exists l. split; [done|]. by eapply Haux.
  - destruct args as [[|k [|v l]]|]; try by intros ?%elem_of_nil.
    + intros ->%list_elem_of_singleton. eexists; split; [done|]. by left.
    + intros Hd. eexists; split; [done|].
      apply elem_of_cons in Hd as [->|Hd]; [by left|].
      apply list_elem_of_singleton in Hd as ->. right. by left.
  - destruct args as [l|]; simpl; [eauto|by intros ?%elem_of_nil].
Qed.

Lemma uncached_ext st st' : ext st st' → (uncached classes st' ≤ uncached classes st)%nat.
Proof.
  intros (_ & Hc & _). unfold uncached. apply subseteq_size.
  apply subseteq_dom in Hc. set_solver.
Qed.

Lemma uncached_insert st c ci l th h :
  classes !! c = Some ci → cache st !! c = None →
  (uncached classes (mkState th (<[c := l]> (cache st)) h)
   < uncached classes st)%nat.
Proof.
  intros Hci Hmiss. unfold uncached. simpl. apply subset_size.
  rewrite dom_insert_L.
  assert (c ∈ dom classes) by (apply elem_of_dom; eauto).
  assert (c ∉ dom (cache st)) by by apply not_elem_of_dom.
  set_solver.
Qed.

Lemma le_M_steps {A B} (f : nat → A → M B) n n' a :
  (∀ n a, le_M (f n a) (f (S n) a)) → (n ≤ n')%nat →
  le_M (f n a) (f n' a).
Proof.
  intros Hf. induction 1 as [|n' _ IH]; [apply le_M_refl|].
  intros st Hne. rewrite <- (IH st Hne). apply Hf. by rewrite (IH st Hne).
Qed.

(** A loop over calls that each return with some budget returns with
    some budget, when a larger budget never hurts. *)
Lemma mapM_terminates {A B} (f : nat → A → M B) (good : state → Prop) l :
  (∀ n a, le_M (f n a) (f (S n) a)) →
  (∀ n a st b st', f n a st = Ok (b, st') → good st → good st') →
  (∀ a, a ∈ l → ∀ st, good st → ∃ n, f n a st ≠ Raise OutOfFuel) →
  ∀ st, good st → ∃ n, mapM (f n) l st ≠ Raise OutOfFuel.
Proof.
  intros Hmono Hgood. induction l as [|a l IH]; intros Hterm st Hst.
  { by exists 0%nat. }
  destruct (Hterm a (list_elem_of_here _ _) st Hst) as [n1 Hn1].
  destruct (f n1 a st) as [[b st1]|e] eqn:E.
  - destruct (IH (λ a' Ha', Hterm a' (list_elem_of_further _ _ _ Ha')) st1)
      as [n2 Hn2]; [by eapply Hgood|].
    exists (n1 `max` n2)%nat. simpl. unfold bind.
    rewrite (le_M_steps f n1 (n1 `max` n2) a Hmono) by (lia || by rewrite E).
    rewrite E.
    pose proof (le_M_mapM (f n2) (f (n1 `max` n2)%nat) l) as Hm.
    rewrite Hm; [|intros a'; apply le_M_steps; [done|lia]|done].
    by destruct (mapM (f n2) l st1) as [[??]|?].
  - exists n1. simpl. unfold bind. rewrite E. congruence.
Qed.

Lemma build_field_S fuel s :
  le_M (build_field (translate fuel) s) (build_field (translate (S fuel)) s).
Proof. apply le_M_build_field. intros d. apply translate_S. Qed.

Lemma sorted_not_OutOfFuel args : sorted args ≠ Raise OutOfFuel.
Proof. unfold sorted. repeat case_match; done. Qed.

Lemma assemble_not_OutOfFuel t args c items :
  assemble classes t args c items ≠ Raise OutOfFuel.
Proof.
  destruct t as [o| | | |]; try done.
  destruct o as [| | | | | | | | | | | | | | | | | | | | | |cl| |v];
    try done; simpl.
  - destruct (tuple_args args) as [l|]; [|done]. by destruct (is_variadic l).
  - by destruct args as [[|k [|??]]|].
  - by destruct args.
  - destruct args as [l|]; [|done].
    pose proof (sorted_not_OutOfFuel l). destruct (sorted l); [done|].
    simpl. congruence.
  - by destruct (classes !! cl) as [[]|].
  - by destruct v.
Qed.

Lemma translate_terminates_bounded k :
  ∀ typ st, (uncached classes st ≤ k)%nat →
            ∃ fuel, translate fuel typ st ≠ Raise OutOfFuel.
Proof.
  induction k as [k IHk] using lt_wf_ind. intros typ.
  induction typ as [typ IHsize] using (induction_ltof1 _ descr_size).
  unfold ltof in IHsize. intros st Hk.
  destruct (_origin_args_metadata typ) as [[t args] metadata] eqn:Hnorm.
  assert (∀ fuel, translate (S fuel) typ st =
            (let* out := _translate_inner (translate fuel) t args
                 (fold_left Constrs.absorb metadata Constrs.empty) in
             ret (wrap_metadata out
                    (fold_left (absorb_schema _to_builtins) metadata [])
                    (fold_left absorb_extra metadata []))) st) as Hstep.
  { intros fuel. apply (translate_body_eq _ _ _ _ _ _ Hnorm). }
  assert (∀ fuel, _translate_inner (translate fuel) t args
                    (fold_left Constrs.absorb metadata Constrs.empty) st
                  ≠ Raise OutOfFuel →
                  translate (S fuel) typ st ≠ Raise OutOfFuel) as Hwrap.
  { intros fuel Hne. rewrite Hstep. unfold bind.
    destruct (_translate_inner _ _ _ _ st) as [[??]|?]; [done|congruence]. }
  destruct (object_parts classes t) as [[[cl ci] out]|] eqn:Hobj.
  - (* an object-like class *)
    apply object_parts_Some in Hobj as (-> & Hci & Hout).
    destruct (cache st !! cl) as [l|] eqn:Hc.
    { exists 1%nat. apply Hwrap. rewrite _translate_inner_view. simpl.
      rewrite Hci, Hout. by rewrite (translate_object_hit _ _ _ _ _ _ Hc). }
    set (st1 := mkState (type_hints st) (<[cl := length (heap st)]> (cache st))
                  (heap st ++ [out])).
    destruct (_get_type_hints cl ci st1) as [[hints st2]|e] eqn:Hh;
      [|by unfold _get_type_hints in Hh; destruct (type_hints st1 !! cl)].
    assert (uncached classes st2 < uncached classes st)%nat as Hlt.
    { eapply Nat.le_lt_trans; [eapply uncached_ext, Ext__get_type_hints;
                                exact Hh|].
      by eapply uncached_insert. }
    destruct (mapM_terminates
                (λ fuel, build_field (translate fuel))
                (λ s, (uncached classes s ≤ uncached classes st2)%nat)
                (field_specs ci hints)) with (st := st2) as [fuel Hfuel].
    + apply build_field_S.
    + intros n s s0 b s0' Hb Hs0. etrans; [|done].
      eapply uncached_ext, Ext_build_field; [|done].
      intros d. apply Ext_translate.
    + intros s _ s0 Hs0. unfold build_field.
      destruct (fs_hint s) as [d|]; [|by exists 0%nat].
      destruct (IHk (uncached classes st2) ltac:(lia) d s0 Hs0) as [n Hn].
      exists n. unfold bind.
      destruct (translate n d s0) as [[??]|?]; [by unfold ret|congruence].
    + done.
    + exists (S fuel). apply Hwrap. rewrite _translate_inner_view. simpl.
      rewrite Hci, Hout. unfold translate_object. rewrite Hc.
      unfold bind at 1. unfold cache_new. fold st1.
      unfold bind at 1. rewrite Hh. unfold bind at 1.
      destruct (mapM _ (field_specs ci hints) st2) as [[fs st3]|e];
        [done|congruence].
  - (* the arguments *)
    destruct (mapM_terminates translate
                (λ s, (uncached classes s ≤ k)%nat)
                (children t args)) with (st := st) as [fuel Hfuel].
    + apply translate_S.
    + intros n d s0 b s0' Hb Hs0. etrans; [|done].
      eapply uncached_ext, Ext_translate. done.
    + intros d Hd s0 Hs0.
      apply children_args in Hd as (l & -> & Hd).
      apply IHsize; [|done]. by eapply normal_args_size.
    + done.
    + exists (S fuel). apply Hwrap. rewrite _translate_inner_view, Hobj.
      unfold bind.
      destruct (mapM (translate fuel) (children t args) st) as [[items st1]|e];
        [|congruence].
      unfold lift.
      pose proof (assemble_not_OutOfFuel t args
                    (fold_left Constrs.absorb metadata Constrs.empty) items).
      destruct (assemble _ _ _ _ items); [done|congruence].
Qed.

(** Every call of [translate] returns, with a node or with a Python
    exception, once the budget is large enough. *)
Lemma translate_terminates typ st :
  ∃ fuel, ∀ fuel', (fuel ≤ fuel')%nat →
    translate fuel' typ st = translate fuel typ st
    ∧ translate fuel typ st ≠ Raise OutOfFuel.
Proof.
  destruct (translate_terminates_bounded _ typ st (Nat.le_refl _))
    as [fuel Hfuel].
  exists fuel. intros fuel' Hle. split; [|done].
  by apply translate_fuel_mono.
Qed.


(** *** Cyclic classes *)

Lemma translate_class_eq fuel typ cl ci out args metadata st :
  _origin_args_metadata typ = (DObj (py_class cl), args, metadata) →
  classes !! cl = Some ci → placeholder cl ci = Some out →
  translate (S fuel) typ st =
  (let* node := translate_object (translate fuel) cl ci out in
   ret (wrap_metadata node
          (fold_left (absorb_schema _to_builtins) metadata [])
          (fold_left absorb_extra metadata []))) st.
Proof.
  intros Hnorm Hci Hout.
  change (translate (S fuel) typ st)
    with (translate_body (translate fuel) typ st).
  rewrite (translate_body_eq _ _ _ _ _ _ Hnorm). unfold bind.
  rewrite _translate_inner_view. simpl. by rewrite Hci, Hout.
Qed.

(** Each field is the translation of its declared type in some state
    reached after the loop over the fields has started. *)
Lemma fields_translated rec specs st fields st' i s :
  (∀ d, Ext (rec d)) →
  mapM (build_field rec) specs st = Ok (fields, st') →
  specs !! i = Some s →
  ∃ f d st_a st_b,
    fields !! i = Some f ∧ fs_hint s = Some d
    ∧ ext st st_a ∧ rec d st_a = Ok (Field.type f, st_b).
Proof.
  intros Hrec. revert st fields i.
  induction specs as [|s0 specs IH]; intros st fields i; [done|]. simpl.
  intros (f & st1 & H1 & (fs & st2 & H2 & [= <- <-])%bind_Ok)%bind_Ok Hi.
  destruct i as [|i]; simpl in *.
  - injection Hi as ->. unfold build_field in H1.
    destruct (fs_hint s) as [d|]; [|done].
    apply bind_Ok in H1 as (ty & st0 & Hty & [= <- <-]).
    exists (Field.mk (fs_name s) (fs_encode_name s) ty (fs_required s)
              (fs_default s) (fs_default_factory s)), d, st, st0.
    split_and!; done.
  - destruct (IH _ _ _ H2 Hi) as (f' & d & st_a & st_b & ? & ? & ? & ?).
    exists f', d, st_a, st_b. split_and!; try done.
    eapply ext_trans; [|done].
    by apply (Ext_build_field rec s0 Hrec _ _ _ H1).
Qed.

Lemma translate_cached_class fuel d cl ci out args st l :
  _origin_args_metadata d = (DObj (py_class cl), args, []) →
  classes !! cl = Some ci → placeholder cl ci = Some out →
  cache st !! cl = Some l →
  translate (S fuel) d st = Ok (ObjRef l, st).
Proof.
  intros Hnorm Hci Hout Hc.
  rewrite (translate_class_eq _ _ _ _ _ _ _ _ Hnorm Hci Hout).
  unfold bind. by rewrite (translate_object_hit _ _ _ _ _ _ Hc).
Qed.

(** C3: for an object-like class that the run has not seen, the
    placeholder (no fields) is in the cache, under the class, before the
    first field type is translated, and when the call returns the same
    node holds the fields; every later reference to the class, in any
    later state of the run, returns that node and changes nothing.  So
    a field whose declared type is the class itself refers to the node
    of the class, and no call recurses without bound: with a large
    enough budget it returns. *)
Theorem cyclic_class_translated_once fuel typ cl ci out args metadata st :
  _origin_args_metadata typ = (DObj (py_class cl), args, metadata) →
  classes !! cl = Some ci → placeholder cl ci = Some out →
  let wrap node :=
    wrap_metadata node (fold_left (absorb_schema _to_builtins) metadata [])
      (fold_left absorb_extra metadata []) in
  (* first reference *)
  (∀ n st', cache st !! cl = None →
     translate (S fuel) typ st = Ok (n, st') →
     ∃ hints st2 fields st3,
       let l := length (heap st) in
       cache st2 !! cl = Some l
       ∧ heap st2 !! l = Some out ∧ obj_fields out = []
       ∧ (type_hints st !! cl = None → hints = get_type_hints ci)
       ∧ mapM (build_field (translate fuel)) (field_specs ci hints) st2
         = Ok (fields, st3)
       ∧ n = wrap (ObjRef l)
       ∧ cache st' !! cl = Some l
       ∧ heap st' !! l = Some (set_fields fields out)
       (* a field declared with the class itself *)
       ∧ ∀ i s d args',
           field_specs ci hints !! i = Some s → fs_hint s = Some d →
           _origin_args_metadata d = (DObj (py_class cl), args', []) →
           ∃ f, fields !! i = Some f ∧ Field.type f = ObjRef l)
  (* later references *)
  ∧ (∀ l, cache st !! cl = Some l →
       translate (S fuel) typ st = Ok (wrap (ObjRef l), st))
  ∧ (∀ l fuel' typ' n st', cache st !! cl = Some l →
       translate fuel' typ' st = Ok (n, st') → cache st' !! cl = Some l)
  (* no unbounded recursion *)
  ∧ ∃ fuel0, ∀ fuel', (fuel0 ≤ fuel')%nat →
      translate fuel' typ st = translate fuel0 typ st
      ∧ translate fuel0 typ st ≠ Raise OutOfFuel.
Proof.
  intros Hnorm Hci Hout wrap.
  destruct (placeholder_cls _ _ _ Hout) as [Hcls Hnil].
  split; [|split; [|split]].
  - intros n st' Hmiss H.
    rewrite (translate_class_eq _ _ _ _ _ _ _ _ Hnorm Hci Hout) in H.
    apply bind_Ok in H as (node & st0 & H & [= <- <-]).
    apply (translate_object_miss _ _ _ _ _ _ _ Hmiss) in H
      as (hints & st2 & fields & st3 & H2 & H3 & -> & ->).
    pose proof (Ext__get_type_hints _ _ _ _ _ H2) as (_ & Hc2 & Hh2).
    pose proof (Ext_mapM _ _ (λ s, Ext_build_field _ s (Ext_translate fuel))
                  _ _ _ H3) as (_ & Hc3 & Hh3).
    simpl in Hc2, Hh2.
    assert (cache st2 !! cl = Some (length (heap st))) as Hcl2.
    { eapply lookup_weaken; [|done]. apply lookup_insert_eq. }
    assert (heap st2 !! length (heap st) = Some out) as Hl2.
    { eapply prefix_lookup_Some; [|done].
      by rewrite lookup_app_r, Nat.sub_diag. }
    exists hints, st2, fields, st3. simpl.
    split_and!; try done.
    + intros Hth. unfold _get_type_hints in H2. simpl in H2.
      rewrite Hth in H2. by injection H2 as <- _.
    + by eapply lookup_weaken.
    + rewrite list_lookup_alter_eq.
      by rewrite (prefix_lookup_Some _ _ _ _ Hl2 Hh3).
    + intros i s d args' Hs Hd Hnorm'.
      destruct (fields_translated _ _ _ _ _ _ _ (Ext_translate fuel) H3 Hs)
        as (f & d' & st_a & st_b & Hf & Hd' & (_ & Hca & _) & Hty).
      exists f. split; [done|].
      assert (d' = d) as -> by congruence.
      destruct fuel as [|fuel]; [done|].
      rewrite (translate_cached_class fuel d cl ci out args' st_a
                 (length (heap st))) in Hty; [congruence|done..|].
      by eapply lookup_weaken.
  - intros l Hc.
    rewrite (translate_class_eq _ _ _ _ _ _ _ _ Hnorm Hci Hout).
    unfold bind. by rewrite (translate_object_hit _ _ _ _ _ _ Hc).
  - intros l fuel' typ' n st' Hc H.
    apply Ext_translate in H as (_ & Hsub & _). by eapply lookup_weaken.
  - apply translate_terminates.
Qed.

(** *** Unions *)

Lemma translate_Union_members fuel typ args metadata st n st' :
  _origin_args_metadata typ = (DObj py_Union, Some args, metadata) →
  translate (S fuel) typ st = Ok (n, st') →
  ∃ types,
    mapM (translate fuel) args st = Ok (types, st')
    ∧ length types = length args
    ∧ n = wrap_metadata (UnionType types)
            (fold_left (absorb_schema _to_builtins) metadata [])
            (fold_left absorb_extra metadata []).
Proof.
  intros Hnorm H.
  change (translate (S fuel) typ st)
    with (translate_body (translate fuel) typ st) in H.
  rewrite (translate_body_eq _ _ _ _ _ _ Hnorm) in H.
  apply bind_Ok in H as (node & st0 & H & [= <- <-]).
  rewrite _translate_inner_Union in H.
  apply bind_Ok in H as (types & st1 & H & [= <- <-]).
  exists types. split; [done|]. split; [|done].
  by eapply mapM_Ok_length.
Qed.


(** *** Two runs over the same classes *)

Lemma pure_mapM {A B} (f : A → M B) l st bs :
  (∀ a, Ext (f a)) → mapM f l st = Ok (bs, st) →
  Forall2 (λ a b, f a st = Ok (b, st)) l bs.
Proof.
  intros Hf. revert bs. induction l as [|a l IH]; intros bs; simpl.
  - intros [= <-]. constructor.
  - intros (b & st1 & H1 & (bs' & st2 & H2 & [= <- ->])%bind_Ok)%bind_Ok.
    assert (st1 = st) as ->.
    { symmetry. apply ext_antisym; [by eapply Hf|].
      by eapply (Ext_mapM f l Hf). }
    constructor; [done|by apply IH].
Qed.

Lemma rename_wrap_metadata ρ out schema extra :
  rename ρ (wrap_metadata out schema extra)
  = wrap_metadata (rename ρ out) schema extra.
Proof. unfold wrap_metadata. by destruct (_ || _). Qed.

Lemma rename_hd ρ items :
  hd AnyType (map (rename ρ) items) = rename ρ (hd AnyType items).
Proof. by destruct items. Qed.

Lemma assemble_rename ρ t args c items :
  assemble classes t args c (map (rename ρ) items)
  = result_map (rename ρ) (assemble classes t args c items).
Proof.
  destruct t as [o| | | |]; try done.
  destruct o as [| | | | | | | | | | | | | | | | | | | | | |cl| |v];
    try done; simpl; rewrite ?rename_hd; try done.
  - destruct (tuple_args args) as [l|]; [|done].
    destruct (is_variadic l); simpl; by rewrite ?rename_hd.
  - destruct args as [[|k [|??]]|]; try done. simpl.
    destruct items as [|? [|??]]; done.
  - by destruct args.
  - destruct args as [l|]; [|done]. by destruct (sorted l).
  - by destruct (classes !! cl) as [[]|].
  - by destruct v.
Qed.

Lemma assemble_is_Ok t args c items items' :
  is_Ok (assemble classes t args c items) →
  is_Ok (assemble classes t args c items').
Proof.
  destruct t as [o| | | |]; try done.
  destruct o as [| | | | | | | | | | | | | | | | | | | | | |cl| |v];
    try done; simpl.
  - destruct (tuple_args args) as [l|]; [|done]. by destruct (is_variadic l).
  - by destruct args as [[|k [|??]]|].
  - by destruct args.
Qed.

(** Two runs that both return without changing their state return the
    same node, up to the renaming of the nodes of the classes. *)
Lemma rename_translate ρ st1 st2 fuel1 :
  agree ρ st1 st2 →
  ∀ fuel2 typ n1 n2,
    translate fuel1 typ st1 = Ok (n1, st1) →
    translate fuel2 typ st2 = Ok (n2, st2) →
    rename ρ n1 = n2.
Proof.
  intros Hag. induction fuel1 as [|fuel1 IH]; [done|].
  intros [|fuel2] typ n1 n2; [done|].
  change (translate (S fuel1) typ st1)
    with (translate_body (translate fuel1) typ st1).
  change (translate (S fuel2) typ st2)
    with (translate_body (translate fuel2) typ st2).
  destruct (_origin_args_metadata typ) as [[t args] metadata] eqn:Hnorm.
  rewrite !(translate_body_eq _ _ _ _ _ _ Hnorm).
  intros (out1 & st1' & H1 & [= <- <-])%bind_Ok.
  intros (out2 & st2' & H2 & [= <- <-])%bind_Ok.
  rewrite rename_wrap_metadata. f_equal.
  rewrite _translate_inner_view in H1, H2.
  destruct (object_parts classes t) as [[[cl ci] out]|].
  - apply translate_object_cached in H1 as (l1 & -> & Hl1);
      [|apply Ext_translate].
    apply translate_object_cached in H2 as (l2 & -> & Hl2);
      [|apply Ext_translate].
    simpl. f_equal. by eapply Hag.
  - apply bind_Ok in H1 as (items1 & sa & H1 & Ha1).
    apply bind_Ok in H2 as (items2 & sb & H2 & Ha2).
    unfold lift in Ha1, Ha2.
    destruct (assemble _ _ _ _ items1) as [o1|] eqn:E1; [|done].
    destruct (assemble _ _ _ _ items2) as [o2|] eqn:E2; [|done].
    injection Ha1 as -> ->. injection Ha2 as -> ->.
    apply pure_mapM in H1; [|apply Ext_translate].
    apply pure_mapM in H2; [|apply Ext_translate].
    assert (map (rename ρ) items1 = items2) as <-.
    { clear E1 E2. revert items2 H2.
      induction H1 as [|d n ds ns Hd _ IHds]; intros items2 H2.
      - by inv H2.
      - inv H2. simpl. f_equal; [by eapply IH|by apply IHds]. }
    rewrite assemble_rename, E1 in E2. by injection E2.
Qed.

Lemma rename_fields ρ st1 st2 fuel1 fuel2 specs fs1 fs2 :
  agree ρ st1 st2 →
  mapM (build_field (translate fuel1)) specs st1 = Ok (fs1, st1) →
  mapM (build_field (translate fuel2)) specs st2 = Ok (fs2, st2) →
  map (rename_field ρ) fs1 = fs2.
Proof.
  intros Hag H1 H2.
  apply pure_mapM in H1; [|intros; apply Ext_build_field, Ext_translate].
  apply pure_mapM in H2; [|intros; apply Ext_build_field, Ext_translate].
  revert fs2 H2. induction H1 as [|s f specs fs Hs _ IH]; intros fs2 H2.
  - by inv H2.
  - inv H2. simpl. f_equal; [|by apply IH].
    match goal with H : build_field _ s st2 = _ |- _ => rename H into Hs2 end.
    unfold build_field in Hs, Hs2. destruct (fs_hint s) as [d|]; [|done].
    apply bind_Ok in Hs as (ty1 & sa & Hty1 & [= <- ->]).
    apply bind_Ok in Hs2 as (ty2 & sb & Hty2 & [= <- ->]).
    unfold rename_field. simpl. f_equal. by eapply rename_translate.
Qed.


Lemma bind_not_OutOfFuel {A B} (m : M A) (k : A → M B) st :
  bind m k st ≠ Raise OutOfFuel → m st ≠ Raise OutOfFuel.
Proof. unfold bind. intros H E. by rewrite E in H. Qed.

(** A loop returns when each of its calls returns wherever the same
    call, replayed in [st2], returns. *)
Lemma mapM_no_error {A B} (f1 f2 : A → M B) (G : state → Prop) st2 l :
  (∀ a b2 st1, a ∈ l → f2 a st2 = Ok (b2, st2) → G st1 →
     f1 a st1 ≠ Raise OutOfFuel →
     ∃ b1 st1', f1 a st1 = Ok (b1, st1') ∧ G st1') →
  ∀ bs2 st1,
    Forall2 (λ a b, f2 a st2 = Ok (b, st2)) l bs2 → G st1 →
    mapM f1 l st1 ≠ Raise OutOfFuel →
    ∃ bs1 st1', mapM f1 l st1 = Ok (bs1, st1') ∧ G st1'.
Proof.
  induction l as [|a l IH]; intros Hf bs2 st1 H2 HG Hne.
  { exists [], st1. by split. }
  inv H2. simpl in *.
  destruct (Hf a y st1) as (b1 & st1' & Hb1 & HG');
    [by left|done|done|by eapply bind_not_OutOfFuel|].
  unfold bind in *. rewrite Hb1 in *.
  destruct (IH (λ a' b2 s Ha', Hf a' b2 s (list_elem_of_further _ _ _ Ha'))
              l' st1') as (bs1 & st1'' & Hbs1 & HG''); [done|done| |].
  { intros E. by rewrite E in Hne. }
  rewrite Hbs1. by exists (b1 :: bs1), st1''.
Qed.

(** A run that does not exhaust its budget returns a node for a type
    that a finished run [st2], whose classes include those cached so
    far, has translated. *)
Lemma translate_no_error st2 :
  Inv ∅ st2 →
  ∀ fuel1 typ P st1 fuel2 n2,
    Inv P st1 → dom (cache st1) ⊆ dom (cache st2) →
    translate fuel2 typ st2 = Ok (n2, st2) →
    translate fuel1 typ st1 ≠ Raise OutOfFuel →
    ∃ n1 st1', translate fuel1 typ st1 = Ok (n1, st1')
               ∧ dom (cache st1') ⊆ dom (cache st2).
Proof.
  intros [_ Hclosed]. induction fuel1 as [|fuel1 IH]; [done|].
  intros typ P st1 [|fuel2] n2 HI Hdom; [done|].
  change (translate (S fuel1) typ st1)
    with (translate_body (translate fuel1) typ st1).
  change (translate (S fuel2) typ st2)
    with (translate_body (translate fuel2) typ st2).
  destruct (_origin_args_metadata typ) as [[t args] metadata] eqn:Hnorm.
  rewrite !(translate_body_eq _ _ _ _ _ _ Hnorm).
  intros (out2 & sb & H2 & [= <- ->])%bind_Ok Hne.
  apply bind_not_OutOfFuel in Hne.
  enough (∃ out1 st1',
            _translate_inner (translate fuel1) t args
              (fold_left Constrs.absorb metadata Constrs.empty) st1
            = Ok (out1, st1') ∧ dom (cache st1') ⊆ dom (cache st2))
    as (out1 & st1' & H1 & Hdom').
  { unfold bind. rewrite H1. by eexists _, _. }
  rewrite _translate_inner_view in *.
  destruct (object_parts classes t) as [[[cl ci] out]|] eqn:Hobj.
  - apply object_parts_Some in Hobj as (-> & Hci & Hout).
    apply translate_object_cached in H2 as (l2 & -> & Hl2);
      [|apply Ext_translate].
    destruct (cache st1 !! cl) as [l1|] eqn:Hc.
    { rewrite (translate_object_hit _ _ _ _ _ _ Hc). by eexists _, _. }
    destruct (Hclosed _ _ Hl2) as [?|(o & Ho & ci' & out' & fc & fields2
                                      & Hci' & _ & _ & Hfields2)];
      [set_solver|].
    assert (ci' = ci) as -> by congruence.
    apply pure_mapM in Hfields2;
      [|intros; apply Ext_build_field, Ext_translate].
    unfold translate_object in *. rewrite Hc in *.
    unfold bind at 1 in Hne. unfold bind at 1. unfold cache_new in *.
    set (st1a := mkState (type_hints st1)
                   (<[cl := length (heap st1)]> (cache st1))
                   (heap st1 ++ [out])) in *.
    pose proof (Inv_cache_new P st1 cl ci out Hci Hout Hc HI) as HIa.
    fold st1a in HIa.
    unfold bind at 1 in Hne. unfold bind at 1.
    destruct (_get_type_hints cl ci st1a) as [[hints st1b]|e] eqn:Hh;
      [|by unfold _get_type_hints in Hh; destruct (type_hints st1a !! cl)].
    destruct (_get_type_hints_Inv _ _ _ _ _ _ Hci Hh HIa)
      as (-> & HIb & Hcb & Hhb).
    apply bind_not_OutOfFuel in Hne.
    destruct (mapM_no_error
                (build_field (translate fuel1)) (build_field (translate fc))
                (λ s, Inv (P ∪ {[cl]}) s ∧ dom (cache s) ⊆ dom (cache st2))
                st2 (field_specs ci (get_type_hints ci)))
      with (bs2 := fields2) (st1 := st1b)
      as (fields1 & st1c & Hfields1 & _ & Hdomc); try done.
    + intros s f2 s1 _ Hf2 [HIs Hdoms] Hnes. unfold build_field in *.
      destruct (fs_hint s) as [d|]; [|done].
      apply bind_Ok in Hf2 as (ty2 & sb & Hty2 & [= _ ->]).
      apply bind_not_OutOfFuel in Hnes.
      destruct (IH d _ s1 fc ty2 HIs Hdoms Hty2 Hnes)
        as (ty1 & s1' & Hty1 & Hdom1).
      unfold bind. rewrite Hty1. eexists _, _. split; [done|]. split; [|done].
      by eapply Keeps_translate.
    + split; [done|]. rewrite Hcb. simpl. rewrite dom_insert_L.
      apply elem_of_dom_2 in Hl2. set_solver.
    + unfold bind. rewrite Hfields1. by eexists _, _.
  - apply bind_Ok in H2 as (items2 & sb & H2 & Ha2).
    unfold lift in Ha2.
    destruct (assemble _ _ _ _ items2) as [o2|] eqn:E2; [|done].
    injection Ha2 as -> ->.
    apply pure_mapM in H2; [|apply Ext_translate].
    apply bind_not_OutOfFuel in Hne.
    destruct (mapM_no_error (translate fuel1) (translate fuel2)
                (λ s, Inv P s ∧ dom (cache s) ⊆ dom (cache st2))
                st2 (children t args))
      with (bs2 := items2) (st1 := st1)
      as (items1 & st1' & Hitems1 & _ & Hdom'); try done.
    + intros d n s1 _ Hd [HIs Hdoms] Hnes.
      destruct (IH d _ s1 fuel2 n HIs Hdoms Hd Hnes)
        as (n1 & s1' & Hn1 & Hdom1).
      eexists _, _. split; [done|]. split; [|done].
      by eapply Keeps_translate.
    + unfold bind. rewrite Hitems1. unfold lift.
      pose proof (assemble_is_Ok t args
                    (fold_left Constrs.absorb metadata Constrs.empty)
                    items2 items1) as Hok.
      rewrite E2 in Hok. specialize (Hok I).
      destruct (assemble _ _ _ _ items1); [|done]. by eexists _, _.
Qed.


(** *** The two entry points *)

Lemma agree_class_renaming st1 st2 :
  wf classes st1 → agree (class_renaming st1 st2) st1 st2.
Proof.
  intros (_ & Hch & _) c l1 l2 H1 H2. unfold class_renaming.
  destruct (Hch _ _ H1) as (o & -> & ->). by rewrite H2.
Qed.

Lemma obj_fields_set_fields fs o : obj_fields (set_fields fs o) = fs.
Proof. by destruct o. Qed.

Lemma set_fields_set_fields fs fs' o :
  set_fields fs (set_fields fs' o) = set_fields fs o.
Proof. by destruct o. Qed.

Lemma type_info_Ok fuel t protocol n st :
  type_info fuel t protocol = Ok (n, st) ↔
  multi_type_info fuel [t] protocol = Ok ([n], st).
Proof.
  unfold type_info. split.
  - destruct (multi_type_info fuel [t] protocol) as [[nodes st']|e] eqn:E;
      [|done].
    apply run_Ok, mapM_Ok_length in E.
    destruct nodes as [|n' [|??]]; try done. by intros [= -> ->].
  - by intros ->.
Qed.

Lemma type_info_Raise fuel t protocol e :
  type_info fuel t protocol = Raise e ↔
  multi_type_info fuel [t] protocol = Raise e.
Proof.
  unfold type_info.
  destruct (multi_type_info fuel [t] protocol) as [[nodes st']|e'] eqn:E;
    [|split; by intros [= ->]].
  apply run_Ok, mapM_Ok_length in E.
  by destruct nodes as [|n' [|??]].
Qed.

(** The node a single-type call returns for a root of a finished batch,
    and how it relates to the node of the batch. *)
Lemma single_of_batch fuel types nodes st t n :
  mapM (translate fuel) types init_state = Ok (nodes, st) →
  translate fuel t st = Ok (n, st) →
  ∃ fuel1 n1 st1,
    translate fuel1 t init_state = Ok (n1, st1)
    ∧ rename (class_renaming st1 st) n1 = n
    ∧ ∀ l o, heap st1 !! l = Some o →
        heap st !! class_renaming st1 st l
        = Some (rename_obj (class_renaming st1 st) o).
Proof.
  intros Hbatch Ht.
  assert (Inv ∅ st) as HI.
  { eapply (Keeps_mapM _ _ (Keeps_translate fuel)); [done|apply Inv_init]. }
  destruct (translate_terminates_bounded _ t init_state (Nat.le_refl _))
    as [fuel1 Hfuel1].
  destruct (translate_no_error st HI fuel1 t ∅ init_state fuel n)
    as (n1 & st1 & H1 & Hdom); [apply Inv_init|set_solver|done|done|].
  assert (Inv ∅ st1) as HI1 by (eapply Keeps_translate; [done|apply Inv_init]).
  pose proof (agree_class_renaming st1 st (proj1 HI1)) as Hag.
  exists fuel1, n1, st1. split; [done|]. split.
  - eapply rename_translate; [done| |done].
    by apply (Replay_translate _ _ _ _ _ H1).
  - intros l o Ho. destruct HI1 as [(_ & Hch1 & Hhc1) Hent1].
    pose proof (Hhc1 _ _ Ho) as Hc1.
    assert (is_Some (cache st !! obj_cls o)) as [l2 Hc2].
    { apply elem_of_dom, Hdom, elem_of_dom. eauto. }
    rewrite (Hag _ _ _ Hc1 Hc2).
    destruct (Hent1 _ _ Hc1)
      as [?|(o1 & Ho1 & ci & out & f1 & fs1 & Hci & Hout & -> & Hfs1)];
      [set_solver|].
    destruct HI as [_ Hent].
    destruct (Hent _ _ Hc2)
      as [?|(o2 & Ho2 & ci' & out' & f2 & fs2 & Hci' & Hout' & -> & Hfs2)];
      [set_solver|].
    assert (o = set_fields fs1 out) as -> by congruence.
    rewrite Ho2. f_equal.
    assert (ci' = ci) as -> by congruence.
    assert (out' = out) as -> by congruence.
    unfold rename_obj.
    rewrite obj_fields_set_fields, set_fields_set_fields.
    f_equal. symmetry. by eapply rename_fields.
Qed.

(** C1: the single-type entry point returns the sole node of the batch
    entry point called with that type alone, and raises what it
    raises.  A batch that returns has one node per root, in the order
    of the roots; the single-type entry point returns for each root
    and its node is the node of the batch, up to the renaming of heap
    locations, with the nodes it points to holding the same fields.
    (The decoder constructors are outside this file: the statement
    assumes that the roots of an accepted batch are accepted one by
    one.) *)
Theorem batch_agrees_with_single fuel types protocol :
  (∀ t n st,
     type_info fuel t protocol = Ok (n, st) ↔
     multi_type_info fuel [t] protocol = Ok ([n], st))
  ∧ (∀ t e,
       type_info fuel t protocol = Raise e ↔
       multi_type_info fuel [t] protocol = Raise e)
  ∧ ∀ Decoder nodes st,
      select_decoder protocol = Ok Decoder →
      (Decoder types = None → ∀ t, t ∈ types → Decoder [t] = None) →
      multi_type_info fuel types protocol = Ok (nodes, st) →
      length nodes = length types
      ∧ ∀ i t n, types !! i = Some t → nodes !! i = Some n →
          ∃ fuel1 n1 st1 ρ,
            type_info fuel1 t protocol = Ok (n1, st1)
            ∧ rename ρ n1 = n
            ∧ ∀ l o, heap st1 !! l = Some o →
                heap st !! ρ l = Some (rename_obj ρ o).
Proof.
  split; [intros; apply type_info_Ok|].
  split; [intros; apply type_info_Raise|].
  intros Decoder nodes st Hsel Hgate Hrun.
  assert (Decoder types = None) as Hpass.
  { unfold multi_type_info, run in Hrun. rewrite Hsel in Hrun.
    by destruct (Decoder types). }
  pose proof (run_Ok _ _ _ _ _ Hrun) as Hbatch.
  split; [by eapply mapM_Ok_length|].
  intros i t n Hi Hn.
  assert (translate fuel t st = Ok (n, st)) as Ht.
  { assert (mapM (translate fuel) types st = Ok (nodes, st)) as Hreplay.
    { eapply (Replay_mapM (translate fuel)); [| |done|done].
      - intros. apply Ext_translate.
      - intros. apply Replay_translate. }
    apply pure_mapM in Hreplay; [|apply Ext_translate].
    by eapply Forall2_lookup_lr in Hreplay. }
  destruct (single_of_batch _ _ _ _ _ _ Hbatch Ht)
    as (fuel1 & n1 & st1 & H1 & Hren & Hheap).
  exists fuel1, n1, st1, (class_renaming st1 st).
  split; [|by split].
  apply type_info_Ok. unfold multi_type_info.
  rewrite (run_gate_passes fuel1 [t] protocol Decoder Hsel).
  - simpl. unfold bind. by rewrite H1.
  - apply Hgate; [done|]. by eapply list_elem_of_lookup_2.
Qed.


End Properties.

(** * Further properties of the translator *)

Section More.

Context (_CONCRETE_TYPES : descr → option descr)
        (_to_builtins : pydict → pydict)
        (classes : gmap cls class_info)
        (MsgpackDecoder JSONDecoder : list descr → option string).

Local Abbreviation translate := (translate _CONCRETE_TYPES _to_builtins classes).
Local Abbreviation translate_body :=
  (translate_body _CONCRETE_TYPES _to_builtins classes).
Local Abbreviation _translate_inner := (_translate_inner classes).
Local Abbreviation _origin_args_metadata :=
  (_origin_args_metadata _CONCRETE_TYPES).
Local Abbreviation multi_type_info :=
  (multi_type_info _CONCRETE_TYPES _to_builtins classes
     MsgpackDecoder JSONDecoder).
Local Abbreviation type_info :=
  (type_info _CONCRETE_TYPES _to_builtins classes MsgpackDecoder JSONDecoder).
Local Abbreviation select_decoder := (select_decoder MsgpackDecoder JSONDecoder).

(** ** The protocol selector *)

(** X1: a protocol selector other than [None], ["msgpack"] and ["json"]
    makes both entry points raise [ValueError], whatever the types, the
    decoders and the budget: no decoder is constructed and nothing is
    translated. *)
Theorem invalid_protocol_raises fuel types type protocol :
  protocol ≠ VNone → protocol ≠ VStr "msgpack" → protocol ≠ VStr "json" →
  multi_type_info fuel types protocol
  = Raise (ValueError "protocol must be one of None, 'msgpack', 'json'")
  ∧ type_info fuel type protocol
    = Raise (ValueError "protocol must be one of None, 'msgpack', 'json'").
Proof.
  intros H1 H2 H3.
  assert (select_decoder protocol
          = Raise (ValueError "protocol must be one of None, 'msgpack', 'json'"))
    as Hsel.
  { destruct protocol as [| | | | |s| | | |]; try done. simpl.
    destruct (String.eqb_spec s "msgpack") as [->|]; [done|].
    by destruct (String.eqb_spec s "json") as [->|]. }
  unfold type_info, multi_type_info, run.
  by rewrite Hsel.
Qed.

(** ** The tuple arm *)

(** X2: both spellings of the empty tuple, [Tuple[()]] with arguments
    [((),)] and [tuple[()]] with arguments [()], give the fixed tuple of
    no items; a bare [tuple] gives the variadic tuple of [Any] with the
    length bounds; [tuple[T, ...]] translates [T] alone, never the
    ellipsis, into a variadic tuple with the length bounds; any other
    argument list gives a fixed tuple of the translated arguments, in
    order, and drops the length bounds. *)
Theorem tuple_arm rec c st :
  _translate_inner rec (DObj py_tuple) (Some [DObj (py_val (VTuple []))]) c st
  = Ok (TupleType [], st)
  ∧ _translate_inner rec (DObj py_tuple) (Some []) c st = Ok (TupleType [], st)
  ∧ _translate_inner rec (DObj py_tuple) None c st
    = Ok (VarTupleType AnyType (Constrs.min_length c) (Constrs.max_length c),
          st)
  ∧ (∀ a, _translate_inner rec (DObj py_tuple)
            (Some [a; DObj (py_val VEllipsis)]) c st
          = (let* item := rec a in
             ret (VarTupleType item (Constrs.min_length c)
                    (Constrs.max_length c))) st)
  ∧ (∀ args, is_variadic args = false →
             (∀ x, args = [x] → is_empty_tuple x = false) →
             _translate_inner rec (DObj py_tuple) (Some args) c st
             = (let* items := mapM rec args in ret (TupleType items)) st).
Proof.
  split_and!; try done.
  intros args Hv Hne.
  destruct args as [|x [|y l]]; [done| |].
  - simpl. by rewrite (Hne x eq_refl).
  - destruct l; simpl in *; [by rewrite Hv|done].
Qed.

(** ** The normaliser *)



(** X4: annotations that are not [Meta] instances change nothing:
    [Annotated[t, x, y, ...]] translates as [t] does, to the same node
    or the same exception. *)
Theorem non_meta_annotations_ignored fuel t vs st :
  translate fuel (DAnnotated t (AOther <$> vs)) st = translate fuel t st.
Proof.
  destruct fuel as [|fuel]; [done|].
  change (translate_body (translate fuel) (DAnnotated t (AOther <$> vs)) st
          = translate_body (translate fuel) t st).
  unfold translate_body.
  assert (_origin_args_metadata (DAnnotated t (AOther <$> vs))
          = _origin_args_metadata t) as ->; [|done].
  unfold _origin_args_metadata. simpl.
  assert (metas_of (AOther <$> vs) = []) as ->; [|done].
  induction vs; [done|]. by csimpl.
Qed.

(** X5: a [NewType] translates as its supertype does, unless the
    supertype is the value [None]: that [NewType] is left as it is, and
    comes out as a custom type when the table does not know it. *)
Theorem newtype_translates_as_supertype fuel supertype st :
  (supertype ≠ DObj (py_val VNone) →
   translate fuel (DNewType supertype) st = translate fuel supertype st)
  ∧ (_CONCRETE_TYPES (DNewType (DObj (py_val VNone))) = None →
     translate (S fuel) (DNewType (DObj (py_val VNone))) st
     = Ok (CustomType (DNewType (DObj (py_val VNone))), st)).
Proof.
  split.
  - intros Hne. destruct fuel as [|fuel]; [done|].
    change (translate_body (translate fuel) (DNewType supertype) st
            = translate_body (translate fuel) supertype st).
    unfold translate_body.
    assert (_origin_args_metadata (DNewType supertype)
            = _origin_args_metadata supertype) as ->; [|done].
    unfold _origin_args_metadata. simpl.
    destruct supertype as [[]| | | |]; try done. by destruct v.
  - intros Htable.
    change (translate_body (translate fuel)
              (DNewType (DObj (py_val VNone))) st
            = Ok (CustomType (DNewType (DObj (py_val VNone))), st)).
    unfold translate_body, _origin_args_metadata. simpl.
    by rewrite Htable.
Qed.

(** X6: the spelling [X | Y] translates as [Union[X, Y]] does, when the
    table knows neither the alias nor the marker [Union]. *)
Theorem new_style_union_is_Union fuel args st :
  _CONCRETE_TYPES (DAlias py_Union (Some args)) = None →
  _CONCRETE_TYPES (DObj py_Union) = None →
  _origin_args_metadata (DUnionType args) = (DObj py_Union, Some args, [])
  ∧ translate fuel (DUnionType args) st
    = translate fuel (DAlias py_Union (Some args)) st.
Proof.
  intros H1 H2. split; [done|].
  destruct fuel as [|fuel]; [done|].
  change (translate_body (translate fuel) (DUnionType args) st
          = translate_body (translate fuel) (DAlias py_Union (Some args)) st).
  unfold translate_body, _origin_args_metadata. simpl.
  by rewrite H1, H2.
Qed.

(** ** The merged constraints *)

(** X7: each merged constraint is the value of the last annotation, in
    collection order, that sets it, and is unset when none does. *)
Theorem merged_constraint_is_last_set metadata :
  let c := fold_left Constrs.absorb metadata Constrs.empty in
  Constrs.ge c = last (omap Meta.ge metadata)
  ∧ Constrs.gt c = last (omap Meta.gt metadata)
  ∧ Constrs.le c = last (omap Meta.le metadata)
  ∧ Constrs.lt c = last (omap Meta.lt metadata)
  ∧ Constrs.multiple_of c = last (omap Meta.multiple_of metadata)
  ∧ Constrs.pattern c = last (omap Meta.pattern metadata)
  ∧ Constrs.min_length c = last (omap Meta.min_length metadata)
  ∧ Constrs.max_length c = last (omap Meta.max_length metadata)
  ∧ Constrs.tz c = last (omap Meta.tz metadata).
Proof.
  assert (∀ o : option pyval,
            match o with Some v => Some v | None => None end = o) as Hid
    by (by intros []).
  simpl. split_and!.
  - rewrite (fold_absorb_last Constrs.ge Meta.ge); [apply Hid|done].
  - rewrite (fold_absorb_last Constrs.gt Meta.gt); [apply Hid|done].
  - rewrite (fold_absorb_last Constrs.le Meta.le); [apply Hid|done].
  - rewrite (fold_absorb_last Constrs.lt Meta.lt); [apply Hid|done].
  - rewrite (fold_absorb_last Constrs.multiple_of Meta.multiple_of);
      [apply Hid|done].
  - rewrite (fold_absorb_last Constrs.pattern Meta.pattern); [apply Hid|done].
  - rewrite (fold_absorb_last Constrs.min_length Meta.min_length);
      [apply Hid|done].
  - rewrite (fold_absorb_last Constrs.max_length Meta.max_length);
      [apply Hid|done].
  - rewrite (fold_absorb_last Constrs.tz Meta.tz); [apply Hid|done].
Qed.

(** ** The other object-like classes *)

(** X8: in the node of a dataclass the fields follow
    [dataclasses.fields], the encoded name of a field is its name, a
    field is required exactly when both its default and its default
    factory are [MISSING], and a [MISSING] default or factory is stored
    as [UNSET]. *)
Theorem dataclass_field_defaults fuel types protocol nodes st c dc l :
  multi_type_info fuel types protocol = Ok (nodes, st) →
  classes !! c = Some (CDataclass dc) →
  cache st !! c = Some l →
  ∃ fields,
    heap st !! l = Some (DataclassType c fields)
    ∧ Forall2
        (λ df f,
           Field.name f = dc_name df
           ∧ Field.encode_name f = dc_name df
           ∧ (Field.required f = true
              ↔ dc_default df = None ∧ dc_default_factory df = None)
           ∧ Field.default f = default UNSET (dc_default df)
           ∧ Field.default_factory f = default UNSET (dc_default_factory df)
           ∧ is_Some (dataclass_hints dc !! dc_name df))
        (dataclass_fields dc) fields.
Proof.
  intros Hrun Hci Hc.
  destruct (cached_class_fields _ _ _ _ _ _ _ _ _ _ _ _ Hrun Hc)
    as (ci & out & fields & Hci' & Hout & Hheap & Hfields).
  rewrite Hci in Hci'. injection Hci' as <-.
  injection Hout as <-. exists fields. split; [done|].
  simpl in Hfields. unfold dataclass_field_specs in Hfields.
  apply Forall2_fmap_l in Hfields.
  eapply Forall2_impl; [done|].
  intros df f. simpl. intros (-> & -> & -> & -> & -> & Hh).
  split_and!; try done.
  destruct (dc_default df), (dc_default_factory df); split; try done;
    intros [? ?]; done.
Qed.

(** X9: in the node of a named tuple the fields follow [_fields], the
    encoded name of a field is its name, a field is required exactly when
    it has no entry in [_field_defaults], its default is that entry or
    [UNSET], and no field has a default factory. *)
Theorem namedtuple_field_defaults fuel types protocol nodes st c nt l :
  multi_type_info fuel types protocol = Ok (nodes, st) →
  classes !! c = Some (CNamedTuple nt) →
  cache st !! c = Some l →
  ∃ fields,
    heap st !! l = Some (NamedTupleType c fields)
    ∧ Forall2
        (λ name f,
           Field.name f = name
           ∧ Field.encode_name f = name
           ∧ (Field.required f = true
              ↔ dict_get name (_field_defaults nt) = None)
           ∧ Field.default f
             = default UNSET (dict_get name (_field_defaults nt))
           ∧ Field.default_factory f = UNSET)
        (_fields nt) fields.
Proof.
  intros Hrun Hci Hc.
  destruct (cached_class_fields _ _ _ _ _ _ _ _ _ _ _ _ Hrun Hc)
    as (ci & out & fields & Hci' & Hout & Hheap & Hfields).
  rewrite Hci in Hci'. injection Hci' as <-.
  injection Hout as <-. exists fields. split; [done|].
  simpl in Hfields. unfold namedtuple_field_specs in Hfields.
  apply Forall2_fmap_l in Hfields.
  eapply Forall2_impl; [done|].
  intros name f. simpl. intros (-> & -> & -> & -> & -> & _).
  split_and!; try done. unfold dict_contains.
  by destruct (dict_get name (_field_defaults nt)).
Qed.

(** X10: when the resolved hints of a struct or of a dataclass lack the
    name of one of its fields, the first translation of the class raises
    and returns no node, whatever the budget; it raises [KeyError] when
    the field is the first one. *)
Theorem missing_hint_raises fuel typ cl ci out args metadata st :
  _origin_args_metadata typ = (DObj (py_class cl), args, metadata) →
  classes !! cl = Some ci → placeholder cl ci = Some out →
  cache st !! cl = None → type_hints st !! cl = None →
  Exists (λ s, fs_hint s = None) (field_specs ci (get_type_hints ci)) →
  (∀ n st', translate fuel typ st ≠ Ok (n, st'))
  ∧ (∀ s rest, field_specs ci (get_type_hints ci) = s :: rest →
       fs_hint s = None → translate (S fuel) typ st = Raise KeyError)
  ∧ (∀ hints item,
       fs_hint (struct_field_spec hints item) = hints !! item.1)
  ∧ (∀ dc hints,
       fs_hint <$> dataclass_field_specs dc hints
       = (λ df, hints !! dc_name df) <$> dataclass_fields dc).
Proof.
  intros Hnorm Hci Hout Hmiss Hmemo Hex.
  split_and!.
  - intros n st' H. destruct fuel as [|fuel]; [done|].
    rewrite (translate_class_eq _ _ _ _ _ _ _ _ _ _ _ Hnorm Hci Hout) in H.
    apply bind_Ok in H as (node & st0 & H & _).
    apply (translate_object_miss _ _ _ _ _ _ _ Hmiss) in H
      as (hints & st2 & fields & st3 & H2 & H3 & _).
    unfold _get_type_hints in H2. simpl in H2. rewrite Hmemo in H2.
    injection H2 as <- <-.
    apply fields_of_specs in H3.
    apply Exists_exists in Hex as (s & Hs & Hnone).
    apply list_elem_of_lookup in Hs as [i Hi].
    destruct (Forall2_lookup_l _ _ _ _ _ H3 Hi) as (f & _ & Hf).
    destruct Hf as (_ & _ & _ & _ & _ & [d Hd]). congruence.
  - intros s rest Hspecs Hnone.
    rewrite (translate_class_eq _ _ _ _ _ _ _ _ _ _ _ Hnorm Hci Hout).
    unfold bind at 1. unfold translate_object. rewrite Hmiss.
    unfold bind at 1. unfold cache_new.
    unfold bind at 1. unfold _get_type_hints. simpl. rewrite Hmemo.
    rewrite Hspecs. unfold bind at 1. simpl. unfold bind at 1.
    unfold build_field. by rewrite Hnone.
  - intros hints [name [encode_name obj]]. by destruct obj.
  - intros dc hints. unfold dataclass_field_specs.
    rewrite <- list_fmap_compose. done.
Qed.

(** X11: a [Literal] of integers and strings that has an integer
    member and a string member is not translated: sorting its members
    raises [TypeError]. *)
Theorem mixed_literal_raises rec c st args z s :
  Forall (λ a, is_Some (int_key a) ∨ is_Some (str_key a)) args →
  DObj (py_val (VInt z)) ∈ args → DObj (py_val (VStr s)) ∈ args →
  _translate_inner rec (DObj py_Literal) (Some args) c st = Raise TypeError.
Proof.
  intros _ Hz Hs. simpl.
  assert (all_keys int_key args = false) as Hi.
  { apply not_true_is_false. intros H. unfold all_keys in H.
    rewrite forallb_forall in H. apply list_elem_of_In, H in Hs. done. }
  assert (all_keys str_key args = false) as Hstr.
  { apply not_true_is_false. intros H. unfold all_keys in H.
    rewrite forallb_forall in H. apply list_elem_of_In, H in Hz. done. }
  unfold sorted. rewrite Hi, Hstr.
  destruct args as [|x [|y l]]; [by apply elem_of_nil in Hz| |done].
  apply list_elem_of_singleton in Hz, Hs. congruence.
Qed.


(** ** The heap and the cache after a run *)

(** X12: after a run the cache and the heap describe each other: the
    node cached for a class is a node of that class, every node of the
    heap is the one cached for its class, so no two nodes belong to the
    same class, and the memo of field types holds the resolved types of
    each class in it. *)
Theorem one_node_per_class fuel types protocol nodes st :
  multi_type_info fuel types protocol = Ok (nodes, st) →
  (∀ c l, cache st !! c = Some l →
          ∃ o, heap st !! l = Some o ∧ obj_cls o = c)
  ∧ (∀ l o, heap st !! l = Some o → cache st !! obj_cls o = Some l)
  ∧ (∀ l l' o o', heap st !! l = Some o → heap st !! l' = Some o' →
                  obj_cls o = obj_cls o' → l = l')
  ∧ (∀ c h ci, type_hints st !! c = Some h → classes !! c = Some ci →
               h = get_type_hints ci).
Proof.
  intros Hrun.
  destruct (run_Inv _ _ _ _ _ _ _ _ _ _ Hrun) as [(Hh & Hch & Hhc) _].
  split_and!; try done.
  intros l l' o o' Ho Ho' Heq.
  apply Hhc in Ho, Ho'. rewrite Heq in Ho. congruence.
Qed.

Lemma batch_replay fuel types protocol nodes st :
  multi_type_info fuel types protocol = Ok (nodes, st) →
  Forall2 (λ t n, translate fuel t st = Ok (n, st)) types nodes.
Proof.
  intros Hrun%run_Ok.
  apply pure_mapM; [intros; apply Ext_translate|].
  eapply (Replay_mapM (translate fuel)); [| |done|done].
  - intros. apply Ext_translate.
  - intros. apply Replay_translate.
Qed.

(** X13: a batch returns the same node at every position that holds the
    same root, and each returned node is what translating its root again
    in the final state returns, with no change of state. *)
Theorem repeated_root_same_node fuel types protocol nodes st :
  multi_type_info fuel types protocol = Ok (nodes, st) →
  (∀ i j t, types !! i = Some t → types !! j = Some t →
            nodes !! i = nodes !! j)
  ∧ (∀ i t n, types !! i = Some t → nodes !! i = Some n →
              translate fuel t st = Ok (n, st)).
Proof.
  intros Hrun%batch_replay. split.
  - intros i j t Hi Hj.
    destruct (Forall2_lookup_l _ _ _ _ _ Hrun Hi) as (ni & -> & Hni).
    destruct (Forall2_lookup_l _ _ _ _ _ Hrun Hj) as (nj & -> & Hnj).
    congruence.
  - intros i t n Hi Hn.
    by apply (Forall2_lookup_lr _ _ _ _ _ _ Hrun Hi Hn).
Qed.

(** X14: both entry points return, with nodes or with a Python
    exception, once the budget is large enough, and a larger budget
    changes nothing: no type and no class table makes the translation
    recurse without bound. *)
Theorem entry_points_terminate types type protocol :
  (∃ fuel,
     multi_type_info fuel types protocol ≠ Raise OutOfFuel
     ∧ ∀ k, multi_type_info (fuel + k) types protocol
            = multi_type_info fuel types protocol)
  ∧ (∃ fuel,
       type_info fuel type protocol ≠ Raise OutOfFuel
       ∧ ∀ k, type_info (fuel + k) type protocol
              = type_info fuel type protocol).
Proof.
  assert (∀ types, ∃ fuel, ∀ fuel', (fuel ≤ fuel')%nat →
     multi_type_info fuel' types protocol = multi_type_info fuel types protocol
     ∧ multi_type_info fuel types protocol ≠ Raise OutOfFuel) as Hmulti.
  { intros ts. unfold multi_type_info, run.
    destruct (select_decoder protocol) as [Decoder|e] eqn:Hsel.
    2: { exists 0%nat. intros _ _. split; [done|].
         destruct protocol as [| | | | |s| | | |]; simpl in Hsel;
           try (by injection Hsel as <-); try done.
         destruct (String.eqb s "msgpack"); [done|].
         destruct (String.eqb s "json"); [done|]. by injection Hsel as <-. }
    destruct (Decoder ts); [by exists 0%nat|].
    destruct (mapM_terminates translate (λ _, True) ts) with (st := init_state)
      as [fuel Hfuel]; try done.
    - intros; apply translate_S.
    - intros t _ s _.
      apply (translate_terminates_bounded _ _ _ _ t s (Nat.le_refl _)).
    - exists fuel. intros fuel' Hle. split; [|done].
      apply le_M_mapM; [|done]. intros t.
      by apply translate_fuel_mono. }
  split.
  - destruct (Hmulti types) as [fuel Hfuel]. exists fuel. split.
    + apply (Hfuel fuel). lia.
    + intros k. apply (Hfuel (fuel + k)%nat). lia.
  - destruct (Hmulti [type]) as [fuel Hfuel]. exists fuel. split.
    + destruct (Hfuel fuel (Nat.le_refl _)) as [_ Hne].
      unfold type_info.
      destruct (multi_type_info fuel [type] protocol) as [[nodes st]|e] eqn:E;
        [|congruence].
      apply run_Ok, mapM_Ok_length in E. by destruct nodes.
    + intros k. unfold type_info.
      assert (fuel ≤ fuel + k)%nat as Hle by lia.
      by rewrite (proj1 (Hfuel _ Hle)).
Qed.

(** ** [_merge_json] and the order of keys *)

Lemma dict_set_keys key v (d : pydict) :
  (dict_set key v d).*1 = if bool_decide (key ∈ d.*1) then d.*1
                          else d.*1 ++ [key].
Proof.
  induction d as [|[k w] d IH]; simpl; [done|].
  destruct (String.eqb_spec k key) as [->|Hne]; csimpl.
  - rewrite bool_decide_eq_true_2; [done|by left].
  - rewrite IH. destruct (bool_decide (key ∈ d.*1)) eqn:E.
    + apply bool_decide_eq_true in E.
      rewrite bool_decide_eq_true_2; [done|by right].
    + apply bool_decide_eq_false in E.
      rewrite bool_decide_eq_false_2; [done|].
      rewrite elem_of_cons. intros [?|?]; congruence.
Qed.

Lemma merge_step_keys a item :
  (merge_step a item).*1
  = if bool_decide (item.1 ∈ a.*1) then a.*1 else a.*1 ++ [item.1].
Proof.
  unfold merge_step.
  destruct (dict_get item.1 a) eqn:E; by rewrite dict_set_keys.
Qed.

Lemma filter_ext_in (P Q : string → Prop) `{!∀ x, Decision (P x)}
    `{!∀ x, Decision (Q x)} (l : list string) :
  (∀ x, x ∈ l → P x ↔ Q x) → filter P l = filter Q l.
Proof.
  induction l as [|x l IH]; intros Hext; [done|].
  destruct (decide (P x)) as [HP|HP].
  - rewrite !filter_cons_True; [|by apply Hext; [left|]|done].
    f_equal. apply IH. intros y Hy. apply Hext. by right.
  - rewrite !filter_cons_False; [|by rewrite <- Hext; [|left]|done].
    apply IH. intros y Hy. apply Hext. by right.
Qed.

(** X15: merging keeps every key of the first payload at its position
    and appends the keys that only the second payload has, in the order
    of the second payload; merging an empty payload changes nothing. *)
Theorem merge_json_key_order a b :
  NoDup b.*1 →
  (_merge_json a (VDict b)).*1
  = a.*1 ++ filter (λ key, key ∉ a.*1) b.*1
  ∧ _merge_json a (VDict []) = a.
Proof.
  clear _to_builtins.
  intros Hnd. split; [|done]. rewrite _merge_json_fold.
  revert a Hnd. induction b as [|[k v] b IH]; intros a Hnd.
  { simpl. by rewrite app_nil_r. }
  apply NoDup_cons in Hnd as [Hk Hnd]. simpl.
  rewrite (IH _ Hnd), merge_step_keys. simpl. csimpl.
  destruct (decide (k ∈ a.*1)) as [Hin|Hnin].
  - rewrite bool_decide_eq_true_2 by done.
    rewrite filter_cons_False; [done|]. by intros ?.
  - rewrite bool_decide_eq_false_2 by done.
    rewrite filter_cons_True by done. rewrite <- (assoc (++)). simpl.
    f_equal. f_equal. apply filter_ext_in.
    intros key Hkey. rewrite elem_of_app, list_elem_of_singleton.
    split; [tauto|]. intros Hna [?| ->]; [done|]. done.
Qed.


(** ** The shape of the returned nodes *)

Lemma assemble_not_Metadata t args c items n :
  assemble classes t args c items = Ok n → is_Metadata n = false.
Proof.
  destruct t as [o| | | |]; try by intros [= <-].
  destruct o as [| | | | | | | | | | | | | | | | | | | | | |cl| |v];
    simpl; try by intros [= <-].
  - destruct (tuple_args args) as [l|]; [|by intros [= <-]].
    by destruct (is_variadic l); intros [= <-].
  - by destruct args as [[|k [|??]]|]; intros [= <-].
  - by destruct args; intros [= <-].
  - destruct args as [l|]; [|done]. by destruct (sorted l); intros [= <-].
  - by destruct (classes !! cl) as [[]|]; intros [= <-].
  - by destruct v; intros [= <-].
Qed.

Lemma _translate_inner_not_Metadata fuel t args c st n st' :
  _translate_inner (translate fuel) t args c st = Ok (n, st') →
  is_Metadata n = false.
Proof.
  rewrite _translate_inner_view.
  destruct (object_parts classes t) as [[[cl ci] out]|].
  - intros H. apply translate_object_cached in H as (l & -> & _); [done|].
    apply Ext_translate.
  - intros (items & st1 & _ & H)%bind_Ok. unfold lift in H.
    destruct (assemble _ _ _ _ items) eqn:E; [|done].
    injection H as <- _. by eapply assemble_not_Metadata.
Qed.

(** X16: [translate] wraps a node in [Metadata] at most once: the node
    inside a [Metadata] wrapper is never a [Metadata] node, and a
    wrapper carries at least one payload. *)
Theorem metadata_wrapper_not_nested fuel typ st n st' :
  translate fuel typ st = Ok (n, st') →
  ∀ inner schema extra, n = Metadata inner schema extra →
    is_Metadata inner = false ∧ (schema ≠ None ∨ extra ≠ None).
Proof.
  destruct fuel as [|fuel]; [done|].
  change (translate (S fuel) typ st)
    with (translate_body (translate fuel) typ st).
  destruct (_origin_args_metadata typ) as [[t args] metadata] eqn:Hnorm.
  rewrite (translate_body_eq _ _ _ _ _ _ _ _ _ Hnorm).
  intros (out & st1 & Hout & [= <- <-])%bind_Ok inner schema extra.
  apply _translate_inner_not_Metadata in Hout.
  unfold wrap_metadata.
  destruct (fold_left (absorb_schema _to_builtins) metadata []) as [|x s];
    destruct (fold_left absorb_extra metadata []) as [|y e]; simpl;
    try (intros [= <- <- <-]; split; [done|]; (by left) || (by right)).
  intros ->. by simpl in Hout.
Qed.

Lemma refs_below_all k ts :
  (fix all (ts : list Type_) : Prop :=
     match ts with
     | [] => True
     | t :: ts => refs_below k t ∧ all ts
     end) ts ↔ Forall (refs_below k) ts.
Proof.
  induction ts as [|t ts IH]; [by split|].
  rewrite Forall_cons. by rewrite IH.
Qed.

Lemma assemble_refs k t args c items n :
  Forall (refs_below k) items →
  assemble classes t args c items = Ok n → refs_below k n.
Proof.
  intros Hitems.
  assert (refs_below k (hd AnyType items)) as Hhd by (by destruct Hitems).
  assert (refs_below k (hd AnyType (tl items))) as Htl.
  { destruct Hitems as [|?? _ Hitems]; [done|]. by destruct Hitems. }
  destruct t as [o| | | |]; try by intros [= <-].
  destruct o as [| | | | | | | | | | | | | | | | | | | | | |cl| |v];
    simpl; try by intros [= <-].
  - destruct (tuple_args args) as [l|]; [|by intros [= <-]].
    destruct (is_variadic l); intros [= <-]; [done|].
    simpl. by apply refs_below_all.
  - by destruct args as [[|key [|??]]|]; intros [= <-].
  - destruct args; intros [= <-]. simpl. by apply refs_below_all.
  - destruct args as [l|]; [|done]. by destruct (sorted l); intros [= <-].
  - by destruct (classes !! cl) as [[]|]; intros [= <-].
  - by destruct v; intros [= <-].
Qed.

Lemma refs_below_wrap k out schema extra :
  refs_below k out → refs_below k (wrap_metadata out schema extra).
Proof. unfold wrap_metadata. by destruct (_ || _). Qed.

Lemma pure_refs st :
  wf classes st →
  ∀ fuel typ n, translate fuel typ st = Ok (n, st) →
                refs_below (length (heap st)) n.
Proof.
  intros (_ & Hch & _). induction fuel as [|fuel IH]; [done|].
  intros typ n.
  change (translate (S fuel) typ st)
    with (translate_body (translate fuel) typ st).
  destruct (_origin_args_metadata typ) as [[t args] metadata] eqn:Hnorm.
  rewrite (translate_body_eq _ _ _ _ _ _ _ _ _ Hnorm).
  intros (out & st1 & Hout & [= <- ->])%bind_Ok.
  apply refs_below_wrap.
  rewrite _translate_inner_view in Hout.
  destruct (object_parts classes t) as [[[cl ci] o]|].
  - apply translate_object_cached in Hout as (l & -> & Hl);
      [|apply Ext_translate].
    destruct (Hch _ _ Hl) as (o' & Ho' & _). simpl.
    by eapply lookup_lt_Some.
  - apply bind_Ok in Hout as (items & st1 & Hitems & Ha). unfold lift in Ha.
    destruct (assemble _ _ _ _ items) as [n|] eqn:E; [|done].
    injection Ha as -> ->.
    apply pure_mapM in Hitems; [|intros; apply Ext_translate].
    eapply assemble_refs; [|done].
    clear E. induction Hitems as [|d n' ds ns Hd _ IHds]; constructor; eauto.
Qed.

(** X17: a run leaves no dangling reference: every heap reference in a
    returned node, and in the type of a field of a node of the heap, is
    a location of the heap. *)
Theorem no_dangling_references fuel types protocol nodes st :
  multi_type_info fuel types protocol = Ok (nodes, st) →
  Forall (refs_below (length (heap st))) nodes
  ∧ ∀ l o, heap st !! l = Some o →
      Forall (λ f, refs_below (length (heap st)) (Field.type f))
        (obj_fields o).
Proof.
  intros Hrun.
  destruct (run_Inv _ _ _ _ _ _ _ _ _ _ Hrun) as [Hwf Hent].
  split.
  - apply batch_replay in Hrun.
    induction Hrun as [|t n ts ns Ht _ IH]; constructor; [|done].
    by eapply pure_refs.
  - intros l o Ho. pose proof Hwf as (_ & _ & Hhc).
    destruct (Hent _ _ (Hhc _ _ Ho))
      as [?|(o' & Ho' & ci & out & f & fields & _ & _ & -> & Hfields)];
      [set_solver|].
    assert (o = set_fields fields out) as -> by congruence.
    rewrite obj_fields_set_fields.
    apply pure_mapM in Hfields;
      [|intros; apply Ext_build_field, Ext_translate].
    clear Ho Ho'.
    induction Hfields as [|s fd specs fs Hs _ IH]; constructor; [|done].
    unfold build_field in Hs. destruct (fs_hint s) as [d|]; [|done].
    apply bind_Ok in Hs as (ty & st1 & Hty & [= <- ->]). simpl.
    by eapply pure_refs.
Qed.


(** ** [includes_none] where it is right *)

Lemma assemble_NoneType t args c items :
  assemble classes t args c items = Ok NoneType → is_none_descr t = true.
Proof.
  destruct t as [o| | | |]; try done.
  destruct o as [| | | | | | | | | | | | | | | | | | | | | |cl| |v];
    simpl; try done.
  - destruct (tuple_args args) as [l|]; [|done]. by destruct (is_variadic l).
  - by destruct args as [[|k [|??]]|].
  - by destruct args.
  - destruct args as [l|]; [|done]. by destruct (sorted l).
  - by destruct (classes !! cl) as [[]|].
  - by destruct v.
Qed.

Lemma translate_NoneType fuel typ st n st' :
  translate fuel typ st = Ok (n, st') →
  is_NoneType n = true ↔ plain_none _CONCRETE_TYPES _to_builtins typ.
Proof.
  destruct fuel as [|fuel]; [done|].
  change (translate (S fuel) typ st)
    with (translate_body (translate fuel) typ st).
  unfold plain_none.
  destruct (_origin_args_metadata typ) as [[t args] metadata] eqn:Hnorm.
  rewrite (translate_body_eq _ _ _ _ _ _ _ _ _ Hnorm). simpl.
  intros (out & st1 & Hout & [= <- <-])%bind_Ok.
  destruct (wrap_metadata_cases out
              (fold_left (absorb_schema _to_builtins) metadata [])
              (fold_left absorb_extra metadata []))
    as [(Hs & He & ->)|(Hne & ->)].
  - split.
    + intros Hn. split_and!; try done.
      destruct out; try done.
      rewrite _translate_inner_view in Hout.
      destruct (object_parts classes t) as [[[cl ci] o]|].
      * apply translate_object_cached in Hout as (l & ? & _); [done|].
        apply Ext_translate.
      * apply bind_Ok in Hout as (items & st2 & _ & Ha). unfold lift in Ha.
        destruct (assemble _ _ _ _ items) as [n|] eqn:E; [|done].
        injection Ha as -> _. by eapply assemble_NoneType.
    + intros (Ht & _ & _).
      destruct t as [[| | | | | | | | | | | | | | | | | | | | | | | |[]]| | | |];
        try done; by injection Hout as <- _.
  - split; [done|]. intros (_ & Hs & He). by destruct Hne.
Qed.

(** X18: [includes_none] is right on a translated union exactly when no
    none-type member carries a payload: it answers [True] if and only if
    some member normalises to [None] or to [NoneType] with annotations
    that give no schema entry and no extra entry. *)
Theorem includes_none_exact fuel args c st types st' :
  _translate_inner (translate fuel) (DObj py_Union) (Some args) c st
  = Ok (UnionType types, st') →
  includes_none types = true
  ↔ Exists (plain_none _CONCRETE_TYPES _to_builtins) args.
Proof.
  rewrite _translate_inner_Union.
  intros (items & st1 & Hitems & [= <- <-])%bind_Ok.
  revert st items Hitems. induction args as [|a args IH]; intros st items.
  - intros [= <- _]. simpl. split; [done|by intros ?%Exists_nil].
  - simpl.
    intros (n & s1 & Ha & (ns & s2 & Hns & [= <- <-])%bind_Ok)%bind_Ok.
    unfold includes_none in *. simpl.
    rewrite orb_true_iff, Exists_cons, (IH _ _ Hns).
    by rewrite (translate_NoneType _ _ _ _ _ Ha).
Qed.

(** ** The [dict] arm *)

(** X19: a [dict] with no type argument has keys and values of any
    type; with two or more arguments the first two are translated, key
    first, and the others are ignored; with exactly one argument the arm
    returns no node: it raises [IndexError] once the key is translated. *)
Theorem dict_arm rec c st :
  _translate_inner rec (DObj py_dict) None c st
  = Ok (DictType AnyType AnyType (Constrs.min_length c)
          (Constrs.max_length c), st)
  ∧ _translate_inner rec (DObj py_dict) (Some []) c st
    = Ok (DictType AnyType AnyType (Constrs.min_length c)
            (Constrs.max_length c), st)
  ∧ (∀ k v rest,
       _translate_inner rec (DObj py_dict) (Some (k :: v :: rest)) c st
       = (let* key := rec k in
          let* value := rec v in
          ret (DictType key value (Constrs.min_length c)
                 (Constrs.max_length c))) st)
  ∧ (∀ k,
       (∀ n st', _translate_inner rec (DObj py_dict) (Some [k]) c st
                 ≠ Ok (n, st'))
       ∧ (∀ key st', rec k st = Ok (key, st') →
            _translate_inner rec (DObj py_dict) (Some [k]) c st
            = Raise IndexError)).
Proof.
  split_and!; try done.
  intros k. simpl. unfold bind. destruct (rec k st) as [[key st1]|e]; by split.
Qed.

(** ** The size of the heap *)

(** X20: a run builds exactly one node for each class it has cached and
    caches only classes of the program, so the heap never holds more
    nodes than the program has classes. *)
Theorem heap_size_bounded fuel types protocol nodes st :
  multi_type_info fuel types protocol = Ok (nodes, st) →
  length (heap st) = size (cache st)
  ∧ dom (cache st) ⊆ dom classes
  ∧ (length (heap st) ≤ size classes)%nat.
Proof.
  intros Hrun.
  destruct (run_Inv _ _ _ _ _ _ _ _ _ _ Hrun) as [(_ & Hch & Hhc) Hent].
  assert (NoDup (obj_cls <$> heap st)) as Hnd.
  { apply NoDup_alt. intros i j c.
    rewrite !list_lookup_fmap.
    destruct (heap st !! i) as [o|] eqn:Hi; [|done].
    destruct (heap st !! j) as [o'|] eqn:Hj; [|done].
    simpl. intros [= <-] [= Heq].
    apply Hhc in Hi, Hj. rewrite Heq in Hj. congruence. }
  assert (dom (cache st) = list_to_set (obj_cls <$> heap st)) as Hdom.
  { apply set_eq. intros c.
    rewrite elem_of_dom, elem_of_list_to_set, list_elem_of_fmap. split.
    - intros [l Hl]. destruct (Hch _ _ Hl) as (o & Ho & <-).
      exists o. split; [done|]. by eapply list_elem_of_lookup_2.
    - intros (o & -> & [l Ho]%list_elem_of_lookup). eauto. }
  assert (length (heap st) = size (cache st)) as Hlen.
  { rewrite <- size_dom, Hdom, size_list_to_set by done.
    by rewrite length_fmap. }
  assert (dom (cache st) ⊆ dom classes) as Hsub.
  { intros c [l Hl]%elem_of_dom.
    destruct (Hent _ _ Hl) as [?|(o & _ & ci & _ & _ & _ & Hci & _)];
      [set_solver|].
    by apply elem_of_dom. }
  split_and!; try done.
  rewrite Hlen, <- !size_dom. by apply subseteq_size.
Qed.


(** ** The [Union] arm *)

(** X21: a [Union] without arguments raises [TypeError]; otherwise the
    node is a [UnionType] with one member for each declared member, in
    the declared order: the member at a position is what translating
    the declared member at that position returns in the final state. *)
Theorem union_members_in_order fuel args c st :
  _translate_inner (translate fuel) (DObj py_Union) None c st
  = Raise TypeError
  ∧ ∀ n st',
      _translate_inner (translate fuel) (DObj py_Union) (Some args) c st
      = Ok (n, st') →
      ∃ types,
        n = UnionType types
        ∧ Forall2 (λ a ty, translate fuel a st' = Ok (ty, st')) args types.
Proof.
  split; [done|]. intros n st'. rewrite _translate_inner_Union.
  intros (types & st1 & Htypes & [= <- <-])%bind_Ok.
  exists types. split; [done|].
  apply pure_mapM; [intros; apply Ext_translate|].
  eapply (Replay_mapM (translate fuel)); [| |done|done].
  - intros. apply Ext_translate.
  - intros. apply Replay_translate.
Qed.

End More.

(** * The properties on the example program *)

(** C7: the members of a [Union] node follow the declared order, but
    [includes_none] looks for a member that is itself a [NoneType] node:
    for [Union[int, Annotated[None, Meta(title="nothing")]]] the
    none-type member is translated to a [Metadata] node around
    [NoneType], and [includes_none] answers [False] although the union
    includes [None]. *)
Theorem includes_none_misses_annotated_none :
  ∃ st,
    Demo.translate 3 Demo.annotated_optional init_state
    = Ok (UnionType
            [IntType None None None None None;
             Metadata NoneType (Some [("title", VStr "nothing")]) None], st)
    ∧ includes_none
        [IntType None None None None None;
         Metadata NoneType (Some [("title", VStr "nothing")]) None] = false
    ∧ Demo.translate 3
        (DAlias py_Union (Some [DObj py_int; DObj py_NoneType])) init_state
      = Ok (UnionType [IntType None None None None None; NoneType], st)
    ∧ includes_none [IntType None None None None None; NoneType] = true.
Proof. exists init_state. by vm_compute. Qed.

(** C5, as the specification words it, fails: with
    [Annotated[int, Meta(examples=[1]), Meta(examples=[2])]] the two
    payloads collide on the key [examples] with two sequences, and the
    accumulated payload holds [[2]], the later value, where a deep merge
    of the payloads holds [[1, 2]]. *)
Lemma examples_assigned_not_concatenated :
  fold_left (absorb_schema Demo.to_builtins) Demo.two_examples_metadata []
  = [("examples", VList [VInt 2])]
  ∧ spec_deep_merged
      (spec_documentation_payload Demo.to_builtins
         <$> Demo.two_examples_metadata)
    = [("examples", VList [VInt 1; VInt 2])]
  ∧ Demo.translate 3 Demo.two_examples init_state
    = Ok (Metadata (IntType None None None None None)
            (Some [("examples", VList [VInt 2])]) None, init_state)
  ∧ ¬ (∀ metadata,
         fold_left (absorb_schema Demo.to_builtins) metadata []
         = spec_deep_merged
             (spec_documentation_payload Demo.to_builtins <$> metadata)).
Proof.
  split_and!; try by vm_compute.
  intros H. specialize (H Demo.two_examples_metadata).
  vm_compute in H. discriminate.
Qed.

Lemma gate_is_all_or_nothing_witness :
  select_decoder Demo.MsgpackDecoder Demo.JSONDecoder (VStr "json")
  = Ok Demo.JSONDecoder
  ∧ Demo.JSONDecoder [Demo.bytes_dict]
    = Some "JSON doesn't support dicts with key type bytes"
  ∧ Demo.multi_type_info 5 [Demo.bytes_dict] (VStr "json")
    = Raise (DecoderError "JSON doesn't support dicts with key type bytes")
  ∧ Demo.multi_type_info 0 [Demo.bytes_dict] (VStr "json")
    = Raise (DecoderError "JSON doesn't support dicts with key type bytes")
  ∧ ∀ nodes st,
      Demo.multi_type_info 5 [Demo.bytes_dict] (VStr "json") ≠ Ok (nodes, st).
Proof.
  assert (select_decoder Demo.MsgpackDecoder Demo.JSONDecoder (VStr "json")
          = Ok Demo.JSONDecoder) as Hsel by reflexivity.
  split; [exact Hsel|]. split; [reflexivity|].
  exact (proj1 (gate_is_all_or_nothing Demo.concrete_types Demo.to_builtins
                  Demo.classes Demo.MsgpackDecoder Demo.JSONDecoder 5
                  [Demo.bytes_dict] (VStr "json") Demo.JSONDecoder Hsel)
           "JSON doesn't support dicts with key type bytes" eq_refl).
Defined.

Lemma irrelevant_constraints_discarded_witness :
  _origin_args_metadata Demo.concrete_types Demo.bounded_str
  = (DObj py_str, None, [Demo.ge_meta 0])
  ∧ _origin_args_metadata Demo.concrete_types (DObj py_str)
    = (DObj py_str, None, [])
  ∧ Demo.translate 3 Demo.bounded_str init_state
    = Demo.translate 3 (DObj py_str) init_state
  ∧ Demo.translate 3 Demo.bounded_str init_state
    = Ok (StrType None None None, init_state)
  ∧ _origin_args_metadata Demo.concrete_types Demo.bounded_int
    = (DObj py_int, None, [Demo.ge_meta 0])
  ∧ Demo.translate 3 Demo.bounded_int init_state
    = Ok (IntType None (Some (VInt 0)) None None None, init_state)
  ∧ select_decoder Demo.MsgpackDecoder Demo.JSONDecoder VNone
    = Ok Demo.MsgpackDecoder
  ∧ Demo.MsgpackDecoder [Demo.bounded_int] = None
  ∧ Demo.type_info 3 Demo.bounded_int VNone
    = Ok (IntType None (Some (VInt 0)) None None None, init_state).
Proof.
  assert (_origin_args_metadata Demo.concrete_types Demo.bounded_str
          = (DObj py_str, None, [Demo.ge_meta 0])) as Hstr by reflexivity.
  assert (_origin_args_metadata Demo.concrete_types (DObj py_str)
          = (DObj py_str, None, [])) as Hplain by reflexivity.
  assert (_origin_args_metadata Demo.concrete_types Demo.bounded_int
          = (DObj py_int, None, [Demo.ge_meta 0])) as Hint by reflexivity.
  assert (select_decoder Demo.MsgpackDecoder Demo.JSONDecoder VNone
          = Ok Demo.MsgpackDecoder) as Hsel by reflexivity.
  assert (Demo.MsgpackDecoder [Demo.bounded_int] = None) as Hgate
    by reflexivity.
  assert (Demo.translate 3 Demo.bounded_int init_state
          = Ok (IntType None (Some (VInt 0)) None None None, init_state))
    as Hrun.
  { exact (proj1 (proj2
             (irrelevant_constraints_discarded Demo.concrete_types
                Demo.to_builtins Demo.classes Demo.MsgpackDecoder
                Demo.JSONDecoder 2 _ _ _ _ init_state Hint)) eq_refl). }
  split; [exact Hstr|]. split; [exact Hplain|]. split.
  { exact (proj1
             (irrelevant_constraints_discarded Demo.concrete_types
                Demo.to_builtins Demo.classes Demo.MsgpackDecoder
                Demo.JSONDecoder 2 _ _ _ _ init_state Hplain)
             _ _ Hstr eq_refl eq_refl eq_refl). }
  split.
  { exact (proj1 (proj2 (proj2
             (irrelevant_constraints_discarded Demo.concrete_types
                Demo.to_builtins Demo.classes Demo.MsgpackDecoder
                Demo.JSONDecoder 2 _ _ _ _ init_state Hstr))) eq_refl). }
  split; [exact Hint|]. split; [exact Hrun|].
  split; [exact Hsel|]. split; [exact Hgate|].
  exact (proj2 (proj2 (proj2 (proj2
           (irrelevant_constraints_discarded Demo.concrete_types
              Demo.to_builtins Demo.classes Demo.MsgpackDecoder
              Demo.JSONDecoder 2 _ _ _ _ init_state Hint))))
           _ _ _ _ Hrun Hsel Hgate).
Defined.


Lemma metadata_payloads_merged_witness :
  _origin_args_metadata Demo.concrete_types Demo.mixed
  = (DObj py_int, None, Demo.mixed_metadata)
  ∧ _translate_inner Demo.classes (Demo.translate 2) (DObj py_int) None
      (fold_left Constrs.absorb Demo.mixed_metadata Constrs.empty) init_state
    = Ok (IntType None (Some (VInt 0)) None None None, init_state)
  ∧ Forall (λ m, ∀ s, Meta.extra_json_schema m = Some s →
                      NoDup (Demo.to_builtins s).*1) Demo.mixed_metadata
  ∧ Forall (λ m, ∀ e, Meta.extra m = Some e → NoDup e.*1) Demo.mixed_metadata
  ∧ Demo.translate 3 Demo.mixed init_state
    = Ok (Metadata (IntType None (Some (VInt 0)) None None None)
            (Some [("title", VStr "n"); ("unit", VStr "m");
                   ("examples", VList [VInt 2; VInt 3])])
            None, init_state)
  ∧ dict_get "examples"
      (fold_left (absorb_schema Demo.to_builtins) Demo.mixed_metadata [])
    = fold_left (schema_step Demo.to_builtins "examples") Demo.mixed_metadata
        None.
Proof.
  assert (_origin_args_metadata Demo.concrete_types Demo.mixed
          = (DObj py_int, None, Demo.mixed_metadata)) as Hnorm
    by reflexivity.
  assert (_translate_inner Demo.classes (Demo.translate 2) (DObj py_int) None
            (fold_left Constrs.absorb Demo.mixed_metadata Constrs.empty)
            init_state
          = Ok (IntType None (Some (VInt 0)) None None None, init_state))
    as Hinner by reflexivity.
  assert (Forall (λ m, ∀ s, Meta.extra_json_schema m = Some s →
                            NoDup (Demo.to_builtins s).*1)
            Demo.mixed_metadata) as Hnds.
  { repeat (apply Forall_cons; split;
            [intros ? ?; simplify_eq/=;
             apply (bool_decide_unpack _); by vm_compute|]).
    constructor. }
  assert (Forall (λ m, ∀ e, Meta.extra m = Some e → NoDup e.*1)
            Demo.mixed_metadata) as Hnde.
  { repeat (apply Forall_cons; split; [intros ? ?; simplify_eq/=|]).
    constructor. }
  split; [exact Hnorm|]. split; [exact Hinner|].
  split; [exact Hnds|]. split; [exact Hnde|].
  destruct (metadata_payloads_merged Demo.concrete_types Demo.to_builtins
              Demo.classes 2 Demo.mixed _ _ _ init_state _ _
              Hnorm Hinner Hnds Hnde)
    as (Hkey & _ & _ & _ & _ & _ & _ & node & Hnode & _ & Hwrap & _).
  split; [|exact (Hkey "examples")].
  rewrite Hnode. f_equal. f_equal. apply Hwrap. left. discriminate.
Defined.

Lemma struct_field_defaults_witness :
  Demo.multi_type_info 5 [DObj (py_class Demo.Node)] VNone
  = Ok ([ObjRef 0], Demo.Node_run)
  ∧ Demo.classes !! Demo.Node = Some (CStruct Demo.Node_class)
  ∧ cache Demo.Node_run !! Demo.Node = Some 0%nat
  ∧ ∃ fields,
      heap Demo.Node_run !! 0%nat
      = Some (StructType Demo.Node fields VNone VNone false false)
      ∧ Forall2
          (λ (item : string * (string * default_obj)) f,
             Field.name f = item.1
             ∧ Field.encode_name f = item.2.1
             ∧ (Field.required f = true ↔ item.2.2 = _nodefault)
             ∧ match item.2.2 with
               | _Factory factory =>
                   Field.default_factory f = factory
                   ∧ Field.default f = UNSET
                   ∧ Field.required f = false
               | DefaultValue v =>
                   Field.default f = v
                   ∧ Field.default_factory f = UNSET
                   ∧ Field.required f = false
               | _nodefault =>
                   Field.default f = UNSET
                   ∧ Field.default_factory f = UNSET
                   ∧ Field.required f = true
               end)
          [("value", ("value", _nodefault));
           ("next", ("next", DefaultValue VNone));
           ("tags", ("tags", _Factory (VObj 7)))]
          fields.
Proof.
  assert (Demo.multi_type_info 5 [DObj (py_class Demo.Node)] VNone
          = Ok ([ObjRef 0], Demo.Node_run)) as Hrun by (by vm_compute).
  assert (Demo.classes !! Demo.Node = Some (CStruct Demo.Node_class)) as Hci
    by (by vm_compute).
  assert (cache Demo.Node_run !! Demo.Node = Some 0%nat) as Hc
    by (by vm_compute).
  split; [exact Hrun|]. split; [exact Hci|]. split; [exact Hc|].
  exact (struct_field_defaults Demo.concrete_types Demo.to_builtins
           Demo.classes Demo.MsgpackDecoder Demo.JSONDecoder 5 _ VNone _ _
           Demo.Node Demo.Node_class 0%nat Hrun Hci Hc).
Defined.

Lemma typeddict_fields_sorted_witness :
  Demo.multi_type_info 5 [DObj (py_class Demo.Movie)] VNone
  = Ok ([ObjRef 0], Demo.Movie_run)
  ∧ Demo.classes !! Demo.Movie = Some (CTypedDict Demo.Movie_class)
  ∧ cache Demo.Movie_run !! Demo.Movie = Some 0%nat
  ∧ ∃ fields,
      heap Demo.Movie_run !! 0%nat = Some (TypedDictType Demo.Movie fields)
      ∧ Sorted String.le (Field.name <$> fields)
      ∧ Field.name <$> fields
        ≡ₚ (map_to_list (typeddict_hints Demo.Movie_class)).*1
      ∧ Forall
          (λ f,
             Field.encode_name f = Field.name f
             ∧ Field.default f = UNSET
             ∧ Field.default_factory f = UNSET
             ∧ is_Some (typeddict_hints Demo.Movie_class !! Field.name f)
             ∧ (∀ keys, __required_keys__ Demo.Movie_class = Some keys →
                  (Field.required f = true ↔ Field.name f ∈ keys))
             ∧ (__required_keys__ Demo.Movie_class = None →
                  Field.required f = __total__ Demo.Movie_class))
          fields.
Proof.
  assert (Demo.multi_type_info 5 [DObj (py_class Demo.Movie)] VNone
          = Ok ([ObjRef 0], Demo.Movie_run)) as Hrun by (by vm_compute).
  assert (Demo.classes !! Demo.Movie = Some (CTypedDict Demo.Movie_class))
    as Hci by (by vm_compute).
  assert (cache Demo.Movie_run !! Demo.Movie = Some 0%nat) as Hc
    by (by vm_compute).
  split; [exact Hrun|]. split; [exact Hci|]. split; [exact Hc|].
  exact (typeddict_fields_sorted Demo.concrete_types Demo.to_builtins
           Demo.classes Demo.MsgpackDecoder Demo.JSONDecoder 5 _ VNone _ _
           Demo.Movie Demo.Movie_class 0%nat Hrun Hci Hc).
Defined.

Lemma cyclic_class_translated_once_witness :
  _origin_args_metadata Demo.concrete_types (DObj (py_class Demo.Loop))
  = (DObj (py_class Demo.Loop), None, [])
  ∧ Demo.classes !! Demo.Loop = Some (CStruct Demo.Loop_class)
  ∧ placeholder Demo.Loop (CStruct Demo.Loop_class)
    = Some (StructType Demo.Loop [] VNone VNone false false)
  ∧ cache init_state !! Demo.Loop = None
  ∧ Demo.translate 3 (DObj (py_class Demo.Loop)) init_state
    = Ok (ObjRef 0, Demo.Loop_run)
  ∧ (∃ fields f,
       heap Demo.Loop_run !! 0%nat
       = Some (StructType Demo.Loop fields VNone VNone false false)
       ∧ fields !! 0%nat = Some f ∧ Field.type f = ObjRef 0)
  ∧ Demo.translate 3 (DObj (py_class Demo.Loop)) Demo.Loop_run
    = Ok (ObjRef 0, Demo.Loop_run).
Proof.
  assert (_origin_args_metadata Demo.concrete_types (DObj (py_class Demo.Loop))
          = (DObj (py_class Demo.Loop), None, [])) as Hnorm by reflexivity.
  assert (Demo.classes !! Demo.Loop = Some (CStruct Demo.Loop_class)) as Hci
    by (by vm_compute).
  assert (placeholder Demo.Loop (CStruct Demo.Loop_class)
          = Some (StructType Demo.Loop [] VNone VNone false false)) as Hout
    by reflexivity.
  assert (cache init_state !! Demo.Loop = None) as Hmiss by reflexivity.
  assert (Demo.translate 3 (DObj (py_class Demo.Loop)) init_state
          = Ok (ObjRef 0, Demo.Loop_run)) as Hrun by (by vm_compute).
  split; [exact Hnorm|]. split; [exact Hci|]. split; [exact Hout|].
  split; [exact Hmiss|]. split; [exact Hrun|]. split.
  - destruct (cyclic_class_translated_once Demo.concrete_types
                Demo.to_builtins Demo.classes 2 _ _ _ _ _ _ init_state
                Hnorm Hci Hout) as (Hfirst & _).
    destruct (Hfirst _ _ Hmiss Hrun)
      as (hints & st2 & fields & st3 & _ & _ & _ & Hhints & _ & _ & _
          & Hheap & Hself).
    rewrite (Hhints eq_refl) in Hself.
    destruct (Hself 0%nat
                (mkSpec "me" "me" (Some (DObj (py_class Demo.Loop))) true
                   UNSET UNSET)
                (DObj (py_class Demo.Loop)) None)
      as (f & Hf & Hty); [by vm_compute|reflexivity|reflexivity|].
    exists fields, f. split; [exact Hheap|]. by split.
  - destruct (cyclic_class_translated_once Demo.concrete_types
                Demo.to_builtins Demo.classes 2 _ _ _ _ _ _ Demo.Loop_run
                Hnorm Hci Hout) as (_ & Hlater & _).
    apply (Hlater 0%nat). by vm_compute.
Defined.

Lemma batch_agrees_with_single_witness :
  select_decoder Demo.MsgpackDecoder Demo.JSONDecoder VNone
  = Ok Demo.MsgpackDecoder
  ∧ (Demo.MsgpackDecoder Demo.batch = None →
     ∀ t, t ∈ Demo.batch → Demo.MsgpackDecoder [t] = None)
  ∧ Demo.multi_type_info 5 Demo.batch VNone
    = Ok ([ListType (ObjRef 0) None None; ObjRef 1], Demo.batch_run)
  ∧ length [ListType (ObjRef 0) None None; ObjRef 1] = length Demo.batch
  ∧ ∀ i t n,
      Demo.batch !! i = Some t →
      [ListType (ObjRef 0) None None; ObjRef 1] !! i = Some n →
      ∃ fuel1 n1 st1 ρ,
        Demo.type_info fuel1 t VNone = Ok (n1, st1)
        ∧ rename ρ n1 = n
        ∧ ∀ l o, heap st1 !! l = Some o →
            heap Demo.batch_run !! ρ l = Some (rename_obj ρ o).
Proof.
  assert (select_decoder Demo.MsgpackDecoder Demo.JSONDecoder VNone
          = Ok Demo.MsgpackDecoder) as Hsel by reflexivity.
  assert (Demo.MsgpackDecoder Demo.batch = None →
          ∀ t, t ∈ Demo.batch → Demo.MsgpackDecoder [t] = None) as Hgate
    by reflexivity.
  assert (Demo.multi_type_info 5 Demo.batch VNone
          = Ok ([ListType (ObjRef 0) None None; ObjRef 1], Demo.batch_run))
    as Hrun by (by vm_compute).
  split; [exact Hsel|]. split; [exact Hgate|]. split; [exact Hrun|].
  exact (proj2 (proj2 (batch_agrees_with_single Demo.concrete_types
                         Demo.to_builtins Demo.classes Demo.MsgpackDecoder
                         Demo.JSONDecoder 5 Demo.batch VNone))
           Demo.MsgpackDecoder _ _ Hsel Hgate Hrun).
Defined.

Lemma invalid_protocol_raises_witness :
  VStr "yaml" ≠ VNone ∧ VStr "yaml" ≠ VStr "msgpack"
  ∧ VStr "yaml" ≠ VStr "json"
  ∧ Demo.multi_type_info 5 Demo.batch (VStr "yaml")
    = Raise (ValueError "protocol must be one of None, 'msgpack', 'json'")
  ∧ Demo.type_info 5 (DObj py_int) (VStr "yaml")
    = Raise (ValueError "protocol must be one of None, 'msgpack', 'json'").
Proof.
  assert (VStr "yaml" ≠ VNone) as H1 by discriminate.
  assert (VStr "yaml" ≠ VStr "msgpack") as H2 by discriminate.
  assert (VStr "yaml" ≠ VStr "json") as H3 by discriminate.
  split; [exact H1|]. split; [exact H2|]. split; [exact H3|].
  exact (invalid_protocol_raises Demo.concrete_types Demo.to_builtins
           Demo.classes Demo.MsgpackDecoder Demo.JSONDecoder 5 Demo.batch
           (DObj py_int) (VStr "yaml") H1 H2 H3).
Defined.

Lemma tuple_arm_witness :
  is_variadic [DObj py_int; DObj py_str] = false
  ∧ (∀ x, [DObj py_int; DObj py_str] = [x] → is_empty_tuple x = false)
  ∧ _translate_inner Demo.classes (Demo.translate 2) (DObj py_tuple)
      (Some [DObj py_int; DObj py_str]) Constrs.empty init_state
    = (let* items := mapM (Demo.translate 2) [DObj py_int; DObj py_str] in
       ret (TupleType items)) init_state.
Proof.
  assert (is_variadic [DObj py_int; DObj py_str] = false) as Hv
    by reflexivity.
  assert (∀ x, [DObj py_int; DObj py_str] = [x] → is_empty_tuple x = false)
    as Hne by discriminate.
  split; [exact Hv|]. split; [exact Hne|].
  exact (proj2 (proj2 (proj2 (proj2
           (tuple_arm Demo.classes (Demo.translate 2) Constrs.empty
              init_state)))) _ Hv Hne).
Defined.

Lemma newtype_translates_as_supertype_witness :
  DObj py_int ≠ DObj (py_val VNone)
  ∧ Demo.translate 3 (DNewType (DObj py_int)) init_state
    = Demo.translate 3 (DObj py_int) init_state
  ∧ Demo.concrete_types (DNewType (DObj (py_val VNone))) = None
  ∧ Demo.translate 3 (DNewType (DObj (py_val VNone))) init_state
    = Ok (CustomType (DNewType (DObj (py_val VNone))), init_state).
Proof.
  assert (DObj py_int ≠ DObj (py_val VNone)) as Hne by discriminate.
  assert (Demo.concrete_types (DNewType (DObj (py_val VNone))) = None)
    as Htable by reflexivity.
  split; [exact Hne|]. split.
  - exact (proj1 (newtype_translates_as_supertype Demo.concrete_types
                    Demo.to_builtins Demo.classes 3 (DObj py_int) init_state)
             Hne).
  - split; [exact Htable|].
    exact (proj2 (newtype_translates_as_supertype Demo.concrete_types
                    Demo.to_builtins Demo.classes 2 (DObj py_int) init_state)
             Htable).
Defined.

Lemma new_style_union_is_Union_witness :
  Demo.concrete_types (DAlias py_Union (Some [DObj py_int; DObj py_NoneType]))
  = None
  ∧ Demo.concrete_types (DObj py_Union) = None
  ∧ _origin_args_metadata Demo.concrete_types
      (DUnionType [DObj py_int; DObj py_NoneType])
    = (DObj py_Union, Some [DObj py_int; DObj py_NoneType], [])
  ∧ Demo.translate 3 (DUnionType [DObj py_int; DObj py_NoneType]) init_state
    = Demo.translate 3
        (DAlias py_Union (Some [DObj py_int; DObj py_NoneType])) init_state.
Proof.
  assert (Demo.concrete_types
            (DAlias py_Union (Some [DObj py_int; DObj py_NoneType])) = None)
    as H1 by reflexivity.
  assert (Demo.concrete_types (DObj py_Union) = None) as H2 by reflexivity.
  split; [exact H1|]. split; [exact H2|].
  exact (new_style_union_is_Union Demo.concrete_types Demo.to_builtins
           Demo.classes 3 _ init_state H1 H2).
Defined.

Lemma dataclass_field_defaults_witness :
  Demo2.multi_type_info 5 [DObj (py_class Demo2.Point)] VNone
  = Ok ([ObjRef 0], Demo2.Point_run)
  ∧ Demo2.classes !! Demo2.Point = Some (CDataclass Demo2.Point_class)
  ∧ cache Demo2.Point_run !! Demo2.Point = Some 0%nat
  ∧ ∃ fields,
      heap Demo2.Point_run !! 0%nat = Some (DataclassType Demo2.Point fields)
      ∧ Forall2
          (λ df f,
             Field.name f = dc_name df
             ∧ Field.encode_name f = dc_name df
             ∧ (Field.required f = true
                ↔ dc_default df = None ∧ dc_default_factory df = None)
             ∧ Field.default f = default UNSET (dc_default df)
             ∧ Field.default_factory f
               = default UNSET (dc_default_factory df)
             ∧ is_Some (dataclass_hints Demo2.Point_class !! dc_name df))
          (dataclass_fields Demo2.Point_class) fields.
Proof.
  assert (Demo2.multi_type_info 5 [DObj (py_class Demo2.Point)] VNone
          = Ok ([ObjRef 0], Demo2.Point_run)) as Hrun by (by vm_compute).
  assert (Demo2.classes !! Demo2.Point = Some (CDataclass Demo2.Point_class))
    as Hci by (by vm_compute).
  assert (cache Demo2.Point_run !! Demo2.Point = Some 0%nat) as Hc
    by (by vm_compute).
  split; [exact Hrun|]. split; [exact Hci|]. split; [exact Hc|].
  exact (dataclass_field_defaults Demo.concrete_types Demo.to_builtins
           Demo2.classes Demo.MsgpackDecoder Demo.JSONDecoder 5 _ VNone _ _
           Demo2.Point Demo2.Point_class 0%nat Hrun Hci Hc).
Defined.

Lemma namedtuple_field_defaults_witness :
  Demo2.multi_type_info 5 [DObj (py_class Demo2.Pair)] VNone
  = Ok ([ObjRef 0], Demo2.Pair_run)
  ∧ Demo2.classes !! Demo2.Pair = Some (CNamedTuple Demo2.Pair_class)
  ∧ cache Demo2.Pair_run !! Demo2.Pair = Some 0%nat
  ∧ ∃ fields,
      heap Demo2.Pair_run !! 0%nat = Some (NamedTupleType Demo2.Pair fields)
      ∧ Forall2
          (λ name f,
             Field.name f = name
             ∧ Field.encode_name f = name
             ∧ (Field.required f = true
                ↔ dict_get name (_field_defaults Demo2.Pair_class) = None)
             ∧ Field.default f
               = default UNSET
                   (dict_get name (_field_defaults Demo2.Pair_class))
             ∧ Field.default_factory f = UNSET)
          (_fields Demo2.Pair_class) fields.
Proof.
  assert (Demo2.multi_type_info 5 [DObj (py_class Demo2.Pair)] VNone
          = Ok ([ObjRef 0], Demo2.Pair_run)) as Hrun by (by vm_compute).
  assert (Demo2.classes !! Demo2.Pair = Some (CNamedTuple Demo2.Pair_class))
    as Hci by (by vm_compute).
  assert (cache Demo2.Pair_run !! Demo2.Pair = Some 0%nat) as Hc
    by (by vm_compute).
  split; [exact Hrun|]. split; [exact Hci|]. split; [exact Hc|].
  exact (namedtuple_field_defaults Demo.concrete_types Demo.to_builtins
           Demo2.classes Demo.MsgpackDecoder Demo.JSONDecoder 5 _ VNone _ _
           Demo2.Pair Demo2.Pair_class 0%nat Hrun Hci Hc).
Defined.

Lemma missing_hint_raises_witness :
  _origin_args_metadata Demo.concrete_types (DObj (py_class Demo2.Broken))
  = (DObj (py_class Demo2.Broken), None, [])
  ∧ Demo2.classes !! Demo2.Broken = Some (CStruct Demo2.Broken_class)
  ∧ placeholder Demo2.Broken (CStruct Demo2.Broken_class)
    = Some (StructType Demo2.Broken [] VNone VNone false false)
  ∧ cache init_state !! Demo2.Broken = None
  ∧ type_hints init_state !! Demo2.Broken = None
  ∧ Exists (λ s, fs_hint s = None)
      (field_specs (CStruct Demo2.Broken_class)
         (get_type_hints (CStruct Demo2.Broken_class)))
  ∧ (∀ n st',
       Demo2.translate 3 (DObj (py_class Demo2.Broken)) init_state
       ≠ Ok (n, st'))
  ∧ Demo2.translate 3 (DObj (py_class Demo2.Broken)) init_state
    = Raise KeyError.
Proof.
  assert (_origin_args_metadata Demo.concrete_types
            (DObj (py_class Demo2.Broken))
          = (DObj (py_class Demo2.Broken), None, [])) as Hnorm by reflexivity.
  assert (Demo2.classes !! Demo2.Broken = Some (CStruct Demo2.Broken_class))
    as Hci by (by vm_compute).
  assert (placeholder Demo2.Broken (CStruct Demo2.Broken_class)
          = Some (StructType Demo2.Broken [] VNone VNone false false))
    as Hout by reflexivity.
  assert (cache init_state !! Demo2.Broken = None) as Hmiss by reflexivity.
  assert (type_hints init_state !! Demo2.Broken = None) as Hmemo
    by reflexivity.
  assert (Exists (λ s, fs_hint s = None)
            (field_specs (CStruct Demo2.Broken_class)
               (get_type_hints (CStruct Demo2.Broken_class)))) as Hex.
  { apply Exists_cons_hd. reflexivity. }
  split; [exact Hnorm|]. split; [exact Hci|]. split; [exact Hout|].
  split; [exact Hmiss|]. split; [exact Hmemo|]. split; [exact Hex|].
  split.
  - exact (proj1 (missing_hint_raises Demo.concrete_types Demo.to_builtins
                    Demo2.classes 3 _ _ _ _ _ _ init_state
                    Hnorm Hci Hout Hmiss Hmemo Hex)).
  - exact (proj1 (proj2
             (missing_hint_raises Demo.concrete_types Demo.to_builtins
                Demo2.classes 2 _ _ _ _ _ _ init_state
                Hnorm Hci Hout Hmiss Hmemo Hex)) _ _ eq_refl eq_refl).
Defined.

Lemma mixed_literal_raises_witness :
  Forall (λ a, is_Some (int_key a) ∨ is_Some (str_key a))
    [DObj (py_val (VInt 1)); DObj (py_val (VStr "a"))]
  ∧ DObj (py_val (VInt 1)) ∈ [DObj (py_val (VInt 1)); DObj (py_val (VStr "a"))]
  ∧ DObj (py_val (VStr "a"))
    ∈ [DObj (py_val (VInt 1)); DObj (py_val (VStr "a"))]
  ∧ _translate_inner Demo.classes (Demo.translate 2) (DObj py_Literal)
      (Some [DObj (py_val (VInt 1)); DObj (py_val (VStr "a"))])
      Constrs.empty init_state
    = Raise TypeError.
Proof.
  assert (Forall (λ a, is_Some (int_key a) ∨ is_Some (str_key a))
            [DObj (py_val (VInt 1)); DObj (py_val (VStr "a"))]) as Hall.
  { constructor; [left; by eexists|].
    constructor; [right; by eexists|constructor]. }
  assert (DObj (py_val (VInt 1))
          ∈ [DObj (py_val (VInt 1)); DObj (py_val (VStr "a"))]) as Hz
    by constructor.
  assert (DObj (py_val (VStr "a"))
          ∈ [DObj (py_val (VInt 1)); DObj (py_val (VStr "a"))]) as Hs
    by (constructor; constructor).
  split; [exact Hall|]. split; [exact Hz|]. split; [exact Hs|].
  exact (mixed_literal_raises Demo.classes (Demo.translate 2) Constrs.empty
           init_state _ 1 "a" Hall Hz Hs).
Defined.

Lemma one_node_per_class_witness :
  Demo2.multi_type_info 5 Demo2.repeated VNone
  = Ok ([ObjRef 0; ListType (ObjRef 0) None None; ObjRef 0],
        Demo2.repeated_run)
  ∧ (∀ c l, cache Demo2.repeated_run !! c = Some l →
            ∃ o, heap Demo2.repeated_run !! l = Some o ∧ obj_cls o = c)
  ∧ (∀ l o, heap Demo2.repeated_run !! l = Some o →
            cache Demo2.repeated_run !! obj_cls o = Some l)
  ∧ (∀ l l' o o', heap Demo2.repeated_run !! l = Some o →
                  heap Demo2.repeated_run !! l' = Some o' →
                  obj_cls o = obj_cls o' → l = l')
  ∧ (∀ c h ci, type_hints Demo2.repeated_run !! c = Some h →
               Demo2.classes !! c = Some ci → h = get_type_hints ci).
Proof.
  assert (Demo2.multi_type_info 5 Demo2.repeated VNone
          = Ok ([ObjRef 0; ListType (ObjRef 0) None None; ObjRef 0],
                Demo2.repeated_run)) as Hrun by (by vm_compute).
  split; [exact Hrun|].
  exact (one_node_per_class Demo.concrete_types Demo.to_builtins
           Demo2.classes Demo.MsgpackDecoder Demo.JSONDecoder 5 _ VNone _ _
           Hrun).
Defined.

Lemma repeated_root_same_node_witness :
  Demo2.multi_type_info 5 Demo2.repeated VNone
  = Ok ([ObjRef 0; ListType (ObjRef 0) None None; ObjRef 0],
        Demo2.repeated_run)
  ∧ (∀ i j t, Demo2.repeated !! i = Some t → Demo2.repeated !! j = Some t →
       [ObjRef 0; ListType (ObjRef 0) None None; ObjRef 0] !! i
       = [ObjRef 0; ListType (ObjRef 0) None None; ObjRef 0] !! j)
  ∧ (∀ i t n, Demo2.repeated !! i = Some t →
       [ObjRef 0; ListType (ObjRef 0) None None; ObjRef 0] !! i = Some n →
       Demo2.translate 5 t Demo2.repeated_run = Ok (n, Demo2.repeated_run)).
Proof.
  assert (Demo2.multi_type_info 5 Demo2.repeated VNone
          = Ok ([ObjRef 0; ListType (ObjRef 0) None None; ObjRef 0],
                Demo2.repeated_run)) as Hrun by (by vm_compute).
  split; [exact Hrun|].
  exact (repeated_root_same_node Demo.concrete_types Demo.to_builtins
           Demo2.classes Demo.MsgpackDecoder Demo.JSONDecoder 5 _ VNone _ _
           Hrun).
Defined.

Lemma merge_json_key_order_witness :
  NoDup [("b", VInt 3); ("c", VInt 4)].*1
  ∧ (_merge_json [("a", VInt 1); ("b", VInt 2)]
       (VDict [("b", VInt 3); ("c", VInt 4)])).*1
    = ["a"; "b"; "c"].
Proof.
  assert (NoDup [("b", VInt 3); ("c", VInt 4)].*1) as Hnd.
  { apply (bool_decide_unpack _). by vm_compute. }
  split; [exact Hnd|].
  exact (proj1 (merge_json_key_order [("a", VInt 1); ("b", VInt 2)]
                  [("b", VInt 3); ("c", VInt 4)] Hnd)).
Defined.

Lemma metadata_wrapper_not_nested_witness :
  Demo.translate 3 Demo.two_schemas init_state
  = Ok (Metadata (IntType None None None None None)
          (Some [("examples", VList [VInt 1; VInt 2]); ("unit", VStr "km");
                 ("props", VDict [("x", VInt 1); ("y", VInt 2)])])
          None, init_state)
  ∧ is_Metadata (IntType None None None None None) = false
  ∧ (Some [("examples", VList [VInt 1; VInt 2]); ("unit", VStr "km");
           ("props", VDict [("x", VInt 1); ("y", VInt 2)])] ≠ None
     ∨ @None pydict ≠ None).
Proof.
  assert (Demo.translate 3 Demo.two_schemas init_state
          = Ok (Metadata (IntType None None None None None)
                  (Some [("examples", VList [VInt 1; VInt 2]);
                         ("unit", VStr "km");
                         ("props", VDict [("x", VInt 1); ("y", VInt 2)])])
                  None, init_state)) as Hrun by (by vm_compute).
  split; [exact Hrun|].
  exact (metadata_wrapper_not_nested Demo.concrete_types Demo.to_builtins
           Demo.classes 3 _ _ _ _ Hrun _ _ _ eq_refl).
Defined.

Lemma no_dangling_references_witness :
  Demo.multi_type_info 5 Demo.batch VNone
  = Ok ([ListType (ObjRef 0) None None; ObjRef 1], Demo.batch_run)
  ∧ Forall (refs_below (length (heap Demo.batch_run)))
      [ListType (ObjRef 0) None None; ObjRef 1]
  ∧ ∀ l o, heap Demo.batch_run !! l = Some o →
      Forall (λ f, refs_below (length (heap Demo.batch_run)) (Field.type f))
        (obj_fields o).
Proof.
  assert (Demo.multi_type_info 5 Demo.batch VNone
          = Ok ([ListType (ObjRef 0) None None; ObjRef 1], Demo.batch_run))
    as Hrun by (by vm_compute).
  split; [exact Hrun|].
  exact (no_dangling_references Demo.concrete_types Demo.to_builtins
           Demo.classes Demo.MsgpackDecoder Demo.JSONDecoder 5 _ VNone _ _
           Hrun).
Defined.

Lemma includes_none_exact_witness :
  _translate_inner Demo.classes (Demo.translate 2) (DObj py_Union)
    (Some [DObj py_int; DObj py_NoneType]) Constrs.empty init_state
  = Ok (UnionType [IntType None None None None None; NoneType], init_state)
  ∧ (includes_none [IntType None None None None None; NoneType] = true
     ↔ Exists (plain_none Demo.concrete_types Demo.to_builtins)
         [DObj py_int; DObj py_NoneType]).
Proof.
  assert (_translate_inner Demo.classes (Demo.translate 2) (DObj py_Union)
            (Some [DObj py_int; DObj py_NoneType]) Constrs.empty init_state
          = Ok (UnionType [IntType None None None None None; NoneType],
                init_state)) as Hrun by reflexivity.
  split; [exact Hrun|].
  exact (includes_none_exact Demo.concrete_types Demo.to_builtins
           Demo.classes 2 _ _ _ _ _ Hrun).
Defined.

Lemma dict_arm_witness :
  Demo.translate 2 (DObj py_str) init_state
  = Ok (StrType None None None, init_state)
  ∧ _translate_inner Demo.classes (Demo.translate 2) (DObj py_dict)
      (Some [DObj py_str]) Constrs.empty init_state
    = Raise IndexError.
Proof.
  assert (Demo.translate 2 (DObj py_str) init_state
          = Ok (StrType None None None, init_state)) as Hkey by reflexivity.
  split; [exact Hkey|].
  exact (proj2 (proj2 (proj2 (proj2
           (dict_arm Demo.classes (Demo.translate 2) Constrs.empty
              init_state))) (DObj py_str)) _ _ Hkey).
Defined.

Lemma heap_size_bounded_witness :
  Demo.multi_type_info 5 Demo.batch VNone
  = Ok ([ListType (ObjRef 0) None None; ObjRef 1], Demo.batch_run)
  ∧ length (heap Demo.batch_run) = size (cache Demo.batch_run)
  ∧ dom (cache Demo.batch_run) ⊆ dom Demo.classes
  ∧ (length (heap Demo.batch_run) ≤ size Demo.classes)%nat.
Proof.
  assert (Demo.multi_type_info 5 Demo.batch VNone
          = Ok ([ListType (ObjRef 0) None None; ObjRef 1], Demo.batch_run))
    as Hrun by (by vm_compute).
  split; [exact Hrun|].
  exact (heap_size_bounded Demo.concrete_types Demo.to_builtins
           Demo.classes Demo.MsgpackDecoder Demo.JSONDecoder 5 _ VNone _ _
           Hrun).
Defined.

Lemma union_members_in_order_witness :
  _translate_inner Demo.classes (Demo.translate 2) (DObj py_Union)
    (Some [DObj py_int; DObj py_NoneType]) Constrs.empty init_state
  = Ok (UnionType [IntType None None None None None; NoneType], init_state)
  ∧ ∃ types,
      UnionType [IntType None None None None None; NoneType] = UnionType types
      ∧ Forall2 (λ a ty, Demo.translate 2 a init_state = Ok (ty, init_state))
          [DObj py_int; DObj py_NoneType] types.
Proof.
  assert (_translate_inner Demo.classes (Demo.translate 2) (DObj py_Union)
            (Some [DObj py_int; DObj py_NoneType]) Constrs.empty init_state
          = Ok (UnionType [IntType None None None None None; NoneType],
                init_state)) as Hrun by reflexivity.
  split; [exact Hrun|].
  exact (proj2 (union_members_in_order Demo.concrete_types Demo.to_builtins
                  Demo.classes 2 _ Constrs.empty init_state) _ _ Hrun).
Defined.

